(** * AcpService: the ACP session manager of emdash

  A shallow embedding of [src/main/services/AcpService.ts] (the JSON-RPC
  over stdio session manager) and the properties of its framing, message
  dispatch, request correlation and session lifecycle.

  Conventions of the embedding:
  - a JavaScript string is the list of its UTF-16 code units ([jsstring]);
  - a [Buffer] is a list of bytes;
  - the three [Map]s of the service are finite maps; [pendingRequests] is
    kept as an insertion-ordered association list because [dispose]
    iterates over it with [forEach];
  - every call the service makes to its collaborators (the child process,
    timers, promise continuations, the log writer, the logger, the event
    emitter, [JSON.parse]) is appended to the [trace] of the service
    state, in program order;
  - a JavaScript exception is an explicit [Thrown] outcome; its message is
    never inspected by the service and is kept short here. *)

From Stdlib Require Import NArith ZArith Bool List Lia.
From Stdlib Require Import Strings.String Strings.Ascii Strings.Byte.
From stdpp Require Import base option list gmap.

Import ListNotations.
Local Open Scope N_scope.
Set Warnings "-register-all".

(** ** JavaScript strings *)

Module JsString.

(** A string value: its UTF-16 code units. *)
Abbreviation jsstring := (list N).

(** A literal of ASCII characters. *)
Definition lit (s : string) : jsstring :=
  List.map N_of_ascii (list_ascii_of_string s).

(** A literal in which the apostrophe stands for the double quote, for
    JSON text. *)
Definition qlit (s : string) : jsstring :=
  List.map (fun c => if c =? 39 then 34 else c) (lit s).

(** [s.length] *)
Definition len (s : jsstring) : N := N.of_nat (length s).

Fixpoint eqb (a b : jsstring) : bool :=
  match a, b with
  | [], [] => true
  | x :: a', y :: b' => (x =? y) && eqb a' b'
  | _, _ => false
  end.

(** [s.startsWith(p)] *)
Fixpoint startsWith (s p : jsstring) {struct p} : bool :=
  match p with
  | [] => true
  | y :: p' =>
      match s with
      | [] => false
      | x :: s' => (x =? y) && startsWith s' p'
      end
  end.

(** The decimal rendering of a non-negative integer, as [String(n)] gives
    it for the integers a counter takes. *)
Fixpoint dec_aux (fuel : nat) (n : N) (acc : jsstring) : jsstring :=
  match fuel with
  | O => acc
  | S fuel' =>
      let acc' := (48 + n mod 10) :: acc in
      if n / 10 =? 0 then acc' else dec_aux fuel' (n / 10) acc'
  end.

Definition dec (n : N) : jsstring := dec_aux (S (N.to_nat (N.log2 n))) n [].

(** White space and line terminators, the code units [trim] strips and
    [parseInt] skips. *)
Definition is_space (c : N) : bool :=
  ((9 <=? c) && (c <=? 13)) || (c =? 32) || (c =? 160) || (c =? 5760)
  || ((8192 <=? c) && (c <=? 8202)) || (c =? 8232) || (c =? 8233)
  || (c =? 8239) || (c =? 8287) || (c =? 12288) || (c =? 65279).

Fixpoint trimStart (s : jsstring) : jsstring :=
  match s with
  | c :: s' => if is_space c then trimStart s' else s
  | [] => []
  end.

Fixpoint trimEnd (s : jsstring) : jsstring :=
  match s with
  | c :: s' =>
      match trimEnd s' with
      | [] => if is_space c then [] else [c]
      | t => c :: t
      end
  | [] => []
  end.

(** [s.trim()] *)
Definition trim (s : jsstring) : jsstring := trimEnd (trimStart s).

(** [s.split('\n')]: never empty, the last element is what follows the
    last newline. *)
Fixpoint split_nl (s : jsstring) : list jsstring :=
  match s with
  | [] => [[]]
  | c :: s' =>
      if c =? 10 then [] :: split_nl s'
      else match split_nl s' with
           | l :: ls => (c :: l) :: ls
           | [] => [[c]]
           end
  end.

(** [s.slice(0, n)] *)
Definition slice0 (n : nat) (s : jsstring) : jsstring := firstn n s.

End JsString.
Export JsString.

Arguments lit s%_string.
Arguments qlit s%_string.

(** ** Buffers and [Buffer.toString('utf8')] *)

Module Utf8.

Abbreviation buffer := (list byte).

Definition REPLACEMENT : N := 65533.

(** Decoder state between two bytes: continuation bytes still needed, the
    code point accumulated so far, and the range allowed for the next
    byte. *)
Record dstate := mkD { needed : nat; acc : N; lo : N; hi : N }.

Definition idle : dstate := mkD 0 0 128 191.

(** A byte met while no sequence is open. *)
Definition lead (b : N) : list N * dstate :=
  if b <=? 127 then ([b], idle)
  else if (194 <=? b) && (b <=? 223) then ([], mkD 1 (N.land b 31) 128 191)
  else if (224 <=? b) && (b <=? 239) then
    ([], mkD 2 (N.land b 15) (if b =? 224 then 160 else 128)
                             (if b =? 237 then 159 else 191))
  else if (240 <=? b) && (b <=? 244) then
    ([], mkD 3 (N.land b 7) (if b =? 240 then 144 else 128)
                            (if b =? 244 then 143 else 191))
  else ([REPLACEMENT], idle).

(** Code points of a byte sequence; every ill-formed or truncated
    sequence yields U+FFFD and decoding resumes at the offending byte. *)
Fixpoint decode (st : dstate) (bs : list N) : list N :=
  match bs with
  | [] => match needed st with O => [] | S _ => [REPLACEMENT] end
  | b :: rest =>
      match needed st with
      | O => let '(out, st') := lead b in out ++ decode st' rest
      | S n =>
          if (lo st <=? b) && (b <=? hi st) then
            let cp := N.lor (N.shiftl (acc st) 6) (N.land b 63) in
            match n with
            | O => cp :: decode idle rest
            | S _ => decode (mkD n cp 128 191) rest
            end
          else
            let '(out, st') := lead b in
            REPLACEMENT :: out ++ decode st' rest
      end
  end.

(** UTF-16 code units of a code point. *)
Definition utf16 (cp : N) : list N :=
  if cp <? 65536 then [cp]
  else let c := cp - 65536 in
       [55296 + N.shiftr c 10; 56320 + N.land c 1023].

(** [chunk.toString('utf8')] *)
Definition toString (chunk : buffer) : jsstring :=
  List.concat (List.map utf16 (decode idle (List.map Byte.to_N chunk))).

(** The UTF-8 bytes of a string of ASCII characters, [Buffer.from(s)]. *)
Definition of_ascii (s : jsstring) : buffer :=
  List.map (fun c => default x3f (Byte.of_N c)) s.

End Utf8.

(** ** JSON values and the JavaScript operations applied to them *)

Module Js.

(** What [JSON.parse] returns. Numbers are the integer-valued ones (the
    ids and versions of the protocol); [fields] holds the own properties of
    an object, one entry per key. *)
Inductive json :=
| JNull
| JBool (b : bool)
| JNum (n : Z)
| JStr (s : jsstring)
| JArr (items : list json)
| JObj (fields : list (jsstring * json)).

(** A value that may be [undefined]. *)
Abbreviation value := (option json).

Fixpoint assoc (key : jsstring) (fields : list (jsstring * json)) : option json :=
  match fields with
  | [] => None
  | (k, v) :: rest => if JsString.eqb k key then Some v else assoc key rest
  end.

(** [key in v], for a key that no prototype supplies and that is not an
    array index. [None] is the [TypeError] that [in] raises on a primitive
    or on [null]. *)
Definition js_in (key : jsstring) (v : json) : option bool :=
  match v with
  | JObj fields => Some (bool_decide (is_Some (assoc key fields)))
  | JArr _ => Some false
  | _ => None
  end.

(** [v.key] on a value that is neither [null] nor [undefined], for such a
    key: primitives and arrays have no such property. *)
Definition prop (key : jsstring) (v : json) : value :=
  match v with
  | JObj fields => assoc key fields
  | _ => None
  end.

(** ToBoolean *)
Definition truthy (v : value) : bool :=
  match v with
  | None | Some JNull => false
  | Some (JBool b) => b
  | Some (JNum n) => negb (n =? 0)%Z
  | Some (JStr s) => match s with [] => false | _ => true end
  | Some (JArr _) | Some (JObj _) => true
  end.

Definition dec_Z (n : Z) : jsstring :=
  match n with
  | Zneg p => lit "-" ++ dec (Npos p)
  | _ => dec (Z.to_N n)
  end.

Fixpoint join (sep : jsstring) (parts : list jsstring) : jsstring :=
  match parts with
  | [] => []
  | [p] => p
  | p :: rest => p ++ sep ++ join sep rest
  end.

(** ToString of a JSON value, as a template literal applies it. *)
Fixpoint toString_json (v : json) : jsstring :=
  match v with
  | JNull => lit "null"
  | JBool true => lit "true"
  | JBool false => lit "false"
  | JNum n => dec_Z n
  | JStr s => s
  | JArr items =>
      join (lit ",")
        (List.map (fun i => match i with JNull => [] | _ => toString_json i end) items)
  | JObj _ => lit "[object Object]"
  end.

Definition toString (v : value) : jsstring :=
  match v with
  | None => lit "undefined"
  | Some j => toString_json j
  end.

(** [parseInt(s)]: [None] is [NaN]. *)
Definition digit (radix : N) (c : N) : option N :=
  let d := if (48 <=? c) && (c <=? 57) then Some (c - 48)
           else if (97 <=? c) && (c <=? 122) then Some (c - 87)
           else if (65 <=? c) && (c <=? 90) then Some (c - 55)
           else None in
  match d with
  | Some n => if n <? radix then Some n else None
  | None => None
  end.

Fixpoint digits (radix : N) (s : jsstring) (acc : option N) : option N :=
  match s with
  | [] => acc
  | c :: rest =>
      match digit radix c with
      | Some d => digits radix rest (Some (radix * default 0 acc + d))
      | None => acc
      end
  end.

Definition parseInt_string (s : jsstring) : option Z :=
  let s := trimStart s in
  let '(neg, s) := match s with
                   | 45 :: r => (true, r)
                   | 43 :: r => (false, r)
                   | _ => (false, s)
                   end in
  let '(radix, s) := match s with
                     | 48 :: 120 :: r => (16, r)
                     | 48 :: 88 :: r => (16, r)
                     | _ => (10, s)
                     end in
  match digits radix s None with
  | Some n => Some (if neg : bool then (- Z.of_N n)%Z else Z.of_N n)
  | None => None
  end.

Definition parseInt (v : value) : option Z := parseInt_string (toString v).

(** [x < 1] on the result of [parseInt]; a comparison with [NaN] is false. *)
Definition below_one (x : option Z) : bool :=
  match x with
  | Some n => (n <? 1)%Z
  | None => false
  end.

End Js.
Export Js.

(** The two functions of the runtime's [JSON] object. [JSON_parse] returns
    [None] where [JSON.parse] raises a [SyntaxError]. *)
Class Runtime := {
  JSON_parse : jsstring -> option json;
  JSON_stringify : json -> jsstring
}.

(** [JSON.stringify(v)] inside a template literal. *)
Definition stringify `{rt : Runtime} (v : value) : jsstring :=
  match v with
  | None => lit "undefined"
  | Some j => JSON_stringify j
  end.

(** ** The service state *)

(** The [status] of a session. *)
Inductive SessionStatus := initializing | ready | error | exited.

(** The [ChildProcess] of a session: whether it was spawned with a stdin
    pipe, the [killed] flag, and whether the operating system process is
    running ([running] is false once it has exited, or when it could not
    be spawned). *)
Record ChildProcess := mkProcess {
  stdin : bool;
  killed : bool;
  running : bool
}.

Record AcpSession := mkSession {
  id : jsstring;
  providerId : jsstring;
  workspaceId : jsstring;
  cwd : jsstring;
  process : ChildProcess;
  status : SessionStatus;
  protocolVersion : value;
  capabilities : value
}.

(** An entry of [pendingRequests]: the promise its [resolve] and [reject]
    settle, and its timeout handle. *)
Record PendingCall := mkPending {
  promise : N;
  timeout : N
}.

(** A timer armed by [rpcCall], with what its callback closes over. *)
Record Timer := mkTimer {
  handle : N;
  timerKey : jsstring;
  timerPromise : N;
  timerMethod : jsstring;
  timerMs : N
}.

Inductive payload :=
| Stderr (data : jsstring)
| Exit (code : option Z)
| Notification (msg : json).

(** The calls the service makes to the outside. [WriterWrite] carries the
    message of the log line (the writer prefixes the clock's timestamp). *)
Inductive call :=
| Kill (sessionId : jsstring)
| SetTimeout (t : N) (ms : N)
| ClearTimeout (t : N)
| Resolve (p : N) (result : value)
| Reject (p : N) (message : jsstring)
| StdinWrite (sessionId : jsstring) (line : jsstring)
| WriterOpen (sessionId : jsstring)
| WriterWrite (sessionId : jsstring) (message : jsstring)
| WriterEnd (sessionId : jsstring)
| LogInfo (message : jsstring)
| LogWarn (message : jsstring)
| LogError (message : jsstring)
| EmitNotification (sessionId : jsstring) (p : payload)
| EmitError (sessionId : jsstring) (message : jsstring)
| JsonParse (line : jsstring).

Record AcpService := mkService {
  sessions : gmap jsstring AcpSession;
  pendingRequests : list (jsstring * PendingCall);
  requestIdCounter : N;
  logWriters : gset jsstring;
  (** the [buffer] variable of each [wireStdio] closure *)
  buffers : gmap jsstring jsstring;
  (** timers armed and neither fired nor cleared *)
  timers : list Timer;
  (** listeners subscribed to the emitter's ['error'] event *)
  errorListeners : nat;
  trace : list call
}.

(** [new AcpService()] *)
Definition newService : AcpService :=
  mkService ∅ [] 0 ∅ ∅ [] 0 [].

(** [service.on('error', listener)] *)
Definition onError (st : AcpService) : AcpService :=
  mkService (sessions st) (pendingRequests st) (requestIdCounter st)
    (logWriters st) (buffers st) (timers st) (S (errorListeners st)) (trace st).

Definition set_sessions (f : gmap jsstring AcpSession -> gmap jsstring AcpSession)
    (st : AcpService) : AcpService :=
  mkService (f (sessions st)) (pendingRequests st) (requestIdCounter st)
    (logWriters st) (buffers st) (timers st) (errorListeners st) (trace st).

Definition set_pending (f : list (jsstring * PendingCall) -> list (jsstring * PendingCall))
    (st : AcpService) : AcpService :=
  mkService (sessions st) (f (pendingRequests st)) (requestIdCounter st)
    (logWriters st) (buffers st) (timers st) (errorListeners st) (trace st).

Definition set_counter (n : N) (st : AcpService) : AcpService :=
  mkService (sessions st) (pendingRequests st) n
    (logWriters st) (buffers st) (timers st) (errorListeners st) (trace st).

Definition set_writers (f : gset jsstring -> gset jsstring) (st : AcpService) : AcpService :=
  mkService (sessions st) (pendingRequests st) (requestIdCounter st)
    (f (logWriters st)) (buffers st) (timers st) (errorListeners st) (trace st).

Definition set_buffer (sessionId buffer : jsstring) (st : AcpService) : AcpService :=
  mkService (sessions st) (pendingRequests st) (requestIdCounter st)
    (logWriters st) (<[sessionId := buffer]> (buffers st)) (timers st)
    (errorListeners st) (trace st).

Definition set_timers (f : list Timer -> list Timer) (st : AcpService) : AcpService :=
  mkService (sessions st) (pendingRequests st) (requestIdCounter st)
    (logWriters st) (buffers st) (f (timers st)) (errorListeners st) (trace st).

(** Record a call at the end of the trace. *)
Definition does (c : call) (st : AcpService) : AcpService :=
  mkService (sessions st) (pendingRequests st) (requestIdCounter st)
    (logWriters st) (buffers st) (timers st) (errorListeners st) (trace st ++ [c]).

(** How a handler ends: normally, or by an exception that leaves it. *)
Inductive completion :=
| Normal (st : AcpService)
| Thrown (st : AcpService) (message : jsstring).

Definition state_of (c : completion) : AcpService :=
  match c with
  | Normal st => st
  | Thrown st _ => st
  end.

(** *** [Map] operations on [pendingRequests] *)

Module PendingMap.

Fixpoint get (key : jsstring) (m : list (jsstring * PendingCall)) : option PendingCall :=
  match m with
  | [] => None
  | (k, v) :: rest => if decide (k = key) then Some v else get key rest
  end.

(** [m.set(key, v)]: an existing key keeps its place. *)
Fixpoint set (key : jsstring) (v : PendingCall) (m : list (jsstring * PendingCall))
    : list (jsstring * PendingCall) :=
  match m with
  | [] => [(key, v)]
  | (k, w) :: rest =>
      if decide (k = key) then (k, v) :: rest else (k, w) :: set key v rest
  end.

Definition delete (key : jsstring) (m : list (jsstring * PendingCall))
    : list (jsstring * PendingCall) :=
  List.filter (fun e => negb (bool_decide (fst e = key))) m.

End PendingMap.

(** *** Timers, promises, the emitter and the log writer *)

Definition setTimeout (t : Timer) (st : AcpService) : AcpService :=
  does (SetTimeout (handle t) (timerMs t)) (set_timers (fun ts => ts ++ [t]) st).

Definition clearTimeout (h : N) (st : AcpService) : AcpService :=
  does (ClearTimeout h)
    (set_timers (List.filter (fun t => negb (handle t =? h))) st).

(** [this.emit('notification', ..)] *)
Definition emitNotification (sessionId : jsstring) (p : payload) (st : AcpService)
    : AcpService :=
  does (EmitNotification sessionId p) st.

(** [this.emit('error', ..)]: an [EventEmitter] with no ['error'] listener
    throws instead of delivering the event. *)
Definition emitError (sessionId message : jsstring) (st : AcpService) : completion :=
  match errorListeners st with
  | O => Thrown st (lit "Unhandled error.")
  | S _ => Normal (does (EmitError sessionId message) st)
  end.

(** [writeLog] *)
Definition writeLog (sessionId message : jsstring) (st : AcpService) : AcpService :=
  if decide (sessionId ∈ logWriters st) then does (WriterWrite sessionId message) st
  else st.

(** [process.kill()]: delivers the signal and sets [killed] while the
    process is running, does nothing when there is no running process. *)
Definition kill (sessionId : jsstring) (session : AcpSession) (st : AcpService)
    : AcpService :=
  if running (process session) then
    does (Kill sessionId)
      (set_sessions
         (alter (fun s => mkSession (id s) (providerId s) (workspaceId s) (cwd s)
                            (mkProcess (stdin (process s)) true (running (process s)))
                            (status s) (protocolVersion s) (capabilities s))
                sessionId) st)
  else st.

(** ** The operations of [AcpService] *)

Section Service.

Context `{rt : Runtime}.

(** The key of a pending call, [`${sessionId}:${id}`]. *)
Definition reqKeyOf (sessionId : jsstring) (id : value) : jsstring :=
  sessionId ++ lit ":" ++ toString id.

(** [new Error(m).message] *)
Definition errorMessage (m : value) : jsstring :=
  match m with
  | None => []
  | Some _ => toString m
  end.

(** The test of the first branch of [handleMessage],
    ['id' in msg && 'result' in msg || 'error' in msg]. *)
Definition responseTest (msg : json) : option bool :=
  a ← js_in (lit "id") msg;
  b ← (if a : bool then js_in (lit "result") msg else Some false);
  if b : bool then Some true else js_in (lit "error") msg.

(** The test of its second branch, ['method' in msg && !('id' in msg)]. *)
Definition notificationTest (msg : json) : option bool :=
  a ← js_in (lit "method") msg;
  if a : bool then negb <$> js_in (lit "id") msg else Some false.

(** [handleMessage] *)
Definition handleMessage (sessionId : jsstring) (msg : json) (st : AcpService)
    : completion :=
  match responseTest msg with
  | None => Thrown st (lit "Cannot use 'in' operator")
  | Some true =>
      let reqKey := reqKeyOf sessionId (prop (lit "id") msg) in
      match PendingMap.get reqKey (pendingRequests st) with
      | Some pending =>
          let st := clearTimeout (timeout pending) st in
          let st := set_pending (PendingMap.delete reqKey) st in
          if truthy (prop (lit "error") msg) then
            Normal (does (Reject (promise pending)
                            (errorMessage
                               (from_option (prop (lit "message")) None
                                  (prop (lit "error") msg))))
                      st)
          else
            Normal (does (Resolve (promise pending) (prop (lit "result") msg)) st)
      | None => Normal st
      end
  | Some false =>
      match notificationTest msg with
      | None => Thrown st (lit "Cannot use 'in' operator")
      | Some true =>
          let st := writeLog sessionId
                      (lit "[notification] " ++ toString (prop (lit "method") msg)
                       ++ lit ": " ++ stringify (prop (lit "params") msg)) st in
          Normal (emitNotification sessionId (Notification msg) st)
      | Some false => Normal st
      end
  end.

(** Whether an object has a member named [key]. *)
Definition has (key : string) (fields : list (jsstring * json)) : bool :=
  bool_decide (is_Some (assoc (lit key) fields)).

(** The ceiling on the length of a line. *)
Definition MAX_LINE : N := 65536.

Definition oversizedWarning (sessionId trimmed : jsstring) : jsstring :=
  lit "Session " ++ sessionId ++ lit ": Ignoring oversized line ("
  ++ dec (len trimmed) ++ lit " bytes)".

Definition invalidJsonError (sessionId trimmed : jsstring) : jsstring :=
  lit "Session " ++ sessionId ++ lit ": Invalid JSON: " ++ slice0 200 trimmed.

(** The [try] block of the stdout loop: [JSON.parse] then [handleMessage]. *)
Definition parseAndHandle (sessionId trimmed : jsstring) (st : AcpService)
    : completion :=
  let st := does (JsonParse trimmed) st in
  match JSON_parse trimmed with
  | None => Thrown st (lit "Unexpected token")
  | Some msg => handleMessage sessionId msg st
  end.

(** The body of the [for] loop over the lines of a chunk, and the loop. An
    exception that leaves the [catch] block leaves the loop. *)
Fixpoint processLines (sessionId : jsstring) (lines : list jsstring) (st : AcpService)
    : completion :=
  match lines with
  | [] => Normal st
  | line :: rest =>
      let trimmed := trim line in
      match trimmed with
      | [] => processLines sessionId rest st
      | _ :: _ =>
          if MAX_LINE <? len trimmed then
            processLines sessionId rest
              (does (LogWarn (oversizedWarning sessionId trimmed)) st)
          else
            match parseAndHandle sessionId trimmed st with
            | Normal st => processLines sessionId rest st
            | Thrown st _ =>
                let st := does (LogError (invalidJsonError sessionId trimmed)) st in
                match emitError sessionId (lit "Invalid JSON from agent") st with
                | Normal st => processLines sessionId rest st
                | Thrown st e => Thrown st e
                end
            end
      end
  end.

(** The framing step of the stdout handler: the chunk is decoded and
    appended to the buffer, the buffer is split at newlines, and what
    follows the last newline is kept ([lines.pop() || '']). *)
Definition frame (buffer : jsstring) (chunk : Utf8.buffer)
    : list jsstring * jsstring :=
  let buffer := buffer ++ Utf8.toString chunk in
  let lines := split_nl buffer in
  (removelast lines, List.last lines []).

(** The framing steps of a sequence of chunks: the lines extracted, in
    order, and the buffer left at the end. *)
Fixpoint feed (buffer : jsstring) (chunks : list Utf8.buffer)
    : list jsstring * jsstring :=
  match chunks with
  | [] => ([], buffer)
  | chunk :: rest =>
      let '(lines, buffer) := frame buffer chunk in
      let '(more, buffer) := feed buffer rest in
      (lines ++ more, buffer)
  end.

(** [proc.stdout.on('data', ..)]; the buffer of a handler that has seen
    no chunk is empty. *)
Definition onStdoutData (sessionId : jsstring) (chunk : Utf8.buffer) (st : AcpService)
    : completion :=
  let '(lines, buffer) := frame (default [] (buffers st !! sessionId)) chunk in
  processLines sessionId lines (set_buffer sessionId buffer st).

(** [proc.stderr.on('data', ..)] *)
Definition onStderrData (sessionId : jsstring) (chunk : Utf8.buffer) (st : AcpService)
    : AcpService :=
  let data := Utf8.toString chunk in
  emitNotification sessionId (Stderr data)
    (writeLog sessionId (lit "[stderr] " ++ data) st).

(** [dispose]: the callback of [pendingRequests.forEach] and the method. *)
Definition disposePending (sessionId : jsstring) (entry : jsstring * PendingCall)
    (st : AcpService) : AcpService :=
  let '(reqId, pending) := entry in
  if startsWith reqId sessionId then
    set_pending (PendingMap.delete reqId)
      (does (Reject (promise pending) (lit "Session disposed"))
         (clearTimeout (timeout pending) st))
  else st.

Definition dispose (sessionId : jsstring) (st : AcpService) : AcpService :=
  match sessions st !! sessionId with
  | None => st
  | Some session =>
      let st := if negb (killed (process session)) then kill sessionId session st
                else st in
      let st := fold_left (fun st entry => disposePending sessionId entry st)
                  (pendingRequests st) st in
      let st := if decide (sessionId ∈ logWriters st) then
                  set_writers (fun w => w ∖ {[sessionId]}) (does (WriterEnd sessionId) st)
                else st in
      let st := set_sessions (delete sessionId) st in
      does (LogInfo (lit "Session " ++ sessionId ++ lit " disposed")) st
  end.

Definition set_status (s : SessionStatus) (session : AcpSession) : AcpSession :=
  mkSession (id session) (providerId session) (workspaceId session) (cwd session)
    (process session) s (protocolVersion session) (capabilities session).

Definition render_code (code : option Z) : jsstring :=
  match code with
  | Some n => dec_Z n
  | None => lit "null"
  end.

(** [proc.on('exit', ..)]: the process has exited when the handler runs. *)
Definition onExit (sessionId : jsstring) (code : option Z) (signal : option jsstring)
    (st : AcpService) : AcpService :=
  let st := set_sessions
              (alter (fun s => mkSession (id s) (providerId s) (workspaceId s) (cwd s)
                                 (mkProcess (stdin (process s)) (killed (process s)) false)
                                 (status s) (protocolVersion s) (capabilities s))
                     sessionId) st in
  let st := does (LogInfo (lit "Session " ++ sessionId ++ lit " exited: code="
                           ++ render_code code ++ lit ", signal="
                           ++ default (lit "null") signal)) st in
  let st := set_sessions (alter (set_status exited) sessionId) st in
  let st := emitNotification sessionId (Exit code) st in
  dispose sessionId st.

(** [proc.on('error', ..)]. Node delivers this event when the process
    could not be spawned, and then there is no process to signal when the
    handler runs; [alive] tells whether the process is running after the
    error. *)
Definition onProcessError (sessionId message : jsstring) (alive : bool)
    (st : AcpService) : completion :=
  let st := set_sessions
              (alter (fun s => mkSession (id s) (providerId s) (workspaceId s) (cwd s)
                                 (mkProcess (stdin (process s)) (killed (process s))
                                    (running (process s) && alive))
                                 (status s) (protocolVersion s) (capabilities s))
                     sessionId) st in
  let st := does (LogError (lit "Session " ++ sessionId ++ lit " process error: "
                            ++ message)) st in
  let st := set_sessions (alter (set_status error) sessionId) st in
  emitError sessionId message st.

(** How a promise is settled. *)
Inductive settled :=
| Fulfilled (result : value)
| Rejected (message : jsstring).

Definition request (id : N) (method : jsstring) (params : json) : json :=
  JObj [(lit "jsonrpc", JStr (lit "2.0")); (lit "id", JNum (Z.of_N id));
        (lit "method", JStr method); (lit "params", params)].

Definition notification (method : jsstring) (params : json) : json :=
  JObj [(lit "jsonrpc", JStr (lit "2.0")); (lit "method", JStr method);
        (lit "params", params)].

(** [rpcCall], up to the return of its promise: [inl p] is the pending
    promise [p], [inr m] a promise already rejected with message [m]. *)
Definition rpcCall (sessionId method : jsstring) (params : json) (timeoutMs : N)
    (st : AcpService) : AcpService * (N + jsstring) :=
  match sessions st !! sessionId with
  | None => (st, inr (lit "Session not available"))
  | Some session =>
      if negb (stdin (process session)) then (st, inr (lit "Session not available"))
      else
        let id := requestIdCounter st + 1 in
        let st := set_counter id st in
        let reqKey := sessionId ++ lit ":" ++ dec id in
        let st := setTimeout (mkTimer id reqKey id method timeoutMs) st in
        let st := set_pending (PendingMap.set reqKey (mkPending id id)) st in
        let st := does (StdinWrite sessionId
                          (JSON_stringify (request id method params) ++ [10])) st in
        let st := writeLog sessionId
                    (lit "[request] " ++ method ++ lit ": " ++ JSON_stringify params)
                    st in
        (st, inl id)
  end.

(** The timeout callback of a call, run when its timer fires. A timer
    that was cleared does not fire. *)
Definition onTimeout (h : N) (st : AcpService) : AcpService :=
  match List.find (fun t => handle t =? h) (timers st) with
  | None => st
  | Some t =>
      let st := set_timers (List.filter (fun t => negb (handle t =? h))) st in
      let st := set_pending (PendingMap.delete (timerKey t)) st in
      does (Reject (timerPromise t)
              (lit "Request " ++ timerMethod t ++ lit " timed out after "
               ++ dec (timerMs t) ++ lit "ms")) st
  end.

(** The callback of the stdin write of call [p], when the write failed. *)
Definition onWriteError (reqKey : jsstring) (p : N) (message : jsstring)
    (st : AcpService) : AcpService :=
  let st := clearTimeout p st in
  let st := set_pending (PendingMap.delete reqKey) st in
  does (Reject p message) st.

(** [rpcNotify]; [writeError] is the error, if any, that the stdin write
    passes to its callback. *)
Definition rpcNotify (sessionId method : jsstring) (params : json)
    (writeError : option jsstring) (st : AcpService) : AcpService * settled :=
  match sessions st !! sessionId with
  | None => (st, Rejected (lit "Session not available"))
  | Some session =>
      if negb (stdin (process session)) then (st, Rejected (lit "Session not available"))
      else
        let st := does (StdinWrite sessionId
                          (JSON_stringify (notification method params) ++ [10])) st in
        let st := writeLog sessionId
                    (lit "[notify] " ++ method ++ lit ": " ++ JSON_stringify params)
                    st in
        (st, match writeError with
             | Some e => Rejected e
             | None => Fulfilled None
             end)
  end.

(** What [cancel] resolves to, [{ success, error? }]. *)
Inductive outcome :=
| Success
| Failure (error : jsstring).

Definition cancel (sessionId : jsstring) (writeError : option jsstring)
    (st : AcpService) : AcpService * outcome :=
  match sessions st !! sessionId with
  | None => (st, Failure (lit "Session not found"))
  | Some _ =>
      match rpcNotify sessionId (lit "cancel") (JObj []) writeError st with
      | (st, Fulfilled _) => (st, Success)
      | (st, Rejected m) => (st, Failure m)
      end
  end.

(** The stdout handler run on one chunk after another. An exception that
    leaves one run does not undo what that run did, and the handler stays
    installed for the next chunk. *)
Definition feedStdout (sessionId : jsstring) (chunks : list Utf8.buffer)
    (st : AcpService) : AcpService :=
  fold_left (fun st chunk => state_of (onStdoutData sessionId chunk st)) chunks st.

(** *** [newSession] and [prompt] *)

Record SpawnSpec := mkSpawnSpec {
  command : jsstring;
  args : list jsstring
}.

Record AcpNewSessionArgs := mkArgs {
  argProviderId : jsstring;
  argWorkspaceId : jsstring;
  argCwd : jsstring;
  spawnOverride : option SpawnSpec;
  init : value
}.

(** What [newSession] reads from its environment: the clock, the settings,
    the platform, the application version, and whether [spawn] or the
    creation of the log stream raise. *)
Record Environment := mkEnv {
  now : N;
  geminiPath : option jsstring;
  win32 : bool;
  initializeMs : N;
  promptMs : N;
  appVersion : jsstring;
  spawnError : option jsstring;
  logStreamError : option jsstring
}.

Definition getProviderSpawnSpec (env : Environment) (providerId : jsstring)
    : option SpawnSpec :=
  if decide (providerId = lit "gemini") then
    Some (mkSpawnSpec
            (match geminiPath env with
             | Some (c :: p) => c :: p
             | _ => if win32 env then lit "gemini.cmd" else lit "gemini"
             end) [])
  else None.

Definition setupLogWriter (env : Environment) (sessionId : jsstring) (st : AcpService)
    : AcpService :=
  match logStreamError env with
  | Some e =>
      does (LogError (lit "Failed to setup log writer for " ++ sessionId ++ lit ": " ++ e))
        st
  | None =>
      does (WriterOpen sessionId) (set_writers (fun w => w ∪ {[sessionId]}) st)
  end.

(** [wireStdio] installs the handlers above; its state is the empty
    buffer. *)
Definition wireStdio (sessionId : jsstring) (st : AcpService) : AcpService :=
  match sessions st !! sessionId with
  | None => st
  | Some _ => set_buffer sessionId [] st
  end.

Definition defaultInit (env : Environment) : json :=
  JObj [(lit "clientInfo",
          JObj [(lit "name", JStr (lit "emdash")); (lit "version", JStr (appVersion env))]);
        (lit "capabilities",
          JObj [(lit "fs", JObj [(lit "read_text_file", JBool true);
                                 (lit "write_text_file", JBool true)]);
                (lit "terminal", JBool true);
                (lit "meta", JObj [(lit "terminal_output", JBool true)])])].

Inductive newSessionResult :=
| Created (sessionId : jsstring)
| NotCreated (error : jsstring).

(** The session id [newSession] builds. *)
Definition sessionIdOf (args : AcpNewSessionArgs) (env : Environment) : jsstring :=
  argProviderId args ++ lit "-" ++ argWorkspaceId args ++ lit "-" ++ dec (now env).

(** [newSession] after the [await] of the [initialize] call, given how
    that promise was settled. *)
Definition newSessionFinish (sessionId : jsstring) (r : settled) (st : AcpService)
    : AcpService * newSessionResult :=
  match r with
  | Fulfilled None =>
      (dispose sessionId st,
       NotCreated (lit "Initialize timeout or error: "
                   ++ lit "Cannot read properties of undefined (reading 'protocolVersion')"))
  | Fulfilled (Some JNull) =>
      (dispose sessionId st,
       NotCreated (lit "Initialize timeout or error: "
                   ++ lit "Cannot read properties of null (reading 'protocolVersion')"))
  | Fulfilled (Some result) =>
      let version := prop (lit "protocolVersion") result in
      if truthy version && below_one (parseInt version) then
        (dispose sessionId st,
         NotCreated (lit "Unsupported protocol version (requires v1+)"))
      else
        let st := set_sessions
                    (alter (fun s => mkSession (id s) (providerId s) (workspaceId s)
                                       (cwd s) (process s) ready version
                                       (prop (lit "capabilities") result))
                           sessionId) st in
        (does (LogInfo (lit "Session " ++ sessionId ++ lit " initialized successfully")) st,
         Created sessionId)
  | Rejected m =>
      (dispose sessionId st, NotCreated (lit "Initialize timeout or error: " ++ m))
  end.

(** [newSession] up to the [await]: [inl (sessionId, p)] when the
    [initialize] call [p] is pending, [inr r] when it returned [r]. *)
Definition newSessionStart (args : AcpNewSessionArgs) (env : Environment)
    (st : AcpService) : AcpService * (jsstring * N + newSessionResult) :=
  let sessionId := sessionIdOf args env in
  match match spawnOverride args with
        | Some spec => Some spec
        | None => getProviderSpawnSpec env (argProviderId args)
        end with
  | None =>
      (st, inr (NotCreated (lit "Provider " ++ argProviderId args
                            ++ lit " not found in registry")))
  | Some spec =>
      match spawnError env with
      | Some e => (st, inr (NotCreated (lit "Failed to spawn provider: " ++ e)))
      | None =>
          let session := mkSession sessionId (argProviderId args) (argWorkspaceId args)
                           (argCwd args) (mkProcess true false true) initializing
                           None None in
          let st := set_sessions (insert sessionId session) st in
          let st := setupLogWriter env sessionId st in
          let st := wireStdio sessionId st in
          let initParams := match init args with
                            | Some i => if truthy (Some i) then i else defaultInit env
                            | None => defaultInit env
                            end in
          match rpcCall sessionId (lit "initialize") initParams (initializeMs env) st with
          | (st, inl p) => (st, inl (sessionId, p))
          | (st, inr m) =>
              let '(st, r) := newSessionFinish sessionId (Rejected m) st in (st, inr r)
          end
      end
  end.

Definition render_status (s : SessionStatus) : jsstring :=
  match s with
  | initializing => lit "initializing"
  | ready => lit "ready"
  | error => lit "error"
  | exited => lit "exited"
  end.

(** [prompt] up to the [await]: the pending call, or the failure it
    returns at once. *)
Definition promptStart (sessionId promptText : jsstring) (env : Environment)
    (st : AcpService) : AcpService * (N + jsstring) :=
  match sessions st !! sessionId with
  | None => (st, inr (lit "Session not found"))
  | Some session =>
      match status session with
      | ready =>
          rpcCall sessionId (lit "prompt") (JObj [(lit "prompt", JStr promptText)])
            (promptMs env) st
      | s => (st, inr (lit "Session not ready (status: " ++ render_status s ++ lit ")"))
      end
  end.

End Service.

(** ** Vocabulary of the statements *)

(** The complete lines of a text, and what follows its last newline. *)
Definition completeLines (text : jsstring) : list jsstring := removelast (split_nl text).

Definition remainder (text : jsstring) : jsstring := List.last (split_nl text) [].

(** Apply a state change to the state a handler ended in. *)
Definition lift (f : AcpService -> AcpService) (c : completion) : completion :=
  match c with
  | Normal st => Normal (f st)
  | Thrown st e => Thrown (f st) e
  end.

(** The call [dispose] makes to the child process. *)
Definition killCalls (sid : jsstring) (session : AcpSession) : list call :=
  if negb (killed (process session)) && running (process session) then [Kill sid]
  else [].

(** What [dispose]'s loop does for one entry of [pendingRequests]. *)
Definition disposeCalls (sessionId : jsstring) (entry : jsstring * PendingCall)
    : list call :=
  if startsWith (fst entry) sessionId then
    [ClearTimeout (timeout (snd entry));
     Reject (promise (snd entry)) (lit "Session disposed")]
  else [].

(** A chunk of single-byte characters: the length of its text is its
    length in bytes. *)
Definition singleByte (chunk : Utf8.buffer) : bool :=
  forallb (fun b => Byte.to_N b <? 128) chunk.

(** A [protocolVersion] as an agent states it: none, a string, or an
    integer other than 0. *)
Definition stated (v : value) : Prop :=
  match v with
  | None => True
  | Some (JStr _) => True
  | Some (JNum n) => n <> 0%Z
  | Some _ => False
  end.

(** The number a string of decimal digits denotes. *)
Definition digitsValue (s : jsstring) : N :=
  fold_left (fun a c => 10 * a + (c - 48)) s 0.

(** Every registered session has the stdin pipe [spawn] gave it. *)
Definition piped (st : AcpService) : Prop :=
  forall sid session, sessions st !! sid = Some session -> stdin (process session) = true.

(** ** The events of a service

    What can happen to a service, one event at a time: the calls of its
    public methods (each [await] splits a method in two), and the callbacks
    of the child process, of the timers and of the stdin writes. *)

Inductive event :=
| ErrorListenerAdded
| NewSessionCalled (args : AcpNewSessionArgs) (env : Environment)
| InitializeSettled (sessionId : jsstring) (r : settled)
| PromptCalled (sessionId promptText : jsstring) (env : Environment)
| CancelCalled (sessionId : jsstring) (writeError : option jsstring)
| DisposeCalled (sessionId : jsstring)
| StdoutData (sessionId : jsstring) (chunk : Utf8.buffer)
| StderrData (sessionId : jsstring) (chunk : Utf8.buffer)
| ProcessExited (sessionId : jsstring) (code : option Z) (signal : option jsstring)
| ProcessFailed (sessionId message : jsstring) (alive : bool)
| TimerFired (h : N)
| WriteFailed (reqKey : jsstring) (p : N) (message : jsstring).

Definition step `{rt : Runtime} (e : event) (st : AcpService) : AcpService :=
  match e with
  | ErrorListenerAdded => onError st
  | NewSessionCalled args env => fst (newSessionStart args env st)
  | InitializeSettled sessionId r => fst (newSessionFinish sessionId r st)
  | PromptCalled sessionId promptText env => fst (promptStart sessionId promptText env st)
  | CancelCalled sessionId writeError => fst (cancel sessionId writeError st)
  | DisposeCalled sessionId => dispose sessionId st
  | StdoutData sessionId chunk => state_of (onStdoutData sessionId chunk st)
  | StderrData sessionId chunk => onStderrData sessionId chunk st
  | ProcessExited sessionId code signal => onExit sessionId code signal st
  | ProcessFailed sessionId message alive =>
      state_of (onProcessError sessionId message alive st)
  | TimerFired h => onTimeout h st
  | WriteFailed reqKey p message => onWriteError reqKey p message st
  end.

Definition run `{rt : Runtime} (events : list event) (st : AcpService) : AcpService :=
  fold_left (fun st e => step e st) events st.

(** From [st] to [st'] the counter did not go back, and every key and
    every timer of [st'] was already in [st] or was made from a call id
    allocated in between. *)
Definition evolves (st st' : AcpService) : Prop :=
  requestIdCounter st <= requestIdCounter st'
  /\ (forall k, In k (List.map fst (pendingRequests st')) ->
        In k (List.map fst (pendingRequests st))
        \/ exists s n, k = s ++ lit ":" ++ dec n
                       /\ requestIdCounter st < n <= requestIdCounter st')
  /\ (forall t, In t (timers st') ->
        In t (timers st) \/ requestIdCounter st < handle t <= requestIdCounter st').

(** Every armed timer belongs to a call already allocated. *)
Definition allocated (st : AcpService) : Prop :=
  Forall (fun t => handle t <= requestIdCounter st) (timers st).

(** ** Chunks and characters *)

(** The state [Utf8.decode] is in after the bytes [bs]. *)
Fixpoint decoderAfter (st : Utf8.dstate) (bs : list N) : Utf8.dstate :=
  match bs with
  | [] => st
  | b :: rest =>
      match Utf8.needed st with
      | O => decoderAfter (snd (Utf8.lead b)) rest
      | S n =>
          if (Utf8.lo st <=? b) && (b <=? Utf8.hi st) then
            match n with
            | O => decoderAfter Utf8.idle rest
            | S _ =>
                decoderAfter
                  (Utf8.mkD n (N.lor (N.shiftl (Utf8.acc st) 6) (N.land b 63)) 128 191) rest
            end
          else decoderAfter (snd (Utf8.lead b)) rest
      end
  end.

(** A chunk that does not end inside a multi-byte sequence. *)
Definition endsOnCharacter (chunk : Utf8.buffer) : Prop :=
  Utf8.needed (decoderAfter Utf8.idle (List.map Byte.to_N chunk)) = 0%nat.

(** White space only. *)
Definition blank (s : jsstring) : Prop := Forall (fun c => is_space c = true) s.

(** ** What a reachable service keeps *)

(** [getSession] *)
Definition getSession (sessionId : jsstring) (st : AcpService) : option AcpSession :=
  sessions st !! sessionId.

(** From [st] to [st'] nothing was registered: the registry, the log
    writers, the counter and the listeners are the same, and every pending
    call and every timer of [st'] was already there in [st]. *)
Definition shrinks (st st' : AcpService) : Prop :=
  sessions st' = sessions st
  /\ logWriters st' = logWriters st
  /\ requestIdCounter st' = requestIdCounter st
  /\ errorListeners st' = errorListeners st
  /\ incl (pendingRequests st') (pendingRequests st)
  /\ incl (timers st') (timers st).

(** The promises a call settles, and those a trace settles, in order. *)
Definition settles (c : call) : list N :=
  match c with
  | Resolve p _ => [p]
  | Reject p _ => [p]
  | _ => []
  end.

Definition settlements (tr : list call) : list N := flat_map settles tr.

(** Nothing is left behind: a log writer is open and a call is pending
    only for a registered session; a registered session is filed under its
    own id, is not ['exited'] and its process was not signalled by
    [dispose]; and the entry of a call is keyed by its session and its
    id. *)
Definition tidy (st : AcpService) : Prop :=
  (forall sid, sid ∈ logWriters st -> is_Some (sessions st !! sid))
  /\ (forall sid s, sessions st !! sid = Some s ->
        id s = sid /\ status s <> exited /\ killed (process s) = false)
  /\ (forall k e, In (k, e) (pendingRequests st) ->
        (exists sid, k = sid ++ lit ":" ++ dec (promise e)
                     /\ is_Some (sessions st !! sid))
        /\ timeout e = promise e
        /\ promise e <= requestIdCounter st).

(** A history in which no write to a stdin pipe reports an error. *)
Definition writesSucceed (events : list event) : Prop :=
  Forall (fun e => match e with WriteFailed _ _ _ => False | _ => True end) events.

(** Every call is accounted for: no promise was settled twice, a pending
    call was not settled yet and has its timer armed, and an armed timer
    belongs to a pending call. *)
Definition accounted (st : AcpService) : Prop :=
  NoDup (settlements (trace st))
  /\ NoDup (List.map (fun e => promise (snd e)) (pendingRequests st))
  /\ NoDup (List.map handle (timers st))
  /\ (forall q, In q (settlements (trace st)) -> q <= requestIdCounter st)
  /\ (forall k e, In (k, e) (pendingRequests st) ->
        promise e <= requestIdCounter st
        /\ timeout e = promise e
        /\ (exists sid, k = sid ++ lit ":" ++ dec (promise e))
        /\ ~ In (promise e) (settlements (trace st))
        /\ exists t, In t (timers st) /\ handle t = promise e /\ timerKey t = k)
  /\ (forall t, In t (timers st) ->
        timerPromise t = handle t
        /\ In (timerKey t, mkPending (handle t) (handle t)) (pendingRequests st)).

(** What [prompt] resolves to, [{ success, result?, error? }]. *)
Inductive promptResult :=
| Answered (result : value)
| NotAnswered (error : jsstring).

(** [prompt] after the [await] of its call, given how that promise was
    settled. *)
Definition promptFinish (r : settled) : promptResult :=
  match r with
  | Fulfilled result => Answered result
  | Rejected m => NotAnswered m
  end.

(** The events a trace delivers to the subscribers of ['notification'], in
    order. *)
Definition notifications (tr : list call) : list (jsstring * payload) :=
  flat_map (fun c => match c with
                     | EmitNotification sessionId p => [(sessionId, p)]
                     | _ => []
                     end) tr.

(** A line of the agent that carries a notification: it is not blank, not
    above the ceiling, and parses to an object whose [method] member is a
    string and that has neither an [id] nor an [error] member. *)
Definition notificationLine `{rt : Runtime} (line : jsstring) (msg : json) : Prop :=
  trim line <> []
  /\ len (trim line) <= MAX_LINE
  /\ JSON_parse (trim line) = Some msg
  /\ exists fields,
       msg = JObj fields
       /\ (exists method, assoc (lit "method") fields = Some (JStr method))
       /\ has "id" fields = false
       /\ has "error" fields = false.

(** The stdout handler of every registered session has its buffer, and no
    buffer holds a newline. *)
Definition framed (st : AcpService) : Prop :=
  (forall sid, is_Some (sessions st !! sid) -> is_Some (buffers st !! sid))
  /\ (forall sid b, buffers st !! sid = Some b -> ~ In 10 b).

(** The stderr handler run on one chunk after another. *)
Definition feedStderr (sessionId : jsstring) (chunks : list Utf8.buffer)
    (st : AcpService) : AcpService :=
  fold_left (fun st chunk => onStderrData sessionId chunk st) chunks st.

(** ** A reference runtime for closed examples

    [JSON.parse] and [JSON.stringify] on the fragment of JSON without
    escape sequences, fractions and exponents. The properties below hold
    for every [Runtime]; this one instantiates them. *)

Module Reference.

Fixpoint skip (s : jsstring) : jsstring :=
  match s with
  | c :: r => if (c =? 32) || (c =? 9) || (c =? 10) || (c =? 13) then skip r else s
  | [] => []
  end.

Fixpoint chars (s acc : jsstring) : option (jsstring * jsstring) :=
  match s with
  | [] => None
  | c :: r =>
      if c =? 34 then Some (rev acc, r)
      else if (c =? 92) || (c <? 32) then None
      else chars r (c :: acc)
  end.

Fixpoint natural (s : jsstring) (acc : N) : N * jsstring :=
  match s with
  | c :: r => if (48 <=? c) && (c <=? 57) then natural r (10 * acc + (c - 48)) else (acc, s)
  | [] => (acc, [])
  end.

Definition number (s : jsstring) : option (Z * jsstring) :=
  let '(neg, s) := match s with 45 :: r => (true, r) | _ => (false, s) end in
  match s with
  | 48 :: r =>
      match r with
      | c :: _ => if ((48 <=? c) && (c <=? 57)) || (c =? 46) || (c =? 101) || (c =? 69)
                  then None else Some (0%Z, r)
      | [] => Some (0%Z, r)
      end
  | c :: _ =>
      if (49 <=? c) && (c <=? 57) then
        let '(n, r) := natural s 0 in
        match r with
        | d :: _ => if (d =? 46) || (d =? 101) || (d =? 69) then None
                    else Some (if neg : bool then (- Z.of_N n)%Z else Z.of_N n, r)
        | [] => Some (if neg : bool then (- Z.of_N n)%Z else Z.of_N n, r)
        end
      else None
  | [] => None
  end.

Definition put (k : jsstring) (v : json) (fields : list (jsstring * json))
    : list (jsstring * json) :=
  List.filter (fun e => negb (JsString.eqb (fst e) k)) fields ++ [(k, v)].

Fixpoint parseValue (fuel : nat) (s : jsstring) : option (json * jsstring) :=
  match fuel with
  | O => None
  | S fuel =>
      match skip s with
      | 110 :: 117 :: 108 :: 108 :: r => Some (JNull, r)
      | 116 :: 114 :: 117 :: 101 :: r => Some (JBool true, r)
      | 102 :: 97 :: 108 :: 115 :: 101 :: r => Some (JBool false, r)
      | 34 :: r =>
          match chars r [] with
          | Some (str, r) => Some (JStr str, r)
          | None => None
          end
      | 91 :: r =>
          match skip r with
          | 93 :: r' => Some (JArr [], r')
          | _ => parseItems fuel r []
          end
      | 123 :: r =>
          match skip r with
          | 125 :: r' => Some (JObj [], r')
          | _ => parseMembers fuel r []
          end
      | s' =>
          match number s' with
          | Some (n, r) => Some (JNum n, r)
          | None => None
          end
      end
  end
with parseItems (fuel : nat) (s : jsstring) (acc : list json) : option (json * jsstring) :=
  match fuel with
  | O => None
  | S fuel =>
      match parseValue fuel s with
      | Some (v, r) =>
          match skip r with
          | 44 :: r' => parseItems fuel r' (v :: acc)
          | 93 :: r' => Some (JArr (rev (v :: acc)), r')
          | _ => None
          end
      | None => None
      end
  end
with parseMembers (fuel : nat) (s : jsstring) (acc : list (jsstring * json))
    : option (json * jsstring) :=
  match fuel with
  | O => None
  | S fuel =>
      match skip s with
      | 34 :: r =>
          match chars r [] with
          | Some (k, r) =>
              match skip r with
              | 58 :: r =>
                  match parseValue fuel r with
                  | Some (v, r) =>
                      match skip r with
                      | 44 :: r' => parseMembers fuel r' (put k v acc)
                      | 125 :: r' => Some (JObj (put k v acc), r')
                      | _ => None
                      end
                  | None => None
                  end
              | _ => None
              end
          | None => None
          end
      | _ => None
      end
  end.

Definition parse (s : jsstring) : option json :=
  match parseValue (2 * length s + 2) s with
  | Some (v, r) => match skip r with [] => Some v | _ => None end
  | None => None
  end.

Definition quote (s : jsstring) : jsstring := [34] ++ s ++ [34].

Fixpoint stringify (v : json) : jsstring :=
  match v with
  | JNull => lit "null"
  | JBool true => lit "true"
  | JBool false => lit "false"
  | JNum n => dec_Z n
  | JStr s => quote s
  | JArr items => [91] ++ join [44] (List.map stringify items) ++ [93]
  | JObj fields =>
      [123] ++ join [44] (List.map (fun kv => quote (fst kv) ++ [58] ++ stringify (snd kv))
                            fields) ++ [125]
  end.

Definition runtime : Runtime :=
  {| JSON_parse := parse; JSON_stringify := stringify |}.

End Reference.

(** ** A concrete service for closed examples *)

Module Demo.

Definition env : Environment :=
  mkEnv 1700000000000 None false 15000 600000 (lit "0.1.0") None None.

Definition args : AcpNewSessionArgs :=
  mkArgs (lit "gemini") (lit "app") (lit "/tmp") None None.

(** ["gemini-app-1700000000000"] *)
Definition sid : jsstring := sessionIdOf args env.

(** The service once the IPC layer has subscribed to ['error'] and
    [newSession] has spawned the agent and sent [initialize]. *)
Definition started : AcpService :=
  fst (newSessionStart (rt := Reference.runtime) args env (onError newService)).

(** The same without any ['error'] listener, as a bare [new AcpService()]. *)
Definition startedUnobserved : AcpService :=
  fst (newSessionStart (rt := Reference.runtime) args env newService).

(** The session is Ready: the agent answered [initialize] with version 1. *)
Definition initialized : AcpService :=
  fst (newSessionFinish sid
         (Fulfilled (Some (JObj [(lit "protocolVersion", JStr (lit "1"));
                                 (lit "capabilities", JObj [])])))
         (state_of (onStdoutData (rt := Reference.runtime) sid
            (Utf8.of_ascii
               (qlit "{'jsonrpc':'2.0','id':1,'result':{'protocolVersion':'1','capabilities':{}}}"
                ++ [10]))
            started))).

(** The agent answers [initialize] without any [protocolVersion], with a
    version that is no number, with version 0 and with version 1. *)
Definition versionless : json := JObj [(lit "capabilities", JObj [])].

Definition versionText : json :=
  JObj [(lit "protocolVersion", JStr (lit "latest")); (lit "capabilities", JObj [])].

Definition versionZero : json :=
  JObj [(lit "protocolVersion", JStr (lit "0")); (lit "capabilities", JObj [])].

Definition versionOne : json :=
  JObj [(lit "protocolVersion", JStr (lit "1")); (lit "capabilities", JObj [])].

Definition answeredVersionless : AcpService :=
  state_of (onStdoutData (rt := Reference.runtime) sid
              (Utf8.of_ascii (qlit "{'jsonrpc':'2.0','id':1,'result':{'capabilities':{}}}"
                              ++ [10]))
              started).

(** A prompt is pending on the Ready session (call 2). *)
Definition prompted : AcpService :=
  fst (promptStart (rt := Reference.runtime) sid (lit "hello") env initialized).

(** A second session whose workspace id makes the first session's id a
    prefix of its own, ["gemini-app-1700000000000-1700000000001"], Ready
    (call 3 was its [initialize]) and with a prompt pending (call 4). *)
Definition env2 : Environment :=
  mkEnv 1700000000001 None false 15000 600000 (lit "0.1.0") None None.

Definition args2 : AcpNewSessionArgs :=
  mkArgs (lit "gemini") (lit "app-1700000000000") (lit "/tmp") None None.

Definition sid2 : jsstring := sessionIdOf args2 env2.

Definition twoSessions : AcpService :=
  let st := fst (newSessionStart (rt := Reference.runtime) args2 env2 prompted) in
  let st := state_of (onStdoutData (rt := Reference.runtime) sid2
              (Utf8.of_ascii
                 (qlit "{'jsonrpc':'2.0','id':3,'result':{'protocolVersion':'1','capabilities':{}}}"
                  ++ [10])) st) in
  let st := fst (newSessionFinish sid2
              (Fulfilled (Some (JObj [(lit "protocolVersion", JStr (lit "1"));
                                      (lit "capabilities", JObj [])]))) st) in
  fst (promptStart (rt := Reference.runtime) sid2 (lit "hello") env2 st).

(** A notification that carries an [error] member, and a request sent by
    the agent (a [method] together with an [id]). *)
Definition failedNotice : json :=
  JObj [(lit "jsonrpc", JStr (lit "2.0")); (lit "method", JStr (lit "session/failed"));
        (lit "error", JObj [(lit "code", JNum 1); (lit "message", JStr (lit "boom"))])].

Definition agentRequest : json :=
  JObj [(lit "jsonrpc", JStr (lit "2.0")); (lit "id", JNum 7);
        (lit "method", JStr (lit "fs/read_text_file"));
        (lit "params", JObj [(lit "path", JStr (lit "/tmp/a.txt"))])].

(** A notification, and a chunk holding a line that is not JSON followed
    by that notification. *)
Definition progressLine : jsstring := qlit "{'jsonrpc':'2.0','method':'progress'}".

Definition progress : json :=
  JObj [(lit "jsonrpc", JStr (lit "2.0")); (lit "method", JStr (lit "progress"))].


(** The notification whose method is [name], and the bytes of the line
    that carries the notification named "é", whole and cut between the two
    bytes of that character. *)
Definition named (name : jsstring) : json :=
  JObj [(lit "jsonrpc", JStr (lit "2.0")); (lit "method", JStr name)].

Definition accentedHead : Utf8.buffer :=
  Utf8.of_ascii (qlit "{'jsonrpc':'2.0','method':'") ++ [xc3].

Definition accentedTail : Utf8.buffer :=
  [xa9] ++ Utf8.of_ascii (qlit "'}" ++ [10]).

Definition accented : Utf8.buffer :=
  Utf8.of_ascii (qlit "{'jsonrpc':'2.0','method':'") ++ [xc3; xa9]
  ++ Utf8.of_ascii (qlit "'}" ++ [10]).

(** A line of 65537 characters, cut into two chunks. *)
Definition bigLine : jsstring := repeat 120 (N.to_nat 65537).

(** The notification line followed by 65536 spaces. *)
Definition paddedLine : jsstring := progressLine ++ repeat 32 (N.to_nat 65536).

Definition bigChunks : list Utf8.buffer :=
  [Utf8.of_ascii (repeat 120 (N.to_nat 40000));
   Utf8.of_ascii (repeat 120 (N.to_nat 25537) ++ [10])].

(** The events that lead to [initialized], and events that follow a
    timeout: the late answer to call 2, then a [cancel]. *)
Definition history : list event :=
  [ErrorListenerAdded;
   NewSessionCalled args env;
   StdoutData sid
     (Utf8.of_ascii
        (qlit "{'jsonrpc':'2.0','id':1,'result':{'protocolVersion':'1','capabilities':{}}}"
         ++ [10]));
   InitializeSettled sid
     (Fulfilled (Some (JObj [(lit "protocolVersion", JStr (lit "1"));
                             (lit "capabilities", JObj [])])))].

Definition later : list event :=
  [StdoutData sid
     (Utf8.of_ascii (qlit "{'jsonrpc':'2.0','id':2,'result':{'status':'completed'}}" ++ [10]));
   CancelCalled sid None].

End Demo.

(** * Properties *)

(** ** The runtime functions on examples *)

Example dec_1700 : dec 1700000000000 = lit "1700000000000". Proof. reflexivity. Qed.
Example trim_ex : trim (lit "  {} ") = lit "{}". Proof. reflexivity. Qed.
Example split_ex : split_nl [97; 10; 98; 10] = [[97]; [98]; []]. Proof. reflexivity. Qed.
Example utf8_ex : Utf8.toString [xc3; xa9; xe2; x82; xac; xf0; x9f; x98; x80] = [233; 8364; 55357; 56832].
Proof. reflexivity. Qed.
Example parseInt_ex : parseInt (Some (JStr (lit " -0x1fz"))) = Some (-31)%Z. Proof. reflexivity. Qed.
Example parseInt_ex2 : parseInt (Some (JStr (lit "v1"))) = None. Proof. reflexivity. Qed.
Example parseInt_ex3 : parseInt (Some (JNum 0)) = Some 0%Z. Proof. reflexivity. Qed.
Example toString_ex : toString (Some (JArr [JNum (-12); JNull; JStr (lit "a")])) = lit "-12,,a". Proof. reflexivity. Qed.
Example in_ex : js_in (lit "id") (JObj [(lit "id", JNum 1)]) = Some true. Proof. reflexivity. Qed.

Example ref_parse_ex :
  Reference.parse (qlit "{'jsonrpc':'2.0','id':2,'result':{}}")
  = Some (JObj [(lit "jsonrpc", JStr (lit "2.0")); (lit "id", JNum 2); (lit "result", JObj [])]).
Proof. reflexivity. Qed.
Example ref_parse_bad : Reference.parse (qlit "{'jsonrpc':'2.0',") = None.
Proof. reflexivity. Qed.
Example ref_parse_nested :
  Reference.parse (qlit " [1, [true, null], {'a': -3}] ")
  = Some (JArr [JNum 1; JArr [JBool true; JNull]; JObj [(lit "a", JNum (-3))]]).
Proof. reflexivity. Qed.
Example ref_stringify_ex :
  Reference.stringify (notification (lit "cancel") (JObj []))
  = qlit "{'jsonrpc':'2.0','method':'cancel','params':{}}".
Proof. reflexivity. Qed.

(** ** Framing *)

Section Framing.

Lemma split_nl_nonempty (s : jsstring) : split_nl s <> [].
Proof.
  destruct s as [|c s]; simpl; [discriminate|].
  destruct (c =? 10); [discriminate|].
  destruct (split_nl s); discriminate.
Qed.

Lemma split_nl_app (a b : jsstring) :
  split_nl (a ++ b) = completeLines a ++ split_nl (remainder a ++ b).
Proof.
  unfold completeLines, remainder.
  induction a as [|c a IH]; simpl; [reflexivity|].
  destruct (c =? 10) eqn:Hc.
  - pose proof (split_nl_nonempty a) as Hne.
    destruct (split_nl a) as [|x xs] eqn:Ha; [congruence|].
    rewrite IH. reflexivity.
  - rewrite IH.
    destruct (split_nl a) as [|x [|y ys]] eqn:Ha.
    + exfalso. eapply split_nl_nonempty; eauto.
    + simpl. rewrite Hc. reflexivity.
    + reflexivity.
Qed.

Lemma split_nl_no_newline (s : jsstring) : ~ In 10 s -> split_nl s = [s].
Proof.
  induction s as [|c s IH]; simpl; intros Hn; [reflexivity|].
  destruct (N.eqb_spec c 10) as [->|Hc]; [tauto|].
  rewrite IH by tauto. reflexivity.
Qed.

Lemma remainder_no_newline (s : jsstring) : ~ In 10 (remainder s).
Proof.
  unfold remainder.
  induction s as [|c s IH]; simpl; [tauto|].
  destruct (N.eqb_spec c 10) as [->|Hc].
  - pose proof (split_nl_nonempty s). destruct (split_nl s); [congruence|exact IH].
  - destruct (split_nl s) as [|x [|y ys]]; simpl in *; [tauto| |exact IH].
    intros [H|H]; [congruence|tauto].
Qed.

Lemma split_nl_lines_remainder (s : jsstring) :
  split_nl s = completeLines s ++ [remainder s].
Proof.
  unfold completeLines, remainder.
  apply app_removelast_last, split_nl_nonempty.
Qed.

Lemma completeLines_app (a b : jsstring) :
  completeLines (a ++ b) = completeLines a ++ completeLines (remainder a ++ b).
Proof.
  unfold completeLines at 1. rewrite split_nl_app.
  rewrite removelast_app by apply split_nl_nonempty. reflexivity.
Qed.

Lemma remainder_app (a b : jsstring) :
  remainder (a ++ b) = remainder (remainder a ++ b).
Proof.
  unfold remainder at 1. rewrite split_nl_app.
  rewrite (split_nl_lines_remainder (remainder a ++ b)).
  rewrite app_assoc, last_last. reflexivity.
Qed.

Lemma concat_split_nl (s : jsstring) :
  List.concat (split_nl s) = List.filter (fun c => negb (c =? 10)) s.
Proof.
  induction s as [|c s IH]; simpl; [reflexivity|].
  destruct (c =? 10); simpl; [exact IH|].
  rewrite <- IH. destruct (split_nl s); reflexivity.
Qed.

Lemma frame_eq (buffer : jsstring) (chunk : Utf8.buffer) :
  frame buffer chunk
  = (completeLines (buffer ++ Utf8.toString chunk), remainder (buffer ++ Utf8.toString chunk)).
Proof. reflexivity. Qed.

Lemma feed_text (chunks : list Utf8.buffer) (buffer : jsstring) :
  ~ In 10 buffer ->
  feed buffer chunks
  = (completeLines (buffer ++ List.concat (List.map Utf8.toString chunks)),
     remainder (buffer ++ List.concat (List.map Utf8.toString chunks))).
Proof.
  revert buffer. induction chunks as [|c chunks IH]; intros buffer Hb;
    cbn [feed List.map List.concat].
  - rewrite app_nil_r. unfold completeLines, remainder.
    rewrite split_nl_no_newline by exact Hb. reflexivity.
  - rewrite frame_eq, IH by apply remainder_no_newline.
    rewrite app_assoc.
    rewrite (completeLines_app (buffer ++ Utf8.toString c)).
    rewrite (remainder_app (buffer ++ Utf8.toString c)). reflexivity.
Qed.

End Framing.

(** ** The stdout loop *)

Section StdoutLoop.

Context `{rt : Runtime}.

Lemma set_buffer_set_buffer (sid b1 b2 : jsstring) (st : AcpService) :
  set_buffer sid b2 (set_buffer sid b1 st) = set_buffer sid b2 st.
Proof.
  destruct st; unfold set_buffer; simpl. f_equal. apply insert_insert_eq.
Qed.

Lemma set_buffer_id (sid b : jsstring) (st : AcpService) :
  buffers st !! sid = Some b -> set_buffer sid b st = st.
Proof.
  destruct st; unfold set_buffer; simpl. intros Hb. f_equal. by apply insert_id.
Qed.

Lemma handleMessage_set_buffer (sid s b : jsstring) (msg : json) (st : AcpService) :
  handleMessage sid msg (set_buffer s b st)
  = lift (set_buffer s b) (handleMessage sid msg st).
Proof.
  unfold handleMessage.
  destruct (responseTest msg) as [[|]|]; [| |reflexivity].
  - change (pendingRequests (set_buffer s b st)) with (pendingRequests st).
    destruct (PendingMap.get _ _); [|reflexivity].
    destruct (truthy _); reflexivity.
  - destruct (notificationTest msg) as [[|]|]; [|reflexivity|reflexivity].
    unfold writeLog.
    change (logWriters (set_buffer s b st)) with (logWriters st).
    destruct (decide _); reflexivity.
Qed.

Lemma processLines_set_buffer (sid s b : jsstring) (lines : list jsstring)
    (st : AcpService) :
  processLines sid lines (set_buffer s b st)
  = lift (set_buffer s b) (processLines sid lines st).
Proof.
  revert st. induction lines as [|line rest IH]; intros st; [reflexivity|].
  cbn [processLines].
  destruct (trim line) as [|c t] eqn:Ht; [apply IH|].
  destruct (MAX_LINE <? len (c :: t)).
  - rewrite <- IH. reflexivity.
  - unfold parseAndHandle.
    change (does (JsonParse (c :: t)) (set_buffer s b st))
      with (set_buffer s b (does (JsonParse (c :: t)) st)).
    assert (Hcatch : forall st0,
      match emitError sid (lit "Invalid JSON from agent")
              (does (LogError (invalidJsonError sid (c :: t))) (set_buffer s b st0)) with
      | Normal st1 => processLines sid rest st1
      | Thrown st1 e => Thrown st1 e
      end
      = lift (set_buffer s b)
          match emitError sid (lit "Invalid JSON from agent")
                  (does (LogError (invalidJsonError sid (c :: t))) st0) with
          | Normal st1 => processLines sid rest st1
          | Thrown st1 e => Thrown st1 e
          end).
    { intros st0. unfold emitError.
      change (errorListeners (does _ (set_buffer s b st0)))
        with (errorListeners (does (LogError (invalidJsonError sid (c :: t))) st0)).
      destruct (errorListeners _); [reflexivity|]. rewrite <- IH. reflexivity. }
    destruct (JSON_parse (c :: t)) as [msg|].
    + rewrite handleMessage_set_buffer.
      destruct (handleMessage sid msg _) as [st1|st1 e]; cbn [lift].
      * apply IH.
      * apply Hcatch.
    + apply Hcatch.
Qed.

Lemma processLines_app (sid : jsstring) (l1 l2 : list jsstring) (st : AcpService) :
  processLines sid (l1 ++ l2) st
  = match processLines sid l1 st with
    | Normal st' => processLines sid l2 st'
    | Thrown st' e => Thrown st' e
    end.
Proof.
  revert st. induction l1 as [|line rest IH]; intros st; [reflexivity|].
  cbn [processLines app].
  destruct (trim line) as [|c t]; [apply IH|].
  destruct (MAX_LINE <? len (c :: t)); [apply IH|].
  destruct (parseAndHandle sid (c :: t) st) as [st1|st1 e]; [apply IH|].
  destruct (emitError _ _ _); [apply IH|reflexivity].
Qed.

Lemma onStdoutData_eq (sid b : jsstring) (c : Utf8.buffer) (st : AcpService) :
  buffers st !! sid = Some b ->
  onStdoutData sid c st
  = processLines sid (completeLines (b ++ Utf8.toString c))
      (set_buffer sid (remainder (b ++ Utf8.toString c)) st).
Proof. intros Hb. unfold onStdoutData. rewrite Hb. reflexivity. Qed.

Lemma feedStdout_cons (sid : jsstring) (c : Utf8.buffer) (chunks : list Utf8.buffer)
    (st : AcpService) :
  feedStdout sid (c :: chunks) st = feedStdout sid chunks (state_of (onStdoutData sid c st)).
Proof. reflexivity. Qed.

Lemma feedStdout_lines (sid : jsstring) (chunks : list Utf8.buffer)
    (st st' : AcpService) (b : jsstring) :
  buffers st !! sid = Some b ->
  ~ In 10 b ->
  processLines sid
    (completeLines (b ++ List.concat (List.map Utf8.toString chunks))) st = Normal st' ->
  feedStdout sid chunks st
  = set_buffer sid (remainder (b ++ List.concat (List.map Utf8.toString chunks))) st'.
Proof.
  revert st st' b. induction chunks as [|c chunks IH]; intros st st' b Hb Hnl Hrun.
  - cbn [List.map List.concat] in *. rewrite app_nil_r in *.
    unfold completeLines, remainder in *.
    rewrite split_nl_no_newline in * by exact Hnl. simpl in Hrun.
    injection Hrun as <-. simpl. symmetry. by apply set_buffer_id.
  - cbn [List.map List.concat] in Hrun |- *.
    rewrite app_assoc in Hrun |- *.
    rewrite completeLines_app, processLines_app in Hrun.
    rewrite remainder_app.
    destruct (processLines sid (completeLines (b ++ Utf8.toString c)) st)
      as [st1|st1 e] eqn:H1; [|discriminate].
    rewrite feedStdout_cons, (onStdoutData_eq _ _ _ _ Hb).
    rewrite processLines_set_buffer, H1. cbn [lift state_of].
    rewrite (IH _ (set_buffer sid (remainder (b ++ Utf8.toString c)) st')
                (remainder (b ++ Utf8.toString c))).
    + apply set_buffer_set_buffer.
    + unfold set_buffer; simpl. apply lookup_insert_eq.
    + apply remainder_no_newline.
    + rewrite processLines_set_buffer, Hrun. reflexivity.
Qed.

End StdoutLoop.

(** ** What reaches [JSON.parse] *)

Section Parsed.

Context `{rt : Runtime}.

Lemma trace_does (c : call) (st : AcpService) : trace (does c st) = trace st ++ [c].
Proof. reflexivity. Qed.

Lemma handleMessage_parse (sid : jsstring) (msg : json) (st : AcpService) (l : jsstring) :
  In (JsonParse l) (trace (state_of (handleMessage sid msg st))) ->
  In (JsonParse l) (trace st).
Proof.
  unfold handleMessage.
  destruct (responseTest msg) as [[|]|]; [| |exact (fun H => H)].
  - destruct (PendingMap.get _ _); [|exact (fun H => H)].
    destruct (truthy _); simpl; rewrite !in_app_iff; simpl; intuition discriminate.
  - destruct (notificationTest msg) as [[|]|]; [|exact (fun H => H)|exact (fun H => H)].
    unfold writeLog. destruct (decide _); simpl; rewrite !in_app_iff; simpl;
      intuition discriminate.
Qed.

Lemma processLines_parse (sid : jsstring) (lines : list jsstring) (st : AcpService)
    (l : jsstring) :
  In (JsonParse l) (trace (state_of (processLines sid lines st))) ->
  In (JsonParse l) (trace st) \/ len l <= MAX_LINE.
Proof.
  revert st. induction lines as [|line rest IH]; intros st; [by left|].
  cbn [processLines].
  destruct (trim line) as [|c t]; [apply IH|].
  destruct (N.ltb_spec MAX_LINE (len (c :: t))) as [Hlt|Hle].
  - intros [H|H]%IH; [|by right]. left.
    rewrite trace_does, in_app_iff in H. simpl in H. intuition discriminate.
  - assert (Hp : forall st0, In (JsonParse l) (trace (does (JsonParse (c :: t)) st0)) ->
                             In (JsonParse l) (trace st0) \/ len l <= MAX_LINE).
    { intros st0. rewrite trace_does, in_app_iff. simpl.
      intros [H|[H|[]]]; [by left|]. injection H as <-. by right. }
    assert (Hcatch : forall st0,
      (In (JsonParse l) (trace st0) -> In (JsonParse l) (trace st) \/ len l <= MAX_LINE) ->
      In (JsonParse l)
        (trace (state_of
           match emitError sid (lit "Invalid JSON from agent")
                   (does (LogError (invalidJsonError sid (c :: t))) st0) with
           | Normal st1 => processLines sid rest st1
           | Thrown st1 e => Thrown st1 e
           end)) ->
      In (JsonParse l) (trace st) \/ len l <= MAX_LINE).
    { intros st0 H0. unfold emitError.
      destruct (errorListeners _); cbn [state_of].
      - rewrite trace_does, in_app_iff. simpl. intuition discriminate.
      - intros [H|H]%IH; [|by right].
        rewrite !trace_does, !in_app_iff in H. simpl in H. intuition discriminate. }
    unfold parseAndHandle.
    destruct (JSON_parse (c :: t)) as [msg|].
    + destruct (handleMessage sid msg _) as [st1|st1 e] eqn:Hh.
      * intros [H|H]%IH; [|by right]. apply Hp.
        apply (handleMessage_parse sid msg). by rewrite Hh.
      * apply Hcatch. intros H. apply Hp.
        apply (handleMessage_parse sid msg). by rewrite Hh.
    + apply Hcatch, Hp.
Qed.

Lemma feedStdout_parse (sid : jsstring) (chunks : list Utf8.buffer) (st : AcpService)
    (l : jsstring) :
  In (JsonParse l) (trace (feedStdout sid chunks st)) ->
  In (JsonParse l) (trace st) \/ len l <= MAX_LINE.
Proof.
  revert st. induction chunks as [|c chunks IH]; intros st; [by left|].
  rewrite feedStdout_cons. intros [H|H]%IH; [|by right].
  unfold onStdoutData in H. destruct (frame _ c) as [lines b].
  apply processLines_parse in H as [H|H]; [by left|by right].
Qed.

Lemma processLines_oversized (sid line : jsstring) (rest : list jsstring)
    (st : AcpService) :
  MAX_LINE < len (trim line) ->
  processLines sid (line :: rest) st
  = processLines sid rest (does (LogWarn (oversizedWarning sid (trim line))) st).
Proof.
  intros Hlt. cbn [processLines].
  destruct (trim line) as [|c t] eqn:Ht; [discriminate|].
  apply N.ltb_lt in Hlt. by rewrite Hlt.
Qed.

Lemma split_nl_one_line (line : jsstring) :
  ~ In 10 line -> split_nl (line ++ [10]) = [line; []].
Proof.
  induction line as [|c line IH]; intros Hn; [reflexivity|].
  cbn [app split_nl].
  destruct (N.eqb_spec c 10) as [->|Hc]; [simpl in Hn; tauto|].
  rewrite IH; [reflexivity|]. simpl in Hn. tauto.
Qed.

End Parsed.

(** ** Malformed lines *)

Section Malformed.

Context `{rt : Runtime}.

Lemma emitError_listening (sid m : jsstring) (st : AcpService) :
  (0 < errorListeners st)%nat ->
  emitError sid m st = Normal (does (EmitError sid m) st).
Proof. unfold emitError. destruct (errorListeners st); [lia|reflexivity]. Qed.

Lemma handleMessage_listeners (sid : jsstring) (msg : json) (st : AcpService) :
  errorListeners (state_of (handleMessage sid msg st)) = errorListeners st.
Proof.
  unfold handleMessage.
  destruct (responseTest msg) as [[|]|]; [| |reflexivity].
  - destruct (PendingMap.get _ _); [|reflexivity]. destruct (truthy _); reflexivity.
  - destruct (notificationTest msg) as [[|]|]; [|reflexivity|reflexivity].
    unfold writeLog. destruct (decide _); reflexivity.
Qed.

Lemma handleMessage_object (sid : jsstring) (fields : list (jsstring * json))
    (st : AcpService) :
  exists st', handleMessage sid (JObj fields) st = Normal st'.
Proof.
  unfold handleMessage, responseTest, notificationTest. cbn [js_in mbind option_bind].
  destruct (bool_decide (is_Some (assoc (lit "id") fields)));
    destruct (bool_decide (is_Some (assoc (lit "result") fields)));
    destruct (bool_decide (is_Some (assoc (lit "error") fields)));
    destruct (bool_decide (is_Some (assoc (lit "method") fields)));
    cbn [fmap option_fmap option_map negb];
    try (destruct (PendingMap.get _ _); [destruct (truthy _)|]); eauto.
Qed.

Lemma processLines_cons (sid line : jsstring) (rest : list jsstring) (st : AcpService) :
  processLines sid (line :: rest) st
  = match processLines sid [line] st with
    | Normal st' => processLines sid rest st'
    | Thrown st' e => Thrown st' e
    end.
Proof. apply (processLines_app sid [line] rest). Qed.

Lemma processLines_one_listening (sid line : jsstring) (st : AcpService) :
  (0 < errorListeners st)%nat ->
  exists st', processLines sid [line] st = Normal st'
              /\ errorListeners st' = errorListeners st.
Proof.
  intros Hl. cbn [processLines].
  destruct (trim line) as [|c t]; [eauto|].
  destruct (MAX_LINE <? len (c :: t)); [eauto|].
  assert (Hcatch : forall st0, errorListeners st0 = errorListeners st ->
    exists st',
      match emitError sid (lit "Invalid JSON from agent")
              (does (LogError (invalidJsonError sid (c :: t))) st0) with
      | Normal st1 => Normal st1
      | Thrown st1 e => Thrown st1 e
      end = Normal st' /\ errorListeners st' = errorListeners st).
  { intros st0 H0. rewrite emitError_listening by (simpl; lia). eauto. }
  unfold parseAndHandle. destruct (JSON_parse (c :: t)) as [msg|].
  - pose proof (handleMessage_listeners sid msg (does (JsonParse (c :: t)) st)) as Hh.
    destruct (handleMessage sid msg _) as [st1|st1 e]; simpl in Hh; [eauto|].
    apply Hcatch. exact Hh.
  - apply Hcatch. reflexivity.
Qed.

Lemma processLines_listening (sid : jsstring) (lines : list jsstring) (st : AcpService) :
  (0 < errorListeners st)%nat ->
  processLines sid lines st
  = Normal (fold_left (fun st l => state_of (processLines sid [l] st)) lines st).
Proof.
  revert st. induction lines as [|line rest IH]; intros st Hl; [reflexivity|].
  rewrite processLines_cons. cbn [fold_left].
  destruct (processLines_one_listening sid line st Hl) as (st' & -> & Hl').
  cbn [state_of]. apply IH. lia.
Qed.


Lemma processLines_object (sid line : jsstring) (fields : list (jsstring * json))
    (st : AcpService) :
  trim line <> [] ->
  len (trim line) <= MAX_LINE ->
  JSON_parse (trim line) = Some (JObj fields) ->
  processLines sid [line] st
  = handleMessage sid (JObj fields) (does (JsonParse (trim line)) st).
Proof.
  intros Hne Hle Hp. cbn [processLines].
  destruct (trim line) as [|c t] eqn:Ht; [congruence|].
  apply N.ltb_ge in Hle. rewrite Hle.
  unfold parseAndHandle. rewrite Hp.
  destruct (handleMessage_object sid fields (does (JsonParse (c :: t)) st)) as [st' ->].
  reflexivity.
Qed.


End Malformed.



(** ** Oversized lines on a whole stream *)

Section Oversized.

Context `{rt : Runtime}.

Lemma handleMessage_trace_grows (sid : jsstring) (msg : json) (st : AcpService) (c : call) :
  In c (trace st) -> In c (trace (state_of (handleMessage sid msg st))).
Proof.
  intros Hin. unfold handleMessage.
  destruct (responseTest msg) as [[|]|]; [| |exact Hin].
  - destruct (PendingMap.get _ _); [|exact Hin].
    destruct (truthy _); simpl; rewrite !in_app_iff; auto.
  - destruct (notificationTest msg) as [[|]|]; [|exact Hin|exact Hin].
    unfold writeLog. destruct (decide _); simpl; rewrite !in_app_iff; auto.
Qed.

Lemma processLines_trace_grows (sid : jsstring) (lines : list jsstring) (st : AcpService)
    (c : call) :
  In c (trace st) -> In c (trace (state_of (processLines sid lines st))).
Proof.
  revert st. induction lines as [|line rest IH]; intros st Hin; [exact Hin|].
  cbn [processLines].
  destruct (trim line) as [|ch t]; [by apply IH|].
  destruct (MAX_LINE <? len (ch :: t)).
  { apply IH. rewrite trace_does, in_app_iff. auto. }
  assert (Hparse : In c (trace (state_of (parseAndHandle sid (ch :: t) st)))).
  { unfold parseAndHandle. destruct (JSON_parse (ch :: t)) as [msg|].
    - apply handleMessage_trace_grows. rewrite trace_does, in_app_iff. auto.
    - simpl. rewrite in_app_iff. auto. }
  destruct (parseAndHandle sid (ch :: t) st) as [st1|st1 e]; cbn [state_of] in Hparse.
  - by apply IH.
  - unfold emitError. destruct (errorListeners _); cbn [state_of].
    + rewrite trace_does, in_app_iff. auto.
    + apply IH. rewrite !trace_does, !in_app_iff. auto.
Qed.

Lemma fold_lines_warns (sid line : jsstring) (lines : list jsstring) (st : AcpService) :
  In line lines ->
  MAX_LINE < len (trim line) ->
  In (LogWarn (oversizedWarning sid (trim line)))
    (trace (fold_left (fun st l => state_of (processLines sid [l] st)) lines st)).
Proof.
  intros Hin Hlt. revert st.
  assert (Hkeep : forall ls st0 c, In c (trace st0) ->
            In c (trace (fold_left (fun st l => state_of (processLines sid [l] st)) ls st0))).
  { induction ls as [|l ls IH]; intros st0 c Hc; [exact Hc|].
    cbn [fold_left]. apply IH, processLines_trace_grows, Hc. }
  induction lines as [|l lines IH]; intros st; [destruct Hin|].
  cbn [fold_left]. destruct Hin as [->|Hin]; [|by apply IH].
  apply Hkeep. rewrite processLines_oversized by exact Hlt.
  cbn [processLines state_of]. rewrite trace_does, in_app_iff. simpl. auto.
Qed.

(** What the loop does with the lines of the decoded text: over any
    sequence of chunks, when it comes to a line whose trimmed text is
    longer than [MAX_LINE] it logs the warning and does nothing else; with
    a listener subscribed to ['error'] every such line of the text gets
    its warning, and a text that is one such line ends with exactly that
    warning. *)
Lemma oversized_lines_of_the_text (sid : jsstring) :
  (forall chunks st l,
     In (JsonParse l) (trace (feedStdout sid chunks st)) ->
     In (JsonParse l) (trace st) \/ len l <= MAX_LINE)
  /\ (forall line rest st,
        MAX_LINE < len (trim line) ->
        processLines sid (line :: rest) st
        = processLines sid rest (does (LogWarn (oversizedWarning sid (trim line))) st))
  /\ (forall chunks b line st,
        (0 < errorListeners st)%nat ->
        buffers st !! sid = Some b ->
        10 ∉ b ->
        line ∈ completeLines (b ++ List.concat (List.map Utf8.toString chunks)) ->
        MAX_LINE < len (trim line) ->
        In (LogWarn (oversizedWarning sid (trim line))) (trace (feedStdout sid chunks st)))
  /\ (forall chunks line st,
        List.concat (List.map Utf8.toString chunks) = line ++ [10] ->
        10 ∉ line ->
        MAX_LINE < len (trim line) ->
        buffers st !! sid = Some [] ->
        feedStdout sid chunks st
        = does (LogWarn (oversizedWarning sid (trim line))) st).
Proof.
  split; [|split; [|split]].
  - intros chunks st l. apply feedStdout_parse.
  - intros line rest st. apply processLines_oversized.
  - intros chunks b line st Hl Hb Hn Hin Hlt.
    rewrite list_elem_of_In in Hn. rewrite list_elem_of_In in Hin.
    rewrite (feedStdout_lines sid chunks st _ b Hb Hn (processLines_listening sid _ st Hl)).
    change (trace (set_buffer ?s ?x ?y)) with (trace y).
    apply fold_lines_warns; assumption.
  - intros chunks line st Htext Hn Hlt Hb. rewrite list_elem_of_In in Hn.
    rewrite (feedStdout_lines sid chunks st
               (does (LogWarn (oversizedWarning sid (trim line))) st) [] Hb).
    + cbn [app]. rewrite Htext. unfold remainder.
      rewrite (split_nl_one_line line Hn). cbn [List.last].
      apply set_buffer_id. exact Hb.
    + simpl. tauto.
    + cbn [app]. rewrite Htext. unfold completeLines.
      rewrite (split_nl_one_line line Hn). cbn [removelast].
      rewrite processLines_oversized by exact Hlt. reflexivity.
Qed.

End Oversized.

Lemma oversized_line_counterexample :
  (MAX_LINE < len Demo.bigLine)
  /\ (exists st e,
        onStdoutData (rt := Reference.runtime) Demo.sid
          (Utf8.of_ascii (lit "oops" ++ [10] ++ Demo.bigLine ++ [10]))
          Demo.startedUnobserved = Thrown st e
        /\ Forall (fun c => match c with LogWarn _ => False | _ => True end) (trace st)
        /\ buffers st !! Demo.sid = Some [])
  /\ (MAX_LINE < len Demo.paddedLine)
  /\ onStdoutData (rt := Reference.runtime) Demo.sid
       (Utf8.of_ascii (Demo.paddedLine ++ [10])) Demo.started
     = Normal (does (EmitNotification Demo.sid (Notification Demo.progress))
                 (does (WriterWrite Demo.sid (lit "[notification] progress: undefined"))
                    (does (JsonParse Demo.progressLine) Demo.started))).
Proof.
  split; [vm_compute; reflexivity|]. split.
  - eexists. eexists. split; [vm_compute; reflexivity|].
    split; [|vm_compute; reflexivity].
    vm_compute. repeat constructor.
  - split; [vm_compute; reflexivity|]. vm_compute. reflexivity.
Qed.

(** ** The pending-call map *)

Section PendingMapFacts.

Import PendingMap.

Lemma get_delete_eq (k : jsstring) (m : list (jsstring * PendingCall)) :
  get k (delete k m) = None.
Proof.
  induction m as [|[k' v] m IH]; [reflexivity|]. unfold delete in *. simpl.
  destruct (bool_decide_reflect (k' = k)) as [->|Hne]; simpl; [exact IH|].
  destruct (decide (k' = k)); [contradiction|exact IH].
Qed.

Lemma get_delete_ne (k k' : jsstring) (m : list (jsstring * PendingCall)) :
  k <> k' -> get k' (delete k m) = get k' m.
Proof.
  intros Hne. induction m as [|[k0 v] m IH]; [reflexivity|]. unfold delete in *. simpl.
  destruct (bool_decide_reflect (k0 = k)) as [->|Hne0]; simpl.
  - destruct (decide (k = k')); [contradiction|exact IH].
  - destruct (decide (k0 = k')); [reflexivity|exact IH].
Qed.

Lemma get_set_eq (k : jsstring) (v : PendingCall) (m : list (jsstring * PendingCall)) :
  get k (set k v m) = Some v.
Proof.
  induction m as [|[k0 w] m IH]; simpl.
  - destruct (decide (k = k)); [reflexivity|contradiction].
  - destruct (decide (k0 = k)) as [->|Hne]; simpl.
    + destruct (decide (k = k)); [reflexivity|contradiction].
    + destruct (decide (k0 = k)); [contradiction|exact IH].
Qed.

Lemma get_set_ne (k k' : jsstring) (v : PendingCall) (m : list (jsstring * PendingCall)) :
  k <> k' -> get k' (set k v m) = get k' m.
Proof.
  intros Hne. induction m as [|[k0 w] m IH]; simpl.
  - destruct (decide (k = k')); [contradiction|reflexivity].
  - destruct (decide (k0 = k)) as [->|Hne0]; simpl.
    + destruct (decide (k = k')); [contradiction|reflexivity].
    + destruct (decide (k0 = k')); [reflexivity|exact IH].
Qed.

Lemma get_Some_In (k : jsstring) (v : PendingCall) (m : list (jsstring * PendingCall)) :
  get k m = Some v -> In (k, v) m.
Proof.
  induction m as [|[k0 w] m IH]; simpl; [discriminate|].
  destruct (decide (k0 = k)) as [->|]; [intros [= ->]; by left|right; auto].
Qed.

Lemma In_delete (k : jsstring) (e : jsstring * PendingCall)
    (m : list (jsstring * PendingCall)) :
  In e (delete k m) <-> In e m /\ fst e <> k.
Proof.
  unfold delete. rewrite filter_In.
  destruct (bool_decide_reflect (fst e = k)); simpl; intuition congruence.
Qed.

End PendingMapFacts.

(** ** Timeouts and late responses *)

Section Timeouts.

Context `{rt : Runtime}.

#[local] Opaque lit dec.


Lemma find_fresh_timer (t : Timer) (ts : list Timer) :
  Forall (fun t' => handle t' <> handle t) ts ->
  List.find (fun t' => handle t' =? handle t) (ts ++ [t]) = Some t
  /\ List.filter (fun t' => negb (handle t' =? handle t)) (ts ++ [t]) = ts.
Proof.
  induction 1 as [|t' ts Hne _ [IH1 IH2]]; simpl.
  - rewrite N.eqb_refl. auto.
  - apply N.eqb_neq in Hne. rewrite Hne. simpl. rewrite IH1, IH2. auto.
Qed.

Lemma writeLog_fields (sid m : jsstring) (st : AcpService) :
  sessions (writeLog sid m st) = sessions st
  /\ pendingRequests (writeLog sid m st) = pendingRequests st
  /\ requestIdCounter (writeLog sid m st) = requestIdCounter st
  /\ logWriters (writeLog sid m st) = logWriters st
  /\ buffers (writeLog sid m st) = buffers st
  /\ timers (writeLog sid m st) = timers st
  /\ errorListeners (writeLog sid m st) = errorListeners st.
Proof. unfold writeLog. destruct (decide _); repeat split. Qed.

(** What a successful [rpcCall] leaves behind. *)
Lemma rpcCall_registers (sid method : jsstring) (params : json) (ms p : N)
    (st st1 : AcpService) :
  rpcCall sid method params ms st = (st1, inl p) ->
  p = requestIdCounter st + 1
  /\ requestIdCounter st1 = p
  /\ pendingRequests st1
     = PendingMap.set (sid ++ lit ":" ++ dec p) (mkPending p p) (pendingRequests st)
  /\ timers st1 = timers st ++ [mkTimer p (sid ++ lit ":" ++ dec p) p method ms]
  /\ sessions st1 = sessions st
  /\ errorListeners st1 = errorListeners st.
Proof.
  unfold rpcCall.
  destruct (sessions st !! sid) as [session|]; [|discriminate].
  destruct (negb (stdin (process session))); [discriminate|].
  intros [= <- <-].
  destruct (writeLog_fields sid
              (lit "[request] " ++ method ++ lit ": " ++ JSON_stringify params)
              (does (StdinWrite sid
                       (JSON_stringify (request (requestIdCounter st + 1) method params)
                        ++ [10]))
                 (set_pending
                    (PendingMap.set (sid ++ lit ":" ++ dec (requestIdCounter st + 1))
                       (mkPending (requestIdCounter st + 1) (requestIdCounter st + 1)))
                    (setTimeout
                       (mkTimer (requestIdCounter st + 1)
                          (sid ++ lit ":" ++ dec (requestIdCounter st + 1))
                          (requestIdCounter st + 1) method ms)
                       (set_counter (requestIdCounter st + 1) st)))))
    as (-> & -> & -> & _ & _ & -> & ->).
  repeat split.
Qed.

Lemma onTimeout_fires (h : N) (t : Timer) (st : AcpService) :
  List.find (fun t => handle t =? h) (timers st) = Some t ->
  onTimeout h st
  = does (Reject (timerPromise t)
            (lit "Request " ++ timerMethod t ++ lit " timed out after "
             ++ dec (timerMs t) ++ lit "ms"))
      (set_pending (PendingMap.delete (timerKey t))
         (set_timers (List.filter (fun t => negb (handle t =? h))) st)).
Proof. intros Hf. unfold onTimeout. rewrite Hf. reflexivity. Qed.


End Timeouts.

(** ** [dispose] *)

Section Dispose.

#[local] Opaque lit dec.

Lemma disposePending_fields (sid : jsstring) (e : jsstring * PendingCall)
    (st : AcpService) :
  let st' := disposePending sid e st in
  sessions st' = sessions st
  /\ logWriters st' = logWriters st
  /\ requestIdCounter st' = requestIdCounter st
  /\ buffers st' = buffers st
  /\ errorListeners st' = errorListeners st
  /\ trace st' = trace st ++ disposeCalls sid e
  /\ pendingRequests st'
     = (if startsWith (fst e) sid then PendingMap.delete (fst e) (pendingRequests st)
        else pendingRequests st)
  /\ timers st'
     = (if startsWith (fst e) sid
        then List.filter (fun t => negb (handle t =? timeout (snd e))) (timers st)
        else timers st).
Proof.
  destruct e as [k p]. unfold disposePending, disposeCalls. simpl.
  destruct (startsWith k sid); simpl; repeat split; try reflexivity.
  - rewrite <- app_assoc. reflexivity.
  - rewrite app_nil_r. reflexivity.
Qed.

Lemma dispose_loop (sid : jsstring) (es : list (jsstring * PendingCall))
    (st : AcpService) :
  let st' := fold_left (fun st e => disposePending sid e st) es st in
  sessions st' = sessions st
  /\ logWriters st' = logWriters st
  /\ requestIdCounter st' = requestIdCounter st
  /\ buffers st' = buffers st
  /\ errorListeners st' = errorListeners st
  /\ trace st' = trace st ++ flat_map (disposeCalls sid) es
  /\ pendingRequests st'
     = fold_left (fun m e => if startsWith (fst e) sid then PendingMap.delete (fst e) m
                             else m) es (pendingRequests st).
Proof.
  revert st. induction es as [|e es IH]; intros st; cbn [fold_left flat_map].
  - rewrite app_nil_r. repeat split.
  - destruct (IH (disposePending sid e st)) as (-> & -> & -> & -> & -> & -> & ->).
    destruct (disposePending_fields sid e st) as (-> & -> & -> & -> & -> & -> & -> & _).
    rewrite <- app_assoc. repeat split.
Qed.

Lemma delete_loop (sid : jsstring) (es m : list (jsstring * PendingCall)) :
  fold_left (fun m e => if startsWith (fst e) sid then PendingMap.delete (fst e) m else m)
    es m
  = List.filter
      (fun e => negb (existsb (fun e' => startsWith (fst e') sid
                                         && bool_decide (fst e = fst e')) es)) m.
Proof.
  revert m. induction es as [|e' es IH]; intros m; cbn [fold_left existsb].
  - induction m as [|e m IHm]; [reflexivity|]. simpl. f_equal. exact IHm.
  - rewrite IH. destruct (startsWith (fst e') sid) eqn:Hp; cbn [andb orb].
    + unfold PendingMap.delete.
      induction m as [|e m IHm]; [reflexivity|]. simpl.
      destruct (bool_decide_reflect (fst e = fst e')) as [Heq|Hne]; simpl.
      * exact IHm.
      * destruct (existsb _ es); simpl; [exact IHm|by rewrite IHm].
    + reflexivity.
Qed.

Lemma delete_own_keys (sid : jsstring) (m : list (jsstring * PendingCall)) :
  fold_left (fun m e => if startsWith (fst e) sid then PendingMap.delete (fst e) m else m)
    m m
  = List.filter (fun e => negb (startsWith (fst e) sid)) m.
Proof.
  rewrite delete_loop. apply filter_ext_in. intros e Hin. f_equal.
  destruct (startsWith (fst e) sid) eqn:Hp.
  - apply existsb_exists. exists e. rewrite Hp. split; [exact Hin|].
    simpl. by apply bool_decide_eq_true.
  - apply not_true_is_false. intros (e' & _ & [Hp' Heq%bool_decide_eq_true]%andb_prop)%existsb_exists.
    rewrite Heq in Hp. congruence.
Qed.

Lemma startsWith_app (s t : jsstring) : startsWith (s ++ t) s = true.
Proof. induction s as [|c s IH]; [reflexivity|]. simpl. by rewrite N.eqb_refl. Qed.

Lemma get_filter_none (k : jsstring) (P : jsstring * PendingCall -> bool)
    (m : list (jsstring * PendingCall)) :
  (forall e, fst e = k -> P e = false) -> PendingMap.get k (List.filter P m) = None.
Proof.
  intros HP. induction m as [|[k' v] m IH]; [reflexivity|]. simpl.
  destruct (P (k', v)) eqn:Hk; [|exact IH]. simpl.
  destruct (decide (k' = k)) as [->|]; [|exact IH].
  rewrite (HP (k, v)) in Hk; [discriminate|reflexivity].
Qed.

Lemma get_filter_keep (k : jsstring) (P : jsstring * PendingCall -> bool)
    (m : list (jsstring * PendingCall)) :
  (forall e, fst e = k -> P e = true) ->
  PendingMap.get k (List.filter P m) = PendingMap.get k m.
Proof.
  intros HP. induction m as [|[k' v] m IH]; [reflexivity|]. simpl.
  destruct (decide (k' = k)) as [->|Hne].
  - rewrite (HP (k, v)) by reflexivity. simpl.
    destruct (decide (k = k)); [reflexivity|contradiction].
  - destruct (P (k', v)); [|exact IH]. simpl.
    destruct (decide (k' = k)); [contradiction|exact IH].
Qed.

(** [dispose] on a registered session, field by field. *)
Lemma dispose_registered (sid : jsstring) (session : AcpSession) (st : AcpService) :
  sessions st !! sid = Some session ->
  let st' := dispose sid st in
  trace st' = trace st ++ killCalls sid session
              ++ flat_map (disposeCalls sid) (pendingRequests st)
              ++ (if decide (sid ∈ logWriters st) then [WriterEnd sid] else [])
              ++ [LogInfo (lit "Session " ++ sid ++ lit " disposed")]
  /\ sessions st' = delete sid (sessions st)
  /\ logWriters st' = logWriters st ∖ {[sid]}
  /\ pendingRequests st'
     = List.filter (fun e => negb (startsWith (fst e) sid)) (pendingRequests st)
  /\ requestIdCounter st' = requestIdCounter st
  /\ buffers st' = buffers st
  /\ errorListeners st' = errorListeners st.
Proof.
  intros Hs. unfold dispose. rewrite Hs. cbv zeta.
  set (st1 := if negb (killed (process session)) then kill sid session st else st).
  assert (H1 : trace st1 = trace st ++ killCalls sid session
               /\ delete sid (sessions st1) = delete sid (sessions st)
               /\ pendingRequests st1 = pendingRequests st
               /\ logWriters st1 = logWriters st
               /\ requestIdCounter st1 = requestIdCounter st
               /\ buffers st1 = buffers st
               /\ errorListeners st1 = errorListeners st).
  { subst st1. unfold kill, killCalls.
    destruct (killed (process session)), (running (process session)); simpl;
      rewrite ?app_nil_r; repeat split. apply delete_alter_eq. }
  destruct H1 as (Ht1 & Hs1 & Hp1 & Hw1 & Hc1 & Hb1 & Hl1).
  destruct (dispose_loop sid (pendingRequests st1) st1)
    as (Hs2 & Hw2 & Hc2 & Hb2 & Hl2 & Ht2 & Hp2).
  set (st2 := fold_left _ (pendingRequests st1) st1) in *.
  rewrite delete_own_keys in Hp2.
  rewrite Hw2, Hw1.
  assert (Hdel : delete sid (sessions st2) = delete sid (sessions st)).
  { rewrite Hs2. exact Hs1. }
  destruct (decide (sid ∈ logWriters st)); simpl;
    rewrite ?Ht2, ?Ht1, ?Hp2, ?Hp1, ?Hc2, ?Hc1, ?Hb2, ?Hb1, ?Hl2, ?Hl1, ?Hw2, ?Hw1, ?Hdel;
    rewrite <- ?app_assoc; repeat split.
  apply set_eq. intros x. rewrite elem_of_difference, elem_of_singleton.
  split; [intros Hx; split; [exact Hx|intros ->; contradiction]|intros [Hx _]; exact Hx].
Qed.

Lemma dispose_unregistered (sid : jsstring) (st : AcpService) :
  sessions st !! sid = None -> dispose sid st = st.
Proof. intros Hs. unfold dispose. by rewrite Hs. Qed.

Lemma dispose_unregisters (sid : jsstring) (st : AcpService) :
  sessions (dispose sid st) !! sid = None.
Proof.
  destruct (sessions st !! sid) as [session|] eqn:Hs.
  - destruct (dispose_registered sid session st Hs) as (_ & -> & _).
    apply lookup_delete_eq.
  - by rewrite dispose_unregistered.
Qed.

(** C6. [dispose] does its cleanup once. On a registered session it
    signals the process if that is running and not yet killed, clears the
    timer of and rejects with "Session disposed" every pending call whose
    key starts with the session id (each entry of the map once, in
    particular every call of that very session), ends the log writer,
    and removes the session; a second [dispose], or one after the exit
    handler has run, changes nothing at all; and the exit handler, which
    disposes a process that is no longer running, sends it no signal. *)
Theorem dispose_is_idempotent (sid : jsstring) (st : AcpService) :
  (forall session,
     sessions st !! sid = Some session ->
     let st' := dispose sid st in
     trace st' = trace st
                 ++ (if negb (killed (process session)) && running (process session)
                     then [Kill sid] else [])
                 ++ flat_map (disposeCalls sid) (pendingRequests st)
                 ++ (if decide (sid ∈ logWriters st) then [WriterEnd sid] else [])
                 ++ [LogInfo (lit "Session " ++ sid ++ lit " disposed")]
     /\ sessions st' !! sid = None
     /\ (sid ∉ logWriters st')
     /\ (forall n e,
           In (sid ++ lit ":" ++ n, e) (pendingRequests st) ->
           In (Reject (promise e) (lit "Session disposed")) (trace st')
           /\ PendingMap.get (sid ++ lit ":" ++ n) (pendingRequests st') = None))
  /\ dispose sid (dispose sid st) = dispose sid st
  /\ (forall code signal,
        dispose sid (onExit sid code signal st) = onExit sid code signal st)
  /\ (forall code signal,
        ~ In (Kill sid) (trace st) ->
        ~ In (Kill sid) (trace (onExit sid code signal st))).
Proof.
  split; [|split; [|split]].
  - intros session Hs st'.
    destruct (dispose_registered sid session st Hs) as (Ht & Hs' & Hw & Hp & _).
    fold st' in Ht, Hs', Hw, Hp.
    split; [exact Ht|]. split; [rewrite Hs'; apply lookup_delete_eq|].
    split; [rewrite Hw, elem_of_difference, elem_of_singleton; tauto|].
    intros n e Hin. split.
    + rewrite Ht. rewrite !in_app_iff. right. right. left.
      apply in_flat_map. exists (sid ++ lit ":" ++ n, e). split; [exact Hin|].
      unfold disposeCalls. cbn [fst snd]. rewrite startsWith_app. simpl. auto.
    + rewrite Hp. apply get_filter_none. intros e' ->.
      rewrite startsWith_app. reflexivity.
  - apply dispose_unregistered, dispose_unregisters.
  - intros code signal. unfold onExit.
    apply dispose_unregistered, dispose_unregisters.
  - intros code signal Hk. unfold onExit, emitNotification.
    set (stX := does _ (set_sessions _ (does _ (set_sessions _ st)))).
    assert (HtX : forall c, In c (trace stX) ->
              In c (trace st) \/ (exists m, c = LogInfo m)
              \/ c = EmitNotification sid (Exit code)).
    { intros c. subst stX. simpl. rewrite !in_app_iff. simpl.
      intros [[Hc|[<-|[]]]|[<-|[]]]; eauto. }
    destruct (sessions stX !! sid) as [session|] eqn:Hs.
    + destruct (dispose_registered sid session stX Hs) as (-> & _).
      assert (Hrun : running (process session) = false).
      { subst stX. simpl in Hs. rewrite !lookup_alter_eq in Hs.
        destruct (sessions st !! sid); simpl in Hs; [|discriminate].
        injection Hs as <-. reflexivity. }
      unfold killCalls. rewrite Hrun, andb_false_r. rewrite !in_app_iff.
      intros [Hc|[[]|[Hc|[Hc|[Hc|[]]]]]].
      * apply HtX in Hc as [Hc|[[m Hc]|Hc]]; [auto|discriminate|discriminate].
      * apply in_flat_map in Hc as (e & _ & Hc). unfold disposeCalls in Hc.
        destruct (startsWith (fst e) sid); simpl in Hc; intuition discriminate.
      * destruct (decide _); simpl in Hc; intuition discriminate.
      * discriminate.
    + rewrite dispose_unregistered by exact Hs.
      intros Hc. apply HtX in Hc as [Hc|[[m Hc]|Hc]]; [auto|discriminate|discriminate].
Qed.

End Dispose.

Lemma dispose_is_idempotent_witness :
  let session := mkSession Demo.sid (lit "gemini") (lit "app") (lit "/tmp")
                   (mkProcess true false true) ready (Some (JStr (lit "1")))
                   (Some (JObj [])) in
  let st' := dispose Demo.sid Demo.prompted in
  trace st' = trace Demo.prompted
              ++ (if negb (killed (process session)) && running (process session)
                  then [Kill Demo.sid] else [])
              ++ flat_map (disposeCalls Demo.sid) (pendingRequests Demo.prompted)
              ++ (if decide (Demo.sid ∈ logWriters Demo.prompted)
                  then [WriterEnd Demo.sid] else [])
              ++ [LogInfo (lit "Session " ++ Demo.sid ++ lit " disposed")]
  /\ sessions st' !! Demo.sid = None
  /\ (Demo.sid ∉ logWriters st')
  /\ (forall n e,
        In (Demo.sid ++ lit ":" ++ n, e) (pendingRequests Demo.prompted) ->
        In (Reject (promise e) (lit "Session disposed")) (trace st')
        /\ PendingMap.get (Demo.sid ++ lit ":" ++ n) (pendingRequests st') = None).
Proof.
  apply (proj1 (dispose_is_idempotent Demo.sid Demo.prompted)).
  vm_compute. reflexivity.
Defined.

(** Keys that do not start with the disposed session's id are left alone. *)
Lemma dispose_frame (sid key : jsstring) (st : AcpService) :
  startsWith key sid = false ->
  PendingMap.get key (pendingRequests (dispose sid st))
  = PendingMap.get key (pendingRequests st).
Proof.
  intros Hk. destruct (sessions st !! sid) as [session|] eqn:Hs.
  - destruct (dispose_registered sid session st Hs) as (_ & _ & _ & -> & _).
    apply get_filter_keep. intros e ->. by rewrite Hk.
  - by rewrite dispose_unregistered.
Qed.

(** C5. Two registered sessions, the id of the first a proper prefix of
    the id of the second; the second has a prompt pending (call 4).
    Disposing the first rejects that call and drops its entry, while the
    second session stays registered and Ready. *)
Theorem dispose_reaches_into_prefixed_session :
  Demo.sid <> Demo.sid2
  /\ startsWith Demo.sid2 Demo.sid = true
  /\ (exists session,
        sessions Demo.twoSessions !! Demo.sid2 = Some session /\ status session = ready)
  /\ PendingMap.get (Demo.sid2 ++ lit ":" ++ dec 4) (pendingRequests Demo.twoSessions)
     = Some (mkPending 4 4)
  /\ ~ In (Reject 4 (lit "Session disposed")) (trace Demo.twoSessions)
  /\ let st' := dispose Demo.sid Demo.twoSessions in
     PendingMap.get (Demo.sid2 ++ lit ":" ++ dec 4) (pendingRequests st') = None
     /\ In (Reject 4 (lit "Session disposed")) (trace st')
     /\ (exists session,
           sessions st' !! Demo.sid2 = Some session /\ status session = ready).
Proof.
  split; [vm_compute; discriminate|].
  split; [vm_compute; reflexivity|].
  split; [eexists; split; vm_compute; reflexivity|].
  split; [vm_compute; reflexivity|].
  split; [vm_compute; intuition discriminate|].
  split; [vm_compute; reflexivity|].
  split; [vm_compute; tauto|].
  eexists; split; vm_compute; reflexivity.
Qed.

(** ** Message dispatch *)

Section Dispatch.

Context `{rt : Runtime}.

(** The first test of [handleMessage] on an object: [&&] binds tighter
    than [||]. *)
Lemma responseTest_object (fields : list (jsstring * json)) :
  responseTest (JObj fields)
  = Some ((has "id" fields && has "result" fields) || has "error" fields).
Proof.
  unfold responseTest, has. cbn [js_in mbind option_bind].
  destruct (bool_decide (is_Some (assoc (lit "id") fields)));
    destruct (bool_decide (is_Some (assoc (lit "result") fields))); reflexivity.
Qed.

Lemma notificationTest_object (fields : list (jsstring * json)) :
  notificationTest (JObj fields)
  = Some (has "method" fields && negb (has "id" fields)).
Proof.
  unfold notificationTest, has. cbn [js_in mbind option_bind].
  destruct (bool_decide (is_Some (assoc (lit "method") fields))); reflexivity.
Qed.

(** A response settles the call registered under its key, once, and
    leaves every other entry of the map where it was. *)
Lemma handleMessage_response (sid : jsstring) (msg : json) (e : PendingCall)
    (st : AcpService) :
  responseTest msg = Some true ->
  PendingMap.get (reqKeyOf sid (prop (lit "id") msg)) (pendingRequests st) = Some e ->
  exists c st',
    handleMessage sid msg st = Normal st'
    /\ trace st' = trace st ++ [ClearTimeout (timeout e); c]
    /\ (c = Resolve (promise e) (prop (lit "result") msg)
        \/ exists m, c = Reject (promise e) m)
    /\ PendingMap.get (reqKeyOf sid (prop (lit "id") msg)) (pendingRequests st') = None
    /\ forall k, k <> reqKeyOf sid (prop (lit "id") msg) ->
                 PendingMap.get k (pendingRequests st') = PendingMap.get k (pendingRequests st).
Proof.
  intros Hr Hg. unfold handleMessage. rewrite Hr, Hg.
  destruct (truthy (prop (lit "error") msg)); eexists; eexists;
    (split; [reflexivity|]); simpl; rewrite <- app_assoc;
    (split; [reflexivity|]); (split; [eauto|]);
    (split; [apply get_delete_eq|]); intros k Hk; apply get_delete_ne; congruence.
Qed.

(** A primitive or [null] makes [in] raise; the stdout loop reports it as
    invalid JSON. *)
Lemma handleMessage_primitive (sid : jsstring) (msg : json) (st : AcpService) :
  (forall fields, msg <> JObj fields) ->
  (forall items, msg <> JArr items) ->
  handleMessage sid msg st = Thrown st (lit "Cannot use 'in' operator").
Proof.
  intros Ho Ha. destruct msg; try reflexivity; [exfalso; eapply Ha|exfalso; eapply Ho];
    reflexivity.
Qed.

(** C7, amended. An object that passes neither test of [handleMessage] is
    dropped: the handler returns normally and leaves the service as it
    was, so no event is emitted. So is every array. *)
Theorem unrecognised_shape_is_ignored (sid : jsstring) (st : AcpService) :
  (forall fields,
     (has "id" fields && has "result" fields) || has "error" fields = false ->
     has "method" fields && negb (has "id" fields) = false ->
     handleMessage sid (JObj fields) st = Normal st)
  /\ (forall fields,
        has "method" fields = true ->
        has "id" fields = true ->
        has "result" fields = false ->
        has "error" fields = false ->
        handleMessage sid (JObj fields) st = Normal st)
  /\ (forall items, handleMessage sid (JArr items) st = Normal st).
Proof.
  assert (H : forall fields,
     (has "id" fields && has "result" fields) || has "error" fields = false ->
     has "method" fields && negb (has "id" fields) = false ->
     handleMessage sid (JObj fields) st = Normal st).
  { intros fields Hr Hn. unfold handleMessage.
    rewrite responseTest_object, Hr, notificationTest_object, Hn. reflexivity. }
  split; [exact H|]. split; [|reflexivity].
  intros fields Hm Hi Hres He. apply H; rewrite ?Hm, ?Hi, ?Hres, ?He; reflexivity.
Qed.

End Dispatch.

Lemma unrecognised_shape_is_ignored_witness :
  handleMessage (rt := Reference.runtime) Demo.sid Demo.agentRequest Demo.prompted
  = Normal Demo.prompted.
Proof.
  apply (proj1 (proj2 (unrecognised_shape_is_ignored (rt := Reference.runtime)
                         Demo.sid Demo.prompted)));
    vm_compute; reflexivity.
Defined.

Lemma unhandled_request_counterexample :
  Reference.parse
    (qlit "{'jsonrpc':'2.0','id':7,'method':'fs/read_text_file','params':{'path':'/tmp/a.txt'}}")
  = Some Demo.agentRequest
  /\ js_in (lit "method") Demo.agentRequest = Some true
  /\ js_in (lit "id") Demo.agentRequest = Some true
  /\ (0 < errorListeners Demo.prompted)%nat
  /\ forall st',
       handleMessage (rt := Reference.runtime) Demo.sid Demo.agentRequest Demo.prompted
       = Normal st' ->
       trace st' = trace Demo.prompted.
Proof.
  split; [vm_compute; reflexivity|]. split; [vm_compute; reflexivity|].
  split; [vm_compute; reflexivity|]. split; [vm_compute; lia|].
  intros st' H. vm_compute in H. injection H as <-. vm_compute. reflexivity.
Qed.

(** C1. A notification that carries an [error] member has a [method] and
    no [id], yet it passes the first test of [handleMessage]: it is looked
    up as the response to call ["undefined"], matches nothing, and is not
    emitted to the subscribers. *)
Theorem notification_with_error_member_is_swallowed :
  js_in (lit "method") Demo.failedNotice = Some true
  /\ js_in (lit "id") Demo.failedNotice = Some false
  /\ responseTest Demo.failedNotice = Some true
  /\ reqKeyOf Demo.sid (prop (lit "id") Demo.failedNotice) = Demo.sid ++ lit ":undefined"
  /\ handleMessage (rt := Reference.runtime) Demo.sid Demo.failedNotice Demo.prompted
     = Normal Demo.prompted
  /\ ~ In (EmitNotification Demo.sid (Notification Demo.failedNotice)) (trace Demo.prompted).
Proof.
  repeat split; try (vm_compute; reflexivity).
  vm_compute. intuition discriminate.
Qed.

(** ** The handshake *)

Section Handshake.

#[local] Opaque lit dec dispose.

(** [newSession] after an answer that is neither [null] nor [undefined]. *)
Lemma newSessionFinish_value (sid : jsstring) (result : json) (st : AcpService) :
  result <> JNull ->
  newSessionFinish sid (Fulfilled (Some result)) st
  = if truthy (prop (lit "protocolVersion") result)
       && below_one (parseInt (prop (lit "protocolVersion") result))
    then (dispose sid st, NotCreated (lit "Unsupported protocol version (requires v1+)"))
    else (does (LogInfo (lit "Session " ++ sid ++ lit " initialized successfully"))
            (set_sessions
               (alter (fun s => mkSession (id s) (providerId s) (workspaceId s) (cwd s)
                                  (process s) ready (prop (lit "protocolVersion") result)
                                  (prop (lit "capabilities") result)) sid) st),
          Created sid).
Proof. intros Hn. unfold newSessionFinish. destruct result; congruence || reflexivity. Qed.

Lemma newSessionFinish_refused (sid : jsstring) (r : settled) (st : AcpService) :
  (exists e, newSessionFinish sid r st = (dispose sid st, NotCreated e))
  \/ exists result,
       r = Fulfilled (Some result) /\ result <> JNull
       /\ truthy (prop (lit "protocolVersion") result)
          && below_one (parseInt (prop (lit "protocolVersion") result)) = false.
Proof.
  destruct r as [[result|]|m]; [|left; eexists; reflexivity|left; eexists; reflexivity].
  assert (Hd : result = JNull \/ result <> JNull)
    by (destruct result; (by left) || (right; discriminate)).
  destruct Hd as [->|Hn]; [left; eexists; reflexivity|].
  destruct (truthy (prop (lit "protocolVersion") result)
            && below_one (parseInt (prop (lit "protocolVersion") result))) eqn:Hc.
  - left. rewrite newSessionFinish_value, Hc by exact Hn. eexists; reflexivity.
  - right. eauto.
Qed.

(** C2, amended. After [initialize] is answered with a result that is
    neither [null] nor [undefined] and whose [protocolVersion] is missing,
    a string or an integer other than 0: [newSession] refuses the session
    exactly when [parseInt] turns the version into a number below 1; a
    version that [parseInt] turns into a number of at least 1 is accepted,
    and so is one that is missing or that [parseInt] cannot convert
    ([NaN]): the session becomes Ready and records the version and the
    capabilities of the answer. Every refusal, whatever the answer,
    disposes the session; and no session becomes Ready on such a version
    that [parseInt] turns into a number below 1. *)
Theorem handshake_rejects_versions_below_one (sid : jsstring) (st : AcpService) :
  (forall result,
     result <> JNull ->
     stated (prop (lit "protocolVersion") result) ->
     (forall n,
        parseInt (prop (lit "protocolVersion") result) = Some n ->
        (n < 1)%Z ->
        newSessionFinish sid (Fulfilled (Some result)) st
        = (dispose sid st, NotCreated (lit "Unsupported protocol version (requires v1+)")))
     /\ (parseInt (prop (lit "protocolVersion") result) = None
         \/ (exists n, parseInt (prop (lit "protocolVersion") result) = Some n
                       /\ (1 <= n)%Z) ->
         newSessionFinish sid (Fulfilled (Some result)) st
         = (does (LogInfo (lit "Session " ++ sid ++ lit " initialized successfully"))
              (set_sessions
                 (alter (fun s => mkSession (id s) (providerId s) (workspaceId s) (cwd s)
                                    (process s) ready (prop (lit "protocolVersion") result)
                                    (prop (lit "capabilities") result)) sid) st),
            Created sid)))
  /\ (forall r e,
        snd (newSessionFinish sid r st) = NotCreated e ->
        fst (newSessionFinish sid r st) = dispose sid st
        /\ sessions (fst (newSessionFinish sid r st)) !! sid = None)
  /\ (forall r s,
        snd (newSessionFinish sid r st) = Created s ->
        s = sid
        /\ exists result,
             r = Fulfilled (Some result)
             /\ result <> JNull
             /\ (stated (prop (lit "protocolVersion") result) ->
                 forall n, parseInt (prop (lit "protocolVersion") result) = Some n ->
                           (1 <= n)%Z)
             /\ forall session,
                  sessions st !! sid = Some session ->
                  sessions (fst (newSessionFinish sid r st)) !! sid
                  = Some (mkSession (id session) (providerId session) (workspaceId session)
                            (cwd session) (process session) ready
                            (prop (lit "protocolVersion") result)
                            (prop (lit "capabilities") result))).
Proof.
  assert (Hguard : forall v, stated v -> truthy v = false -> parseInt v = None).
  { intros [[| | |[|c s]| |]|]; simpl; try tauto; try discriminate; try reflexivity.
    intros Hz Hn. apply negb_false_iff, Z.eqb_eq in Hn. contradiction. }
  split; [|split].
  - intros result Hnn Hst. split.
    + intros n Hp Hn.
      rewrite newSessionFinish_value by exact Hnn.
      destruct (truthy (prop (lit "protocolVersion") result)) eqn:Ht.
      * rewrite Hp. simpl. apply Z.ltb_lt in Hn. rewrite Hn. reflexivity.
      * rewrite (Hguard _ Hst Ht) in Hp. discriminate Hp.
    + intros Hok. rewrite newSessionFinish_value by exact Hnn.
      destruct Hok as [->|(n & -> & Hn)].
      * rewrite andb_false_r. reflexivity.
      * simpl. apply Z.ltb_ge in Hn. rewrite Hn, andb_false_r. reflexivity.
  - intros r e He.
    destruct (newSessionFinish_refused sid r st) as [[e' Hr]|(result & -> & Hn & Hc)].
    + rewrite Hr. split; [reflexivity|apply dispose_unregisters].
    + rewrite newSessionFinish_value, Hc in He by exact Hn. discriminate He.
  - intros r s Hs.
    destruct (newSessionFinish_refused sid r st) as [[e' Hr]|(result & -> & Hn & Hc)].
    + rewrite Hr in Hs. discriminate Hs.
    + rewrite newSessionFinish_value, Hc in Hs |- * by exact Hn.
      injection Hs as <-. split; [reflexivity|]. exists result.
      split; [reflexivity|]. split; [exact Hn|]. split.
      * intros Hst n Hp.
        destruct (truthy (prop (lit "protocolVersion") result)) eqn:Ht.
        -- rewrite Hp in Hc. simpl in Hc. apply Z.ltb_ge in Hc. exact Hc.
        -- rewrite (Hguard _ Hst Ht) in Hp. discriminate Hp.
      * intros session Hsess. simpl. rewrite lookup_alter_eq, Hsess. reflexivity.
Qed.

End Handshake.

Lemma handshake_rejects_versions_below_one_witness :
  newSessionFinish Demo.sid (Fulfilled (Some Demo.versionZero)) Demo.started
  = (dispose Demo.sid Demo.started,
     NotCreated (lit "Unsupported protocol version (requires v1+)"))
  /\ snd (newSessionFinish Demo.sid (Fulfilled (Some Demo.versionOne)) Demo.started)
     = Created Demo.sid
  /\ sessions (fst (newSessionFinish Demo.sid (Fulfilled (Some Demo.versionOne))
                      Demo.started)) !! Demo.sid
     = Some (mkSession Demo.sid (lit "gemini") (lit "app") (lit "/tmp")
               (mkProcess true false true) ready (Some (JStr (lit "1")))
               (Some (JObj []))).
Proof.
  pose proof (handshake_rejects_versions_below_one Demo.sid Demo.started) as (Ha & _ & _).
  split.
  - apply (proj1 (Ha Demo.versionZero ltac:(discriminate) I) 0%Z);
      [vm_compute; reflexivity|lia].
  - rewrite (proj2 (Ha Demo.versionOne ltac:(discriminate) I)).
    + split; [reflexivity|]. vm_compute. reflexivity.
    + right. exists 1%Z. split; [vm_compute; reflexivity|lia].
Defined.

Lemma handshake_without_version_counterexample :
  prop (lit "protocolVersion") Demo.versionless = None
  /\ In (Resolve 1 (Some Demo.versionless)) (trace Demo.answeredVersionless)
  /\ (exists st',
        newSessionFinish Demo.sid (Fulfilled (Some Demo.versionless)) Demo.answeredVersionless
        = (st', Created Demo.sid)
        /\ status <$> sessions st' !! Demo.sid = Some ready
        /\ ~ In (Kill Demo.sid) (trace st'))
  /\ parseInt (prop (lit "protocolVersion") Demo.versionText) = None
  /\ (exists st',
        newSessionFinish Demo.sid (Fulfilled (Some Demo.versionText)) Demo.started
        = (st', Created Demo.sid)
        /\ status <$> sessions st' !! Demo.sid = Some ready).
Proof.
  split; [vm_compute; reflexivity|]. split; [vm_compute; tauto|].
  split; [eexists; split; [vm_compute; reflexivity|]; split;
          [vm_compute; reflexivity|vm_compute; intuition discriminate]|].
  split; [vm_compute; reflexivity|].
  eexists; split; [vm_compute; reflexivity|vm_compute; reflexivity].
Qed.

(** ** [cancel] *)

Section Cancel.

Context `{rt : Runtime}.

#[local] Opaque lit dec.

(** [cancel] in any state: it looks at the registry, never at the status. *)
Lemma cancel_registered (sid : jsstring)
    (writeError : option jsstring) (st : AcpService) :
  (sessions st !! sid = None ->
   cancel sid writeError st = (st, Failure (lit "Session not found")))
  /\ (forall session,
        sessions st !! sid = Some session ->
        stdin (process session) = true ->
        let st' := fst (cancel sid writeError st) in
        trace st' = trace st
                    ++ [StdinWrite sid
                          (JSON_stringify (notification (lit "cancel") (JObj [])) ++ [10])]
                    ++ (if decide (sid ∈ logWriters st)
                        then [WriterWrite sid (lit "[notify] " ++ lit "cancel" ++ lit ": "
                                               ++ JSON_stringify (JObj []))]
                        else [])
        /\ pendingRequests st' = pendingRequests st
        /\ timers st' = timers st
        /\ requestIdCounter st' = requestIdCounter st
        /\ sessions st' = sessions st
        /\ snd (cancel sid writeError st)
           = match writeError with
             | None => Success
             | Some e => Failure e
             end)
  /\ (writeError <> Some (lit "Session not found") ->
      (forall session, sessions st !! sid = Some session -> stdin (process session) = true) ->
      (snd (cancel sid writeError st) = Failure (lit "Session not found")
       <-> sessions st !! sid = None)).
Proof.
  assert (Hpresent : forall session,
    sessions st !! sid = Some session ->
    stdin (process session) = true ->
    cancel sid writeError st
    = (writeLog sid (lit "[notify] " ++ lit "cancel" ++ lit ": " ++ JSON_stringify (JObj []))
         (does (StdinWrite sid
                  (JSON_stringify (notification (lit "cancel") (JObj [])) ++ [10])) st),
       match writeError with
       | None => Success
       | Some e => Failure e
       end)).
  { intros session Hs Hin. unfold cancel, rpcNotify. rewrite Hs, Hin. simpl.
    destruct writeError; reflexivity. }
  split; [|split].
  - intros Hs. unfold cancel. rewrite Hs. reflexivity.
  - intros session Hs Hin st'. subst st'. rewrite (Hpresent session Hs Hin).
    cbn [fst snd]. unfold writeLog. cbn [logWriters does].
    destruct (decide (sid ∈ logWriters st)); simpl; rewrite <- ?app_assoc;
      repeat split.
  - intros Hw Hpipe. split.
    + intros Hf. destruct (sessions st !! sid) as [session|] eqn:Hs; [|reflexivity].
      rewrite (Hpresent session eq_refl (Hpipe session eq_refl)) in Hf. cbn [snd] in Hf.
      destruct writeError as [e|]; [|discriminate]. congruence.
    + intros Hs. unfold cancel. rewrite Hs. reflexivity.
Qed.

End Cancel.

(** ** Chunk boundaries *)

(** The framing of a sequence of chunks depends only on the decoded text:
    the lines are the complete lines of the concatenated text, the buffer
    is what follows its last newline, and together they are the text
    without its newlines. *)
Lemma framing_of_decoded_text (chunks : list Utf8.buffer) :
  let text := List.concat (List.map Utf8.toString chunks) in
  feed [] chunks = (completeLines text, remainder text)
  /\ List.concat (fst (feed [] chunks)) ++ snd (feed [] chunks)
     = List.filter (fun c => negb (c =? 10)) text.
Proof.
  intros text.
  assert (H : feed [] chunks = (completeLines text, remainder text))
    by (apply (feed_text chunks []); simpl; tauto).
  split; [exact H|]. rewrite H. cbn [fst snd].
  rewrite <- concat_split_nl, (split_nl_lines_remainder text), concat_app.
  simpl. rewrite app_nil_r. reflexivity.
Qed.

(** C4. The stream [c3 a9 0a] is the line "é". Fed in one chunk it is
    framed as that line; cut between the two bytes of the character, each
    chunk is decoded on its own and the line comes out as two replacement
    characters. The same cut inside a notification changes the message the
    subscribers receive. *)
Theorem split_character_changes_the_line :
  feed [] [[xc3; xa9; x0a]] = ([[233]], [])
  /\ feed [] [[xc3]; [xa9; x0a]] = ([[65533; 65533]], [])
  /\ Demo.accented = Demo.accentedHead ++ Demo.accentedTail
  /\ In (EmitNotification Demo.sid (Notification (Demo.named [233])))
       (trace (feedStdout (rt := Reference.runtime) Demo.sid [Demo.accented]
                 Demo.initialized))
  /\ In (EmitNotification Demo.sid (Notification (Demo.named [65533; 65533])))
       (trace (feedStdout (rt := Reference.runtime) Demo.sid
                 [Demo.accentedHead; Demo.accentedTail] Demo.initialized))
  /\ ~ In (EmitNotification Demo.sid (Notification (Demo.named [233])))
         (trace (feedStdout (rt := Reference.runtime) Demo.sid
                   [Demo.accentedHead; Demo.accentedTail] Demo.initialized)).
Proof.
  split; [reflexivity|]. split; [reflexivity|]. split; [reflexivity|].
  split; [vm_compute; tauto|]. split; [vm_compute; tauto|].
  vm_compute. intuition discriminate.
Qed.

(** ** Decimal renderings and keys *)

Section Keys.

Lemma dec_aux_digits (fuel : nat) (n : N) (acc : jsstring) :
  Forall (fun c => 48 <= c <= 57) acc ->
  Forall (fun c => 48 <= c <= 57) (dec_aux fuel n acc).
Proof.
  revert n acc. induction fuel as [|fuel IH]; intros n acc Hacc; simpl; [exact Hacc|].
  assert (Hd : Forall (fun c => 48 <= c <= 57) (48 + n mod 10 :: acc)).
  { constructor; [|exact Hacc]. pose proof (N.mod_upper_bound n 10 ltac:(lia)) as Hm. cbv beta.
    revert Hm. generalize (n mod 10). intros d Hd. lia. }
  destruct (n / 10 =? 0); [exact Hd|]. apply IH, Hd.
Qed.

Lemma dec_digits (n : N) : Forall (fun c => 48 <= c <= 57) (dec n).
Proof. apply dec_aux_digits. constructor. Qed.

Lemma dec_no_colon (n : N) : ~ In 58 (dec n).
Proof.
  intros Hin. pose proof (dec_digits n) as H.
  rewrite List.Forall_forall in H. apply H in Hin. cbv beta in Hin. lia.
Qed.

Lemma fold_digits_app (s : jsstring) (a : N) :
  fold_left (fun a c => 10 * a + (c - 48)) s a
  = a * 10 ^ N.of_nat (length s) + digitsValue s.
Proof.
  unfold digitsValue. revert a. induction s as [|c s IH]; intros a.
  - simpl. lia.
  - cbn [fold_left length]. rewrite IH, (IH (10 * 0 + (c - 48))).
    rewrite Nat2N.inj_succ, N.pow_succ_r'. lia.
Qed.

Lemma dec_aux_value (fuel : nat) (n : N) (acc : jsstring) :
  n < 10 ^ N.of_nat fuel ->
  digitsValue (dec_aux fuel n acc)
  = n * 10 ^ N.of_nat (length acc) + digitsValue acc.
Proof.
  revert n acc. induction fuel as [|fuel IH]; intros n acc Hn.
  - simpl in *. assert (n = 0) as -> by lia. lia.
  - cbn [dec_aux]. rewrite Nat2N.inj_succ, N.pow_succ_r' in Hn.
    pose proof (N.div_mod n 10 ltac:(lia)) as Hdm.
    pose proof (N.mod_upper_bound n 10 ltac:(lia)) as Hm.
    assert (IHq : n / 10 < 10 ^ N.of_nat fuel -> forall acc',
              digitsValue (dec_aux fuel (n / 10) acc')
              = n / 10 * 10 ^ N.of_nat (length acc') + digitsValue acc')
      by (intros Hq acc'; apply IH, Hq).
    revert Hdm Hm IHq. generalize (n / 10) (n mod 10). intros q d Hdm Hm IHq.
    assert (Hcons : digitsValue (48 + d :: acc)
                    = d * 10 ^ N.of_nat (length acc) + digitsValue acc).
    { unfold digitsValue at 1. cbn [fold_left]. rewrite fold_digits_app.
      f_equal. f_equal. lia. }
    destruct (N.eqb_spec q 0) as [Hq|Hq].
    + rewrite Hcons. f_equal. f_equal. lia.
    + rewrite IHq by lia. rewrite Hcons. cbn [length].
      rewrite Nat2N.inj_succ, N.pow_succ_r'. lia.
Qed.

Lemma dec_value (n : N) : digitsValue (dec n) = n.
Proof.
  unfold dec. rewrite dec_aux_value.
  - simpl. unfold digitsValue. simpl. lia.
  - destruct n as [|p]; [simpl; lia|].
    rewrite Nat2N.inj_succ, N2Nat.id.
    pose proof (N.log2_spec (N.pos p) ltac:(lia)) as [_ Hlt].
    eapply N.lt_le_trans; [exact Hlt|].
    apply N.pow_le_mono_l. lia.
Qed.

Lemma dec_inj (n m : N) : dec n = dec m -> n = m.
Proof. intros H. rewrite <- (dec_value n), <- (dec_value m), H. reflexivity. Qed.

Lemma split_at_last_colon (a b x y : jsstring) :
  ~ In 58 x -> ~ In 58 y -> a ++ 58 :: x = b ++ 58 :: y -> a = b /\ x = y.
Proof.
  intros Hx Hy Heq.
  assert (Hrev : rev x ++ 58 :: rev a = rev y ++ 58 :: rev b).
  { apply (f_equal (@rev N)) in Heq. rewrite !rev_app_distr in Heq. simpl in Heq.
    rewrite <- !app_assoc in Heq. exact Heq. }
  assert (Hgen : forall u v p q : jsstring,
            ~ In 58 u -> ~ In 58 v -> u ++ 58 :: p = v ++ 58 :: q -> u = v /\ p = q).
  { clear. induction u as [|c u IH]; intros [|d v] p q Hu Hv Heq; simpl in *.
    - injection Heq as ->. auto.
    - injection Heq as <- _. tauto.
    - injection Heq as -> _. tauto.
    - injection Heq as -> Heq. destruct (IH v p q) as [-> ->]; auto. }
  destruct (Hgen (rev x) (rev y) (rev a) (rev b)) as [Hxy Hab]; try exact Hrev.
  - rewrite <- in_rev. exact Hx.
  - rewrite <- in_rev. exact Hy.
  - split; apply rev_inj; assumption.
Qed.

(** Keys built from different call ids differ, whatever the sessions. *)
Lemma reqKey_inj (s s' : jsstring) (n n' : N) :
  s ++ lit ":" ++ dec n = s' ++ lit ":" ++ dec n' -> s = s' /\ n = n'.
Proof.
  intros H. change (lit ":") with [58] in H. simpl in H.
  destruct (split_at_last_colon s s' (dec n) (dec n')) as [-> Hd];
    auto using dec_no_colon, dec_inj.
Qed.

End Keys.

(** ** What the events preserve *)

Section Evolution.

Context `{rt : Runtime}.

#[local] Opaque lit dec.

Lemma evolves_refl (st : AcpService) : evolves st st.
Proof. split; [lia|split; auto]. Qed.

Lemma evolves_trans (a b c : AcpService) : evolves a b -> evolves b c -> evolves a c.
Proof.
  intros (Hc1 & Hp1 & Ht1) (Hc2 & Hp2 & Ht2). split; [lia|]. split.
  - intros k [Hk|(s & n & -> & Hn)]%Hp2.
    + apply Hp1 in Hk as [Hk|(s & n & -> & Hn)]; [auto|].
      right. exists s, n. split; [reflexivity|lia].
    + right. exists s, n. split; [reflexivity|lia].
  - intros t [Hin|Hn]%Ht2; [|right; lia].
    apply Ht1 in Hin as [Hin|Hn]; [auto|right; lia].
Qed.

(** A step that only removes keys and timers. *)
Lemma evolves_shrink (st st' : AcpService) :
  requestIdCounter st' = requestIdCounter st ->
  (forall k, In k (List.map fst (pendingRequests st')) ->
             In k (List.map fst (pendingRequests st))) ->
  (forall t, In t (timers st') -> In t (timers st)) ->
  evolves st st'.
Proof. intros Hc Hp Ht. split; [lia|]. split; auto. Qed.

Lemma keys_delete (key k : jsstring) (m : list (jsstring * PendingCall)) :
  In k (List.map fst (PendingMap.delete key m)) -> In k (List.map fst m).
Proof.
  unfold PendingMap.delete. rewrite !in_map_iff.
  intros (e & He & [Hin _]%filter_In). eauto.
Qed.

Lemma keys_filter (P : jsstring * PendingCall -> bool) (k : jsstring)
    (m : list (jsstring * PendingCall)) :
  In k (List.map fst (List.filter P m)) -> In k (List.map fst m).
Proof. rewrite !in_map_iff. intros (e & He & [Hin _]%filter_In). eauto. Qed.

Lemma keys_set (key k : jsstring) (v : PendingCall) (m : list (jsstring * PendingCall)) :
  In k (List.map fst (PendingMap.set key v m)) -> k = key \/ In k (List.map fst m).
Proof.
  induction m as [|[k0 w] m IH]; simpl.
  - intros [<-|[]]. by left.
  - destruct (decide (k0 = key)) as [->|Hne]; simpl.
    + intros [<-|Hin]; auto.
    + intros [<-|Hin]; [auto|]. apply IH in Hin as [->|Hin]; auto.
Qed.

Lemma get_None_keys (k : jsstring) (m : list (jsstring * PendingCall)) :
  PendingMap.get k m = None <-> ~ In k (List.map fst m).
Proof.
  induction m as [|[k0 w] m IH]; simpl; [tauto|].
  destruct (decide (k0 = k)) as [->|Hne]; [intuition discriminate|].
  rewrite IH. tauto.
Qed.

Lemma timers_filter (P : Timer -> bool) (t : Timer) (ts : list Timer) :
  In t (List.filter P ts) -> In t ts.
Proof. intros [Hin _]%filter_In. exact Hin. Qed.

Lemma handleMessage_evolves (sid : jsstring) (msg : json) (st : AcpService) :
  evolves st (state_of (handleMessage sid msg st)).
Proof.
  unfold handleMessage.
  destruct (responseTest msg) as [[|]|]; [| |apply evolves_refl].
  - destruct (PendingMap.get _ _); [|apply evolves_refl].
    destruct (truthy _); (apply evolves_shrink;
      [reflexivity|intros k; apply keys_delete|intros t; apply timers_filter]).
  - destruct (notificationTest msg) as [[|]|]; try apply evolves_refl.
    unfold writeLog. destruct (decide _); apply evolves_shrink; auto.
Qed.

Lemma processLines_evolves (sid : jsstring) (lines : list jsstring) (st : AcpService) :
  evolves st (state_of (processLines sid lines st)).
Proof.
  revert st. induction lines as [|line rest IH]; intros st; [apply evolves_refl|].
  cbn [processLines].
  destruct (trim line) as [|c t]; [apply IH|].
  destruct (MAX_LINE <? len (c :: t)).
  { eapply evolves_trans; [|apply IH]. apply evolves_shrink; auto. }
  assert (Hparse : evolves st (state_of (parseAndHandle sid (c :: t) st))).
  { unfold parseAndHandle. destruct (JSON_parse (c :: t)) as [msg|].
    - eapply evolves_trans; [|apply handleMessage_evolves]. apply evolves_shrink; auto.
    - apply evolves_shrink; auto. }
  destruct (parseAndHandle sid (c :: t) st) as [st1|st1 e]; cbn [state_of] in Hparse.
  - eapply evolves_trans; [exact Hparse|apply IH].
  - eapply evolves_trans; [exact Hparse|]. unfold emitError.
    destruct (errorListeners _) eqn:Hl; cbn [state_of].
    + apply evolves_shrink; auto.
    + eapply evolves_trans; [|apply IH]. apply evolves_shrink; auto.
Qed.

Lemma dispose_timers (sid : jsstring) (es : list (jsstring * PendingCall))
    (st : AcpService) (t : Timer) :
  In t (timers (fold_left (fun st e => disposePending sid e st) es st)) ->
  In t (timers st).
Proof.
  revert st. induction es as [|e es IH]; intros st; cbn [fold_left]; [auto|].
  intros Hin%IH.
  destruct (disposePending_fields sid e st) as (_ & _ & _ & _ & _ & _ & _ & Ht).
  rewrite Ht in Hin. destruct (startsWith (fst e) sid); [|exact Hin].
  eapply timers_filter, Hin.
Qed.

Lemma dispose_evolves (sid : jsstring) (st : AcpService) : evolves st (dispose sid st).
Proof.
  destruct (sessions st !! sid) as [session|] eqn:Hs;
    [|rewrite dispose_unregistered by exact Hs; apply evolves_refl].
  destruct (dispose_registered sid session st Hs) as (_ & _ & _ & Hp & Hc & _).
  apply evolves_shrink; [exact Hc|rewrite Hp; intros k; apply keys_filter|].
  intros t. unfold dispose. rewrite Hs. cbn [timers does set_sessions].
  destruct (decide _); cbn [timers does set_writers]; intros Hin%dispose_timers;
    revert Hin; unfold kill;
    destruct (negb (killed (process session))), (running (process session)); auto.
Qed.

Lemma rpcCall_evolves (sid method : jsstring) (params : json) (ms : N) (st : AcpService) :
  evolves st (fst (rpcCall sid method params ms st)).
Proof.
  destruct (rpcCall sid method params ms st) as [st1 [p|m]] eqn:Hcall; cbn [fst].
  - destruct (rpcCall_registers _ _ _ _ _ _ _ Hcall) as (Hp & Hc & Hpend & Ht & _).
    split; [lia|]. split.
    + intros k Hk. rewrite Hpend in Hk. apply keys_set in Hk as [->|Hk]; [|auto].
      right. exists sid, p. split; [reflexivity|lia].
    + intros t Hin. rewrite Ht in Hin. apply in_app_iff in Hin as [Hin|[<-|[]]]; [auto|].
      right. simpl. lia.
  - unfold rpcCall in Hcall. destruct (sessions st !! sid) as [session|].
    + destruct (negb (stdin (process session))); [|discriminate].
      injection Hcall as <- _. apply evolves_refl.
    + injection Hcall as <- _. apply evolves_refl.
Qed.

Lemma newSessionFinish_evolves (sid : jsstring) (r : settled) (st : AcpService) :
  evolves st (fst (newSessionFinish sid r st)).
Proof.
  destruct (newSessionFinish_refused sid r st) as [[e Hr]|(result & -> & Hn & Hc)].
  - rewrite Hr. apply dispose_evolves.
  - rewrite newSessionFinish_value, Hc by exact Hn. apply evolves_shrink; auto.
Qed.

Lemma wireStdio_evolves (sid : jsstring) (st : AcpService) :
  evolves st (wireStdio sid st).
Proof.
  unfold wireStdio. destruct (sessions st !! sid); [|apply evolves_refl].
  apply evolves_shrink; auto.
Qed.

Lemma step_evolves (e : event) (st : AcpService) : evolves st (step e st).
Proof.
  destruct e as [|a env|sid r|sid text env|sid werr|sid|sid chunk|sid chunk
                 |sid code signal|sid msg|h|key p msg]; cbn [step].
  - apply evolves_shrink; auto.
  - unfold newSessionStart. cbv zeta.
    destruct (match spawnOverride a with
              | Some spec => Some spec
              | None => getProviderSpawnSpec env (argProviderId a)
              end); [|apply evolves_refl].
    destruct (spawnError env); [apply evolves_refl|].
    set (st0 := wireStdio _ _).
    set (params := match init a with Some _ => _ | None => _ end).
    assert (Hpre : evolves st st0).
    { subst st0. eapply evolves_trans; [|apply wireStdio_evolves].
      unfold setupLogWriter. destruct (logStreamError env); apply evolves_shrink; auto. }
    pose proof (rpcCall_evolves (sessionIdOf a env) (lit "initialize") params
                  (initializeMs env) st0) as Hcall.
    destruct (rpcCall _ _ params _ st0) as [st1 [q|msg]]; cbn [fst] in Hcall |- *.
    + eapply evolves_trans; eassumption.
    + pose proof (newSessionFinish_evolves (sessionIdOf a env) (Rejected msg) st1) as Hf.
      destruct (newSessionFinish _ _ st1) as [st2 r]. cbn [fst] in Hf |- *.
      eapply evolves_trans; [|exact Hf]. eapply evolves_trans; eassumption.
  - apply newSessionFinish_evolves.
  - unfold promptStart. destruct (sessions st !! sid) as [session|];
      [|apply evolves_refl].
    destruct (status session); try apply evolves_refl. apply rpcCall_evolves.
  - unfold cancel, rpcNotify. destruct (sessions st !! sid) as [session|];
      [|apply evolves_refl].
    destruct (negb (stdin (process session))); [apply evolves_refl|].
    destruct werr; cbn [fst]; unfold writeLog; destruct (decide _);
      apply evolves_shrink; auto.
  - apply dispose_evolves.
  - unfold onStdoutData. destruct (frame _ chunk) as [lines b].
    eapply evolves_trans; [|apply processLines_evolves]. apply evolves_shrink; auto.
  - unfold onStderrData, emitNotification, writeLog. destruct (decide _);
      apply evolves_shrink; auto.
  - unfold onExit. eapply evolves_trans; [|apply dispose_evolves].
    apply evolves_shrink; auto.
  - unfold onProcessError, emitError. destruct (errorListeners _); cbn [state_of];
      apply evolves_shrink; auto.
  - unfold onTimeout. destruct (List.find _ (timers st)) as [t|]; [|apply evolves_refl].
    apply evolves_shrink; [reflexivity|intros k; apply keys_delete
                          |intros t'; apply timers_filter].
  - unfold onWriteError. apply evolves_shrink;
      [reflexivity|intros k; apply keys_delete|intros t'; apply timers_filter].
Qed.

Lemma run_evolves (events : list event) (st : AcpService) : evolves st (run events st).
Proof.
  revert st. induction events as [|e events IH]; intros st; [apply evolves_refl|].
  eapply evolves_trans; [apply step_evolves|apply IH].
Qed.

Lemma evolves_allocated (st st' : AcpService) :
  evolves st st' -> allocated st -> allocated st'.
Proof.
  intros (Hc & _ & Ht) Ha. unfold allocated in *.
  rewrite List.Forall_forall in *. intros t [Hin|Hn]%Ht; [|lia].
  apply Ha in Hin. lia.
Qed.

(** Every state a service reaches keeps its timers allocated. *)
Lemma run_allocated (events : list event) : allocated (run events newService).
Proof. apply (evolves_allocated newService); [apply run_evolves|constructor]. Qed.


End Evolution.

(** ** The timeout and the late response *)

Example history_reaches_initialized :
  run (rt := Reference.runtime) Demo.history newService = Demo.initialized.
Proof. vm_compute. reflexivity. Qed.

Example late_response_changes_only_the_parse_log :
  trace (run (rt := Reference.runtime) Demo.later (onTimeout 2 Demo.prompted))
  = trace (onTimeout 2 Demo.prompted)
    ++ [JsonParse (qlit "{'jsonrpc':'2.0','id':2,'result':{'status':'completed'}}");
        StdinWrite Demo.sid (qlit "{'jsonrpc':'2.0','method':'cancel','params':{}}" ++ [10]);
        WriterWrite Demo.sid (lit "[notify] cancel: {}")].
Proof. vm_compute. reflexivity. Qed.

(** ** Registered sessions keep their stdin pipe *)

Section Piped.

Context `{rt : Runtime}.

#[local] Opaque lit dec.

Lemma piped_same (st st' : AcpService) :
  sessions st' = sessions st -> piped st -> piped st'.
Proof. unfold piped. intros ->. auto. Qed.

Lemma piped_alter (f : AcpSession -> AcpSession) (k : jsstring) (st : AcpService) :
  (forall s, stdin (process (f s)) = stdin (process s)) ->
  piped st -> piped (set_sessions (alter f k) st).
Proof.
  intros Hf Hp sid session. simpl. rewrite lookup_alter.
  destruct (decide (k = sid)) as [->|Hne]; [|apply Hp].
  destruct (sessions st !! sid) as [s|] eqn:Hs; simpl; [|discriminate].
  intros [= <-]. rewrite Hf. eapply Hp, Hs.
Qed.

Lemma piped_does (c : call) (st : AcpService) : piped st -> piped (does c st).
Proof. apply piped_same. reflexivity. Qed.

Lemma piped_delete (k : jsstring) (st st' : AcpService) :
  sessions st' = delete k (sessions st) -> piped st -> piped st'.
Proof.
  intros Hd Hp sid session. rewrite Hd, lookup_delete.
  destruct (decide (k = sid)); [discriminate|apply Hp].
Qed.

Lemma handleMessage_sessions (sid : jsstring) (msg : json) (st : AcpService) :
  sessions (state_of (handleMessage sid msg st)) = sessions st.
Proof.
  unfold handleMessage.
  destruct (responseTest msg) as [[|]|]; [| |reflexivity].
  - destruct (PendingMap.get _ _); [|reflexivity]. destruct (truthy _); reflexivity.
  - destruct (notificationTest msg) as [[|]|]; [|reflexivity|reflexivity].
    unfold writeLog. destruct (decide _); reflexivity.
Qed.

(** The stdout loop never touches the registry. *)
Lemma processLines_sessions (sid : jsstring) (lines : list jsstring) (st : AcpService) :
  sessions (state_of (processLines sid lines st)) = sessions st.
Proof.
  revert st. induction lines as [|line rest IH]; intros st; [reflexivity|].
  cbn [processLines].
  destruct (trim line) as [|c t]; [apply IH|].
  destruct (MAX_LINE <? len (c :: t)); [by rewrite IH|].
  assert (Hparse : sessions (state_of (parseAndHandle sid (c :: t) st)) = sessions st).
  { unfold parseAndHandle. destruct (JSON_parse (c :: t)) as [msg|]; [|reflexivity].
    by rewrite handleMessage_sessions. }
  destruct (parseAndHandle sid (c :: t) st) as [st1|st1 e]; cbn [state_of] in Hparse.
  - by rewrite IH.
  - unfold emitError. destruct (errorListeners _); cbn [state_of]; [exact Hparse|].
    by rewrite IH.
Qed.

Lemma onStdoutData_sessions (sid : jsstring) (chunk : Utf8.buffer) (st : AcpService) :
  sessions (state_of (onStdoutData sid chunk st)) = sessions st.
Proof.
  unfold onStdoutData. destruct (frame _ chunk) as [lines b].
  by rewrite processLines_sessions.
Qed.

Lemma dispose_piped (sid : jsstring) (st : AcpService) : piped st -> piped (dispose sid st).
Proof.
  destruct (sessions st !! sid) as [session|] eqn:Hs;
    [|by rewrite dispose_unregistered].
  destruct (dispose_registered sid session st Hs) as (_ & Hd & _).
  apply piped_delete with sid. exact Hd.
Qed.

Lemma rpcCall_sessions (sid method : jsstring) (params : json) (ms : N) (st : AcpService) :
  sessions (fst (rpcCall sid method params ms st)) = sessions st.
Proof.
  destruct (rpcCall sid method params ms st) as [st1 [p|m]] eqn:Hcall; cbn [fst].
  - by destruct (rpcCall_registers _ _ _ _ _ _ _ Hcall) as (_ & _ & _ & _ & -> & _).
  - unfold rpcCall in Hcall. destruct (sessions st !! sid) as [session|].
    + destruct (negb (stdin (process session))); [|discriminate]. by injection Hcall as <- _.
    + by injection Hcall as <- _.
Qed.

Lemma newSessionFinish_piped (sid : jsstring) (r : settled) (st : AcpService) :
  piped st -> piped (fst (newSessionFinish sid r st)).
Proof.
  intros Hp.
  destruct (newSessionFinish_refused sid r st) as [[e Hr]|(result & -> & Hn & Hc)].
  - rewrite Hr. by apply dispose_piped.
  - rewrite newSessionFinish_value, Hc by exact Hn. cbn [fst].
    by apply piped_does, piped_alter.
Qed.

Lemma step_piped (e : event) (st : AcpService) : piped st -> piped (step e st).
Proof.
  intros Hp.
  destruct e as [|a env|sid r|sid text env|sid werr|sid|sid chunk|sid chunk
                 |sid code signal|sid msg|h|key p msg]; cbn [step].
  - exact Hp.
  - unfold newSessionStart. cbv zeta.
    destruct (match spawnOverride a with
              | Some spec => Some spec
              | None => getProviderSpawnSpec env (argProviderId a)
              end); [|exact Hp].
    destruct (spawnError env); [exact Hp|].
    set (st0 := wireStdio _ _).
    set (params := match init a with Some _ => _ | None => _ end).
    assert (Hpre : piped st0).
    { subst st0. unfold wireStdio, setupLogWriter.
      match goal with
      | |- piped (match ?x with Some _ => _ | None => _ end) =>
          assert (Hin : forall b, piped b -> piped (match x with Some _ => set_buffer
                    (sessionIdOf a env) [] b | None => b end))
            by (intros b Hb; destruct x; [exact Hb|exact Hb])
      end.
      apply Hin. destruct (logStreamError env);
        (eapply piped_same; [reflexivity|]);
        intros sid session; simpl; rewrite lookup_insert;
        (destruct (decide (sessionIdOf a env = sid)); [by intros [= <-]|apply Hp]). }
    pose proof (rpcCall_sessions (sessionIdOf a env) (lit "initialize") params
                  (initializeMs env) st0) as Hcall.
    destruct (rpcCall _ _ params _ st0) as [st1 [q|msg]]; cbn [fst] in Hcall |- *.
    + eapply piped_same; eassumption.
    + pose proof (newSessionFinish_piped (sessionIdOf a env) (Rejected msg) st1) as Hf.
      destruct (newSessionFinish _ _ st1) as [st2 r]. cbn [fst] in Hf |- *.
      apply Hf. eapply piped_same; eassumption.
  - by apply newSessionFinish_piped.
  - unfold promptStart. destruct (sessions st !! sid) as [session|]; [|exact Hp].
    destruct (status session); try exact Hp.
    eapply piped_same; [apply rpcCall_sessions|exact Hp].
  - unfold cancel, rpcNotify. destruct (sessions st !! sid) as [session|]; [|exact Hp].
    destruct (negb (stdin (process session))); [exact Hp|].
    destruct werr; cbn [fst]; unfold writeLog; destruct (decide _); exact Hp.
  - by apply dispose_piped.
  - eapply piped_same; [apply onStdoutData_sessions|exact Hp].
  - unfold onStderrData, emitNotification, writeLog. destruct (decide _); exact Hp.
  - unfold onExit, emitNotification. apply dispose_piped, piped_does.
    apply piped_alter; [reflexivity|]. apply piped_does. by apply piped_alter.
  - unfold onProcessError, emitError. destruct (errorListeners _); cbn [state_of];
      repeat apply piped_does; (apply piped_alter; [reflexivity|]);
      apply piped_does; by apply piped_alter.
  - unfold onTimeout. destruct (List.find _ (timers st)); exact Hp.
  - exact Hp.
Qed.

Lemma run_piped (events : list event) (st : AcpService) :
  piped st -> piped (run events st).
Proof.
  revert st. induction events as [|e events IH]; intros st Hp; [exact Hp|].
  apply IH, step_piped, Hp.
Qed.

Lemma newService_piped : piped newService.
Proof. intros sid session. unfold newService. simpl. by rewrite lookup_empty. Qed.

End Piped.

(** ** [cancel] on a running service *)

Section CancelReachable.

Context `{rt : Runtime}.

(** C10. In every state a service can reach, [cancel] asks only that the
    session be registered, whatever its status. On an unregistered id it
    fails with "Session not found" and does nothing. On a registered
    session it writes the [cancel] notification line to stdin and logs it,
    registers no pending call and arms no timer, and succeeds unless the
    write reports an error, which it then returns. *)
Theorem cancel_needs_only_a_registered_session (history : list event) (sid : jsstring)
    (writeError : option jsstring) :
  let st := run history newService in
  (sessions st !! sid = None ->
   cancel sid writeError st = (st, Failure (lit "Session not found")))
  /\ (forall session,
        sessions st !! sid = Some session ->
        let st' := fst (cancel sid writeError st) in
        trace st' = trace st
                    ++ [StdinWrite sid
                          (JSON_stringify
                             (JObj [(lit "jsonrpc", JStr (lit "2.0"));
                                    (lit "method", JStr (lit "cancel"));
                                    (lit "params", JObj [])]) ++ [10])]
                    ++ (if decide (sid ∈ logWriters st)
                        then [WriterWrite sid (lit "[notify] " ++ lit "cancel" ++ lit ": "
                                               ++ JSON_stringify (JObj []))]
                        else [])
        /\ pendingRequests st' = pendingRequests st
        /\ timers st' = timers st
        /\ requestIdCounter st' = requestIdCounter st
        /\ sessions st' = sessions st
        /\ snd (cancel sid writeError st)
           = match writeError with
             | None => Success
             | Some e => Failure e
             end)
  /\ (writeError <> Some (lit "Session not found") ->
      (snd (cancel sid writeError st) = Failure (lit "Session not found")
       <-> sessions st !! sid = None)).
Proof.
  intros st.
  assert (Hp : piped st) by apply run_piped, newService_piped.
  destruct (cancel_registered sid writeError st) as (Ha & Hb & Hc).
  split; [exact Ha|]. split.
  - intros session Hs. apply (Hb session Hs). eapply Hp, Hs.
  - intros Hw. apply Hc; [exact Hw|]. intros session Hs. eapply Hp, Hs.
Qed.

End CancelReachable.

Lemma cancel_needs_only_a_registered_session_witness :
  let st := run (rt := Reference.runtime)
              [ErrorListenerAdded; NewSessionCalled Demo.args Demo.env] newService in
  let st' := fst (cancel (rt := Reference.runtime) Demo.sid None st) in
  status <$> sessions st !! Demo.sid = Some initializing
  /\ trace st' = trace st
                 ++ [StdinWrite Demo.sid
                       (qlit "{'jsonrpc':'2.0','method':'cancel','params':{}}" ++ [10]);
                     WriterWrite Demo.sid (lit "[notify] cancel: {}")]
  /\ pendingRequests st' = pendingRequests st
  /\ timers st' = timers st
  /\ requestIdCounter st' = requestIdCounter st
  /\ sessions st' = sessions st
  /\ snd (cancel (rt := Reference.runtime) Demo.sid None st) = Success.
Proof.
  intros st st'.
  destruct (proj1 (proj2 (cancel_needs_only_a_registered_session (rt := Reference.runtime)
                            [ErrorListenerAdded; NewSessionCalled Demo.args Demo.env]
                            Demo.sid None))
              (mkSession Demo.sid (lit "gemini") (lit "app") (lit "/tmp")
                 (mkProcess true false true) initializing None None))
    as (H1 & H2 & H3 & H4 & H5 & H6).
  - vm_compute. reflexivity.
  - split; [vm_compute; reflexivity|].
    split; [etransitivity; [exact H1|vm_compute; reflexivity]|].
    split; [exact H2|]. split; [exact H3|]. split; [exact H4|]. split; [exact H5|exact H6].
Defined.

(** ** A scenario

    A notification, then a response cut in two chunks, arrive while call 2
    is pending: one notification is emitted and then the call is resolved,
    in that order. *)

Example notification_then_response_in_three_chunks :
  trace (feedStdout (rt := Reference.runtime) Demo.sid
           [Utf8.of_ascii (qlit "{'jsonrpc':'2.0','method':'progress','params':{'x':1}}"
                           ++ [10]);
            Utf8.of_ascii (qlit "{'jsonrpc':'2.0',");
            Utf8.of_ascii (qlit "'id':2,'result':{}}" ++ [10])]
           Demo.prompted)
  = trace Demo.prompted
    ++ [JsonParse (qlit "{'jsonrpc':'2.0','method':'progress','params':{'x':1}}");
        WriterWrite Demo.sid (qlit "[notification] progress: {'x':1}");
        EmitNotification Demo.sid
          (Notification
             (JObj [(lit "jsonrpc", JStr (lit "2.0")); (lit "method", JStr (lit "progress"));
                    (lit "params", JObj [(lit "x", JNum 1)])]));
        JsonParse (qlit "{'jsonrpc':'2.0','id':2,'result':{}}");
        ClearTimeout 2;
        Resolve 2 (Some (JObj []))].
Proof. vm_compute. reflexivity. Qed.

(** ** Chunks that end on a character *)

Section Characters.

Context `{rt : Runtime}.

Lemma decode_idle (st : Utf8.dstate) (bs : list N) :
  Utf8.needed st = 0%nat -> Utf8.decode st bs = Utf8.decode Utf8.idle bs.
Proof. intros H. destruct bs as [|b bs]; simpl; rewrite H; reflexivity. Qed.

Lemma decode_app (st : Utf8.dstate) (a b : list N) :
  Utf8.needed (decoderAfter st a) = 0%nat ->
  Utf8.decode st (a ++ b) = Utf8.decode st a ++ Utf8.decode Utf8.idle b.
Proof.
  revert st. induction a as [|x a IH]; intros st H.
  - simpl in *. rewrite H. by apply decode_idle.
  - cbn [app Utf8.decode decoderAfter] in *.
    destruct (Utf8.needed st) as [|n].
    + destruct (Utf8.lead x) as [out st']. cbn [snd] in H.
      rewrite IH by exact H. apply app_assoc.
    + destruct ((Utf8.lo st <=? x) && (x <=? Utf8.hi st)).
      * destruct n; rewrite IH by exact H; reflexivity.
      * destruct (Utf8.lead x) as [out st']. cbn [snd] in H.
        rewrite IH by exact H. simpl. rewrite <- app_assoc. reflexivity.
Qed.

Lemma toString_app (a b : Utf8.buffer) :
  endsOnCharacter a -> Utf8.toString (a ++ b) = Utf8.toString a ++ Utf8.toString b.
Proof.
  intros H. unfold Utf8.toString.
  rewrite List.map_app, decode_app by exact H.
  rewrite List.map_app, concat_app. reflexivity.
Qed.

Lemma toString_concat (chunks : list Utf8.buffer) :
  Forall endsOnCharacter chunks ->
  List.concat (List.map Utf8.toString chunks) = Utf8.toString (List.concat chunks).
Proof.
  induction 1 as [|c chunks Hc _ IH]; [reflexivity|].
  cbn [List.map List.concat]. rewrite toString_app by exact Hc. by rewrite IH.
Qed.

(** X1. When no chunk ends inside a multi-byte sequence, the stdout
    handler frames the chunks as it frames the whole stream delivered at
    once: the lines are the complete lines of the decoded stream and the
    buffer is what follows its last newline; and with a listener on
    ['error'] the service ends in the same state either way. *)
Theorem chunks_ending_on_characters_frame_like_the_stream
    (sid : jsstring) (chunks : list Utf8.buffer) :
  Forall endsOnCharacter chunks ->
  feed [] chunks = feed [] [List.concat chunks]
  /\ feed [] chunks
     = (completeLines (Utf8.toString (List.concat chunks)),
        remainder (Utf8.toString (List.concat chunks)))
  /\ forall st,
       (0 < errorListeners st)%nat ->
       buffers st !! sid = Some [] ->
       feedStdout sid chunks st = feedStdout sid [List.concat chunks] st.
Proof.
  intros Hall.
  assert (Hfeed : forall cs, feed [] cs
            = (completeLines (List.concat (List.map Utf8.toString cs)),
               remainder (List.concat (List.map Utf8.toString cs)))).
  { intros cs. apply (feed_text cs []). simpl. tauto. }
  assert (Hone : List.concat (List.map Utf8.toString [List.concat chunks])
                 = Utf8.toString (List.concat chunks)).
  { simpl. apply app_nil_r. }
  split; [|split].
  - rewrite !Hfeed, Hone, toString_concat by exact Hall. reflexivity.
  - rewrite Hfeed, toString_concat by exact Hall. reflexivity.
  - intros st Hl Hb.
    assert (Hn : ~ In 10 ([] : jsstring)) by (simpl; tauto).
    rewrite (feedStdout_lines sid chunks st _ [] Hb Hn (processLines_listening sid _ st Hl)).
    rewrite (feedStdout_lines sid [List.concat chunks] st _ [] Hb Hn
               (processLines_listening sid _ st Hl)).
    rewrite Hone, toString_concat by exact Hall. reflexivity.
Qed.

End Characters.

Lemma chunks_ending_on_characters_frame_like_the_stream_witness :
  feed [] [[x7b; xc3; xa9]; [x7d; x0a; x7b]; [xe2; x82; xac; x7d; x0a]]
  = ([[123; 233; 125]; [123; 8364; 125]], []).
Proof.
  pose proof (chunks_ending_on_characters_frame_like_the_stream (rt := Reference.runtime)
                Demo.sid [[x7b; xc3; xa9]; [x7d; x0a; x7b]; [xe2; x82; xac; x7d; x0a]])
    as H.
  destruct H as (_ & H & _).
  - repeat constructor.
  - rewrite H. reflexivity.
Defined.

(** ** White space around the lines *)

Section WhiteSpace.

Context `{rt : Runtime}.

Lemma lead_lo (x : N) : 128 <= Utf8.lo (snd (Utf8.lead x)).
Proof.
  unfold Utf8.lead.
  repeat match goal with
         | |- context [if ?c then _ else _] => destruct c
         end; simpl; lia.
Qed.

Lemma decode_snoc_ascii (st : Utf8.dstate) (bs : list N) (b : N) :
  b <= 127 -> 128 <= Utf8.lo st ->
  Utf8.decode st (bs ++ [b]) = Utf8.decode st bs ++ [b].
Proof.
  intros Hb.
  assert (Hlead : Utf8.lead b = ([b], Utf8.idle)).
  { unfold Utf8.lead. apply N.leb_le in Hb. by rewrite Hb. }
  revert st. induction bs as [|x bs IH]; intros st Hlo.
  - cbn [app Utf8.decode]. rewrite Hlead.
    destruct (Utf8.needed st) as [|n]; [reflexivity|].
    assert (Hno : (Utf8.lo st <=? b) && (b <=? Utf8.hi st) = false).
    { apply andb_false_intro1, N.leb_gt. lia. }
    rewrite Hno. reflexivity.
  - cbn [app Utf8.decode].
    pose proof (lead_lo x) as Hx.
    destruct (Utf8.needed st) as [|n].
    + destruct (Utf8.lead x) as [out st']. cbn [snd] in Hx.
      rewrite IH by exact Hx. apply app_assoc.
    + destruct ((Utf8.lo st <=? x) && (x <=? Utf8.hi st)).
      * destruct n; rewrite IH by (simpl; lia); reflexivity.
      * destruct (Utf8.lead x) as [out st']. cbn [snd] in Hx.
        rewrite IH by exact Hx. simpl. rewrite <- app_assoc. reflexivity.
Qed.

(** Decoding keeps an ASCII byte that ends a chunk as it is. *)
Lemma toString_snoc_ascii (bs : Utf8.buffer) (b : byte) :
  Byte.to_N b <= 127 ->
  Utf8.toString (bs ++ [b]) = Utf8.toString bs ++ [Byte.to_N b].
Proof.
  intros Hb. unfold Utf8.toString.
  rewrite List.map_app. cbn [List.map].
  rewrite decode_snoc_ascii by first [exact Hb | simpl; lia].
  rewrite List.map_app, concat_app. cbn [List.map List.concat].
  unfold Utf8.utf16. assert (Hlt : (Byte.to_N b <? 65536) = true) by (apply N.ltb_lt; lia).
  rewrite Hlt, app_nil_r. reflexivity.
Qed.

Lemma trimEnd_snoc (s : jsstring) (c : N) :
  is_space c = true -> trimEnd (s ++ [c]) = trimEnd s.
Proof.
  intros Hc. induction s as [|x s IH]; cbn [app trimEnd]; [by rewrite Hc|].
  by rewrite IH.
Qed.

Lemma trim_snoc (s : jsstring) (c : N) :
  is_space c = true -> trim (s ++ [c]) = trim s.
Proof.
  intros Hc. unfold trim. induction s as [|x s IH]; cbn [app trimStart].
  - by rewrite Hc.
  - destruct (is_space x); [exact IH|].
    change (x :: s ++ [c]) with ((x :: s) ++ [c]). by apply trimEnd_snoc.
Qed.

Lemma trim_blank (s : jsstring) : blank s -> trim s = [].
Proof.
  unfold trim. induction 1 as [|c s Hc _ IH]; [reflexivity|].
  cbn [trimStart]. by rewrite Hc.
Qed.

(** A line that [trim] reduces to the same text is processed the same. *)
Lemma processLines_trim (sid : jsstring) (l1 l2 : jsstring) (st : AcpService) :
  trim l1 = trim l2 -> processLines sid [l1] st = processLines sid [l2] st.
Proof. intros H. cbn [processLines]. by rewrite H. Qed.

Lemma frame_newline (text : jsstring) :
  completeLines (text ++ [10]) = completeLines text ++ [remainder text]
  /\ remainder (text ++ [10]) = [].
Proof.
  pose proof (split_nl_one_line (remainder text) (remainder_no_newline text)) as Hone.
  split.
  - rewrite completeLines_app. f_equal. unfold completeLines. by rewrite Hone.
  - rewrite remainder_app. unfold remainder at 1. by rewrite Hone.
Qed.

Lemma frame_no_newline (text : jsstring) (c : N) :
  c <> 10 ->
  completeLines (text ++ [c]) = completeLines text
  /\ remainder (text ++ [c]) = remainder text ++ [c].
Proof.
  intros Hc.
  assert (Hn : ~ In 10 (remainder text ++ [c])).
  { rewrite in_app_iff. intros [H|[H|[]]]; [by apply (remainder_no_newline text)|].
    congruence. }
  split.
  - rewrite completeLines_app. unfold completeLines at 2.
    rewrite (split_nl_no_newline _ Hn). apply app_nil_r.
  - rewrite remainder_app. unfold remainder at 1.
    by rewrite (split_nl_no_newline _ Hn).
Qed.

(** X2. A line terminated by a carriage return and a newline is handled
    exactly as the same line terminated by a newline alone: whatever the
    bytes before the terminator and whatever the state, the stdout handler
    ends the same way in the same state. *)
Theorem crlf_line_ending_is_handled_as_lf (sid : jsstring) (bytes : Utf8.buffer)
    (st : AcpService) :
  onStdoutData sid (bytes ++ [x0d; x0a]) st = onStdoutData sid (bytes ++ [x0a]) st.
Proof.
  unfold onStdoutData. rewrite !frame_eq.
  set (b := default [] (buffers st !! sid)).
  change (bytes ++ [x0d; x0a]) with (bytes ++ [x0d] ++ [x0a]).
  rewrite (app_assoc bytes).
  rewrite !toString_snoc_ascii by (vm_compute; discriminate).
  change (Byte.to_N x0a) with 10. change (Byte.to_N x0d) with 13.
  rewrite !(app_assoc b).
  destruct (frame_newline ((b ++ Utf8.toString bytes) ++ [13])) as [-> ->].
  destruct (frame_newline (b ++ Utf8.toString bytes)) as [-> ->].
  destruct (frame_no_newline (b ++ Utf8.toString bytes) 13) as [-> ->]; [discriminate|].
  rewrite !processLines_app.
  destruct (processLines sid (completeLines (b ++ Utf8.toString bytes)) _) as [st1|st1 e];
    [|reflexivity].
  apply processLines_trim, trim_snoc. reflexivity.
Qed.

(** X3. White space is no message: while the buffer of a session holds
    only white space, a chunk of ASCII white space (spaces, tabs, carriage
    returns, newlines) raises nothing, makes no call and changes nothing
    but the buffer, which still holds only white space. *)
Theorem blank_chunk_is_ignored (sid : jsstring) (chunk : Utf8.buffer) (st : AcpService) :
  blank (default [] (buffers st !! sid)) ->
  Forall (fun b => b = x20 \/ b = x09 \/ b = x0a \/ b = x0d) chunk ->
  exists buffer,
    onStdoutData sid chunk st = Normal (set_buffer sid buffer st) /\ blank buffer.
Proof.
  intros Hb Hc. unfold onStdoutData. rewrite frame_eq.
  set (b := default [] (buffers st !! sid)) in *.
  assert (Htext : blank (b ++ Utf8.toString chunk)).
  { apply Forall_app. split; [exact Hb|].
    induction chunk as [|x chunk IH] using rev_ind; [constructor|].
    apply Forall_app in Hc as [Hc Hx]. apply Forall_inv in Hx.
    rewrite toString_snoc_ascii
      by (destruct Hx as [->|[->|[->| ->]]]; vm_compute; discriminate).
    apply Forall_app. split; [by apply IH|].
    destruct Hx as [->|[->|[->| ->]]]; by repeat constructor. }
  generalize dependent (b ++ Utf8.toString chunk). clear. intros text Htext.
  exists (remainder text).
  assert (Hsplit : Forall blank (split_nl text)).
  { induction Htext as [|c s Hc _ IH]; simpl; [repeat constructor|].
    destruct (c =? 10); [constructor; [constructor|exact IH]|].
    destruct (split_nl s) as [|l ls]; [repeat constructor; exact Hc|].
    inversion IH; subst. constructor; [constructor|]; assumption. }
  rewrite (split_nl_lines_remainder text) in Hsplit.
  apply Forall_app in Hsplit as [Hlines Hrem].
  split; [|by inversion Hrem].
  generalize (set_buffer sid (remainder text) st).
  induction Hlines as [|l ls Hl _ IH]; intros st0; [reflexivity|].
  cbn [processLines]. rewrite (trim_blank l Hl). apply IH.
Qed.

End WhiteSpace.

Lemma blank_chunk_is_ignored_witness :
  exists buffer,
    onStdoutData (rt := Reference.runtime) Demo.sid [x0d; x0a; x20; x0a; x09] Demo.prompted
    = Normal (set_buffer Demo.sid buffer Demo.prompted)
    /\ blank buffer.
Proof.
  apply (blank_chunk_is_ignored (rt := Reference.runtime)).
  - vm_compute. constructor.
  - repeat (constructor; [auto 6|]). constructor.
Defined.

(** ** Steps that register nothing *)

Section Shrinks.

Context `{rt : Runtime}.

#[local] Opaque lit dec.

Lemma shrinks_refl (st : AcpService) : shrinks st st.
Proof. repeat split; apply incl_refl. Qed.

Lemma shrinks_trans (a b c : AcpService) : shrinks a b -> shrinks b c -> shrinks a c.
Proof.
  intros (Hs1 & Hw1 & Hc1 & Hl1 & Hp1 & Ht1) (Hs2 & Hw2 & Hc2 & Hl2 & Hp2 & Ht2).
  repeat split; try congruence; eapply incl_tran; eassumption.
Qed.

Lemma shrinks_does (c : call) (st : AcpService) : shrinks st (does c st).
Proof. repeat split; apply incl_refl. Qed.

Lemma shrinks_writeLog (sid m : jsstring) (st : AcpService) : shrinks st (writeLog sid m st).
Proof. unfold writeLog. destruct (decide _); [apply shrinks_does|apply shrinks_refl]. Qed.

Lemma incl_delete (k : jsstring) (m : list (jsstring * PendingCall)) :
  incl (PendingMap.delete k m) m.
Proof. intros e [H _]%In_delete. exact H. Qed.

Lemma shrinks_settle (k : jsstring) (h : N) (c : call) (st : AcpService) :
  shrinks st (does c (set_pending (PendingMap.delete k) (clearTimeout h st))).
Proof.
  repeat split; simpl; [apply incl_delete|]. intros t. apply timers_filter.
Qed.

Lemma handleMessage_shrinks (sid : jsstring) (msg : json) (st : AcpService) :
  shrinks st (state_of (handleMessage sid msg st)).
Proof.
  unfold handleMessage.
  destruct (responseTest msg) as [[|]|]; [| |apply shrinks_refl].
  - destruct (PendingMap.get _ _); [|apply shrinks_refl].
    destruct (truthy _); apply shrinks_settle.
  - destruct (notificationTest msg) as [[|]|]; try apply shrinks_refl.
    cbn [state_of]. eapply shrinks_trans; [apply shrinks_writeLog|apply shrinks_does].
Qed.

(** What holds before the stdout loop holds after it, when the calls of
    the loop and [handleMessage] keep it. *)
Lemma processLines_preserves (I : AcpService -> Prop) (sid : jsstring) :
  (forall c st, settles c = [] -> I st -> I (does c st)) ->
  (forall msg st, I st -> I (state_of (handleMessage sid msg st))) ->
  forall lines st, I st -> I (state_of (processLines sid lines st)).
Proof.
  intros Hdoes Hmsg lines. induction lines as [|line rest IH]; intros st Hst; [exact Hst|].
  cbn [processLines].
  destruct (trim line) as [|c t]; [by apply IH|].
  destruct (MAX_LINE <? len (c :: t)); [by apply IH, Hdoes|].
  assert (Hparse : I (state_of (parseAndHandle sid (c :: t) st))).
  { unfold parseAndHandle. destruct (JSON_parse (c :: t)) as [msg|].
    - by apply Hmsg, Hdoes.
    - by apply Hdoes. }
  destruct (parseAndHandle sid (c :: t) st) as [st1|st1 e]; cbn [state_of] in Hparse.
  - by apply IH.
  - unfold emitError. destruct (errorListeners _); cbn [state_of].
    + by apply Hdoes.
    + by apply IH, Hdoes, Hdoes.
Qed.

Lemma processLines_shrinks (sid : jsstring) (lines : list jsstring) (st : AcpService) :
  shrinks st (state_of (processLines sid lines st)).
Proof.
  apply (processLines_preserves (shrinks st) sid).
  - intros c st0 _ H. eapply shrinks_trans; [exact H|apply shrinks_does].
  - intros msg st0 H. eapply shrinks_trans; [exact H|apply handleMessage_shrinks].
  - apply shrinks_refl.
Qed.

Lemma onStdoutData_shrinks (sid : jsstring) (chunk : Utf8.buffer) (st : AcpService) :
  shrinks st (state_of (onStdoutData sid chunk st)).
Proof.
  unfold onStdoutData. destruct (frame _ chunk) as [lines b].
  eapply shrinks_trans; [|apply processLines_shrinks]. repeat split; apply incl_refl.
Qed.

Lemma onTimeout_shrinks (h : N) (st : AcpService) : shrinks st (onTimeout h st).
Proof.
  unfold onTimeout. destruct (List.find _ (timers st)) as [t|]; [|apply shrinks_refl].
  repeat split; simpl; [apply incl_delete|]. intros t'. apply timers_filter.
Qed.

Lemma cancel_shrinks (sid : jsstring) (werr : option jsstring) (st : AcpService) :
  shrinks st (fst (cancel sid werr st)).
Proof.
  unfold cancel, rpcNotify. destruct (sessions st !! sid) as [session|];
    [|apply shrinks_refl].
  destruct (negb (stdin (process session))); [apply shrinks_refl|].
  destruct werr; cbn [fst];
    (eapply shrinks_trans; [apply shrinks_does|apply shrinks_writeLog]).
Qed.

End Shrinks.

(** ** Nothing is left behind *)

Section Tidy.

Context `{rt : Runtime}.

#[local] Opaque lit dec.

Lemma tidy_shrinks (st st' : AcpService) : shrinks st st' -> tidy st -> tidy st'.
Proof.
  intros (Hs & Hw & Hc & _ & Hp & _) (Tw & Ts & Tp).
  split; [|split].
  - intros sid. rewrite Hw, Hs. apply Tw.
  - intros sid s. rewrite Hs. apply Ts.
  - intros k e Hin. rewrite Hs, Hc. apply Tp, Hp, Hin.
Qed.

(** A change to a registered session that keeps what [tidy] asks of it. *)
Lemma tidy_alter (f : AcpSession -> AcpSession) (sid : jsstring) (st : AcpService) :
  (forall s, id (f s) = id s /\ killed (process (f s)) = killed (process s)
             /\ (status s <> exited -> status (f s) <> exited)) ->
  tidy st -> tidy (set_sessions (alter f sid) st).
Proof.
  intros Hf (Tw & Ts & Tp).
  assert (Hsome : forall x, is_Some (sessions st !! x) ->
                            is_Some (alter f sid (sessions st) !! x)).
  { intros x [s Hs]. rewrite lookup_alter. destruct (decide (sid = x)) as [->|];
      rewrite Hs; simpl; eauto. }
  split; [|split].
  - intros x Hx. apply Hsome, Tw, Hx.
  - intros x s. simpl. rewrite lookup_alter.
    destruct (decide (sid = x)) as [->|Hne]; [|apply Ts].
    destruct (sessions st !! x) as [s0|] eqn:Hs0; simpl; [|discriminate].
    intros [= <-]. destruct (Ts x s0 Hs0) as (Hi & Hst0 & Hk).
    destruct (Hf s0) as (-> & -> & Hst). auto.
  - intros k e Hin. destruct (Tp k e Hin) as ((x & Hk & Hx) & Ht & Hc).
    split; [|split; assumption]. exists x. split; [exact Hk|]. apply Hsome, Hx.
Qed.

Lemma rpcCall_writers (sid method : jsstring) (params : json) (ms : N) (st : AcpService) :
  logWriters (fst (rpcCall sid method params ms st)) = logWriters st.
Proof.
  unfold rpcCall. destruct (sessions st !! sid) as [session|]; [|reflexivity].
  destruct (negb (stdin (process session))); [reflexivity|].
  cbn [fst]. unfold writeLog. destruct (decide _); reflexivity.
Qed.

Lemma In_set (key : jsstring) (v : PendingCall) (x : jsstring * PendingCall)
    (m : list (jsstring * PendingCall)) :
  In x (PendingMap.set key v m) -> x = (key, v) \/ In x m.
Proof.
  induction m as [|[k0 w] m IH]; simpl.
  - intros [<-|[]]. by left.
  - destruct (decide (k0 = key)) as [->|Hne]; simpl.
    + intros [<-|Hin]; auto.
    + intros [<-|Hin]; [auto|]. apply IH in Hin as [->|Hin]; auto.
Qed.

Lemma tidy_rpcCall (sid method : jsstring) (params : json) (ms : N) (st : AcpService) :
  tidy st -> tidy (fst (rpcCall sid method params ms st)).
Proof.
  intros Ht. pose proof Ht as (Tw & Ts & Tp).
  pose proof (rpcCall_writers sid method params ms st) as Hw.
  pose proof (rpcCall_sessions sid method params ms st) as Hs.
  destruct (rpcCall sid method params ms st) as [st1 [p|m]] eqn:Hcall; cbn [fst] in *.
  - destruct (rpcCall_registers _ _ _ _ _ _ _ Hcall) as (Hp & Hc & Hpend & _).
    assert (Hreg : is_Some (sessions st !! sid)).
    { unfold rpcCall in Hcall. destruct (sessions st !! sid); [eauto|discriminate]. }
    split; [|split].
    + intros x. rewrite Hw, Hs. apply Tw.
    + intros x s. rewrite Hs. apply Ts.
    + intros k e Hin. rewrite Hpend in Hin. rewrite Hs, Hc.
      apply In_set in Hin as [[= -> ->]|Hin].
      * simpl. split; [eauto|]. split; [reflexivity|lia].
      * destruct (Tp k e Hin) as (Hk & Hto & Hle). split; [exact Hk|].
        split; [exact Hto|lia].
  - unfold rpcCall in Hcall. destruct (sessions st !! sid) as [session|].
    + destruct (negb (stdin (process session))); [|discriminate].
      injection Hcall as <- _. exact Ht.
    + injection Hcall as <- _. exact Ht.
Qed.

Lemma startsWith_key (sid s n : jsstring) :
  startsWith (s ++ lit ":" ++ n) sid = false -> s <> sid.
Proof. intros H ->. by rewrite startsWith_app in H. Qed.

Lemma tidy_dispose (sid : jsstring) (st : AcpService) : tidy st -> tidy (dispose sid st).
Proof.
  intros Ht. pose proof Ht as (Tw & Ts & Tp).
  destruct (sessions st !! sid) as [session|] eqn:Hs;
    [|rewrite dispose_unregistered by exact Hs; exact Ht].
  destruct (dispose_registered sid session st Hs) as (_ & Hs' & Hw' & Hp' & Hc' & _).
  assert (Hkeep : forall x, x <> sid -> is_Some (sessions st !! x) ->
                            is_Some (sessions (dispose sid st) !! x)).
  { intros x Hx Hsome. rewrite Hs', lookup_delete_ne by congruence. exact Hsome. }
  split; [|split].
  - intros x. rewrite Hw', elem_of_difference, elem_of_singleton.
    intros [Hx Hne]. apply Hkeep; [exact Hne|apply Tw, Hx].
  - intros x s. rewrite Hs', lookup_delete.
    destruct (decide (sid = x)); [discriminate|apply Ts].
  - intros k e. rewrite Hp', Hc', filter_In. intros [Hin Hpre].
    destruct (Tp k e Hin) as ((x & Hk & Hx) & Hto & Hle).
    split; [|split; assumption]. exists x. split; [exact Hk|].
    apply Hkeep; [|exact Hx]. cbn [fst] in Hpre. apply negb_true_iff in Hpre.
    rewrite Hk in Hpre. eapply startsWith_key, Hpre.
Qed.

Lemma tidy_newSessionFinish (sid : jsstring) (r : settled) (st : AcpService) :
  tidy st -> tidy (fst (newSessionFinish sid r st)).
Proof.
  intros Ht.
  destruct (newSessionFinish_refused sid r st) as [[e Hr]|(result & -> & Hn & Hc)].
  - rewrite Hr. by apply tidy_dispose.
  - rewrite newSessionFinish_value, Hc by exact Hn. cbn [fst].
    eapply tidy_shrinks; [apply shrinks_does|].
    apply tidy_alter; [|exact Ht]. intros s. simpl. repeat split. discriminate.
Qed.

Lemma tidy_insert (sid : jsstring) (s : AcpSession) (st : AcpService) :
  id s = sid -> status s <> exited ->
  killed (process s) = false ->
  tidy st -> tidy (set_sessions (insert sid s) st).
Proof.
  intros Hi Hst Hkl (Tw & Ts & Tp).
  assert (Hsome : forall x, is_Some (sessions st !! x) ->
                            is_Some (<[sid := s]> (sessions st) !! x)).
  { intros x Hx. rewrite lookup_insert. destruct (decide (sid = x)); eauto. }
  split; [|split].
  - intros x Hx. apply Hsome, Tw, Hx.
  - intros x s0. simpl. rewrite lookup_insert.
    destruct (decide (sid = x)) as [->|]; [|apply Ts]. intros [= <-]. auto.
  - intros k e Hin. destruct (Tp k e Hin) as ((x & Hk & Hx) & Ht & Hle).
    split; [|split; assumption]. exists x. split; [exact Hk|]. apply Hsome, Hx.
Qed.

Lemma tidy_setupLogWriter (env : Environment) (sid : jsstring) (st : AcpService) :
  is_Some (sessions st !! sid) -> tidy st -> tidy (setupLogWriter env sid st).
Proof.
  intros Hreg Ht. pose proof Ht as (Tw & Ts & Tp). unfold setupLogWriter.
  destruct (logStreamError env); [exact Ht|].
  split; [|split; assumption].
  intros x. simpl. rewrite elem_of_union, elem_of_singleton.
  intros [Hx| ->]; [apply Tw, Hx|exact Hreg].
Qed.

Lemma tidy_newSessionStart (a : AcpNewSessionArgs) (env : Environment) (st : AcpService) :
  tidy st -> tidy (fst (newSessionStart a env st)).
Proof.
  intros Ht. unfold newSessionStart. cbv zeta.
  destruct (match spawnOverride a with
            | Some spec => Some spec
            | None => getProviderSpawnSpec env (argProviderId a)
            end); [|exact Ht].
  destruct (spawnError env); [exact Ht|].
  set (st0 := wireStdio _ _).
  set (params := match init a with Some _ => _ | None => _ end).
  assert (Hpre : tidy st0).
  { subst st0. unfold wireStdio.
    match goal with
    | |- tidy (match sessions ?s !! _ with Some _ => _ | None => _ end) =>
        assert (Hs : tidy s); [|destruct (sessions s !! _); [|exact Hs];
                                 revert Hs; apply tidy_shrinks; repeat split; apply incl_refl]
    end.
    apply tidy_setupLogWriter.
    - simpl. rewrite lookup_insert_eq. eauto.
    - apply tidy_insert; [reflexivity|discriminate|reflexivity|exact Ht]. }
  pose proof (tidy_rpcCall (sessionIdOf a env) (lit "initialize") params
                (initializeMs env) st0 Hpre) as Hcall.
  destruct (rpcCall _ _ params _ st0) as [st1 [q|msg]]; cbn [fst] in Hcall |- *;
    [exact Hcall|].
  pose proof (tidy_newSessionFinish (sessionIdOf a env) (Rejected msg) st1 Hcall) as Hf.
  destruct (newSessionFinish _ _ st1) as [st2 r]. exact Hf.
Qed.

Lemma tidy_onExit (sid : jsstring) (code : option Z) (signal : option jsstring)
    (st : AcpService) :
  tidy st -> tidy (onExit sid code signal st).
Proof.
  intros (Tw & Ts & Tp). unfold onExit, emitNotification.
  set (stX := does _ (set_sessions _ (does _ (set_sessions _ st)))).
  assert (HsX : forall x, x <> sid -> sessions stX !! x = sessions st !! x).
  { intros x Hx. subst stX. simpl. rewrite !lookup_alter_ne by congruence. reflexivity. }
  assert (HnX : sessions st !! sid = None -> sessions stX !! sid = None).
  { intros Hn. subst stX. simpl. rewrite !lookup_alter_eq, Hn. reflexivity. }
  destruct (sessions stX !! sid) as [session|] eqn:Hs.
  - destruct (dispose_registered sid session stX Hs) as (_ & Hs' & Hw' & Hp' & Hc' & _).
    assert (Hkeep : forall x, x <> sid -> is_Some (sessions st !! x) ->
                              is_Some (sessions (dispose sid stX) !! x)).
    { intros x Hx Hsome. rewrite Hs', lookup_delete_ne, HsX by congruence. exact Hsome. }
    split; [|split].
    + intros x. rewrite Hw', elem_of_difference, elem_of_singleton.
      intros [Hx Hne]. apply Hkeep; [exact Hne|apply Tw, Hx].
    + intros x s. rewrite Hs', lookup_delete.
      destruct (decide (sid = x)) as [->|Hne]; [discriminate|].
      rewrite HsX by congruence. apply Ts.
    + intros k e. rewrite Hp', Hc', filter_In. intros [Hin Hpre].
      destruct (Tp k e Hin) as ((x & Hk & Hx) & Ht & Hle).
      split; [|split; assumption]. exists x. split; [exact Hk|].
      apply Hkeep; [|exact Hx]. cbn [fst] in Hpre. apply negb_true_iff in Hpre.
      rewrite Hk in Hpre. eapply startsWith_key, Hpre.
  - rewrite dispose_unregistered by exact Hs.
    assert (Hn : sessions st !! sid = None).
    { subst stX. simpl in Hs. rewrite !lookup_alter_eq in Hs.
      destruct (sessions st !! sid); [discriminate|reflexivity]. }
    assert (Hsame : forall x, sessions stX !! x = sessions st !! x).
    { intros x. destruct (decide (x = sid)) as [->|Hx]; [by rewrite Hs, Hn|by apply HsX]. }
    split; [|split].
    + intros x Hx. rewrite Hsame. apply Tw, Hx.
    + intros x s. rewrite Hsame. apply Ts.
    + intros k e Hin. destruct (Tp k e Hin) as ((x & Hk & Hx) & Ht & Hle).
      split; [|split; assumption]. exists x. rewrite Hsame. eauto.
Qed.

Lemma tidy_step (e : event) (st : AcpService) : tidy st -> tidy (step e st).
Proof.
  intros Ht.
  destruct e as [|a env|sid r|sid text env|sid werr|sid|sid chunk|sid chunk
                 |sid code signal|sid msg|h|key p msg]; cbn [step].
  - exact Ht.
  - by apply tidy_newSessionStart.
  - by apply tidy_newSessionFinish.
  - unfold promptStart. destruct (sessions st !! sid) as [session|]; [|exact Ht].
    destruct (status session); try exact Ht. by apply tidy_rpcCall.
  - revert Ht. apply tidy_shrinks, cancel_shrinks.
  - by apply tidy_dispose.
  - revert Ht. apply tidy_shrinks, onStdoutData_shrinks.
  - revert Ht. apply tidy_shrinks. unfold onStderrData, emitNotification.
    eapply shrinks_trans; [apply shrinks_writeLog|apply shrinks_does].
  - by apply tidy_onExit.
  - unfold onProcessError, emitError.
    match goal with
    | |- context [errorListeners ?mid] => assert (Hmid : tidy mid)
    end.
    { apply tidy_alter; [intros s; simpl; repeat split; discriminate|].
      eapply tidy_shrinks; [apply shrinks_does|].
      apply tidy_alter; [intros s; simpl; repeat split; auto|exact Ht]. }
    destruct (errorListeners _); cbn [state_of]; [exact Hmid|].
    revert Hmid. apply tidy_shrinks, shrinks_does.
  - revert Ht. apply tidy_shrinks, onTimeout_shrinks.
  - revert Ht. apply tidy_shrinks. unfold onWriteError. apply shrinks_settle.
Qed.

Lemma tidy_run (events : list event) (st : AcpService) : tidy st -> tidy (run events st).
Proof.
  revert st. induction events as [|e events IH]; intros st Ht; [exact Ht|].
  apply IH, tidy_step, Ht.
Qed.

Lemma newService_tidy : tidy newService.
Proof.
  split; [|split].
  - intros sid. unfold newService. simpl. intros H. by apply not_elem_of_empty in H.
  - intros sid s. unfold newService. simpl. by rewrite lookup_empty.
  - intros k e [].
Qed.

End Tidy.

(** ** Every call is accounted for *)

Section Accounted.

Context `{rt : Runtime}.

#[local] Opaque lit dec.

Lemma NoDup_map_inj_In {A B : Type} (g : A -> B) (l : list A) (x y : A) :
  NoDup (List.map g l) -> In x l -> In y l -> g x = g y -> x = y.
Proof.
  induction l as [|a l IH]; simpl; [tauto|].
  intros Hnd. apply NoDup_cons in Hnd as [Hna Hnd]. rewrite list_elem_of_In in Hna.
  intros [->|Hx] [->|Hy] Heq; [reflexivity| | |by apply IH].
  - exfalso. apply Hna. rewrite Heq. by apply in_map.
  - exfalso. apply Hna. rewrite <- Heq. by apply in_map.
Qed.

Lemma NoDup_map_filter {A B : Type} (g : A -> B) (P : A -> bool) (l : list A) :
  NoDup (List.map g l) -> NoDup (List.map g (List.filter P l)).
Proof.
  induction l as [|a l IH]; simpl; [auto|].
  intros Hnd. apply NoDup_cons in Hnd as [Hna Hnd]. rewrite list_elem_of_In in Hna.
  destruct (P a); simpl; [|by apply IH].
  apply NoDup_cons. split; [|by apply IH].
  rewrite list_elem_of_In, in_map_iff. intros (x & Hx & [Hin _]%filter_In).
  apply Hna. rewrite <- Hx. by apply in_map.
Qed.

Lemma settlements_app (a b : list call) :
  settlements (a ++ b) = settlements a ++ settlements b.
Proof. apply flat_map_app. Qed.

Lemma settlements_does (c : call) (st : AcpService) :
  settlements (trace (does c st)) = settlements (trace st) ++ settles c.
Proof. rewrite trace_does, settlements_app. simpl. by rewrite app_nil_r. Qed.

Lemma accounted_ext (st st' : AcpService) :
  requestIdCounter st' = requestIdCounter st ->
  pendingRequests st' = pendingRequests st ->
  timers st' = timers st ->
  settlements (trace st') = settlements (trace st) ->
  accounted st -> accounted st'.
Proof. unfold accounted. intros -> -> -> ->. auto. Qed.

Lemma accounted_does (c : call) (st : AcpService) :
  settles c = [] -> accounted st -> accounted (does c st).
Proof.
  intros Hc. apply accounted_ext; try reflexivity.
  by rewrite settlements_does, Hc, app_nil_r.
Qed.

Lemma accounted_writeLog (sid m : jsstring) (st : AcpService) :
  accounted st -> accounted (writeLog sid m st).
Proof. unfold writeLog. destruct (decide _); [by apply accounted_does|auto]. Qed.

(** Two entries under one key are one entry. *)
Lemma accounted_key (st : AcpService) (k : jsstring) (e1 e2 : PendingCall) :
  accounted st ->
  In (k, e1) (pendingRequests st) -> In (k, e2) (pendingRequests st) -> e1 = e2.
Proof.
  intros (_ & Hnd & _ & _ & Hp & _) H1 H2.
  destruct (Hp k e1 H1) as (_ & _ & (s1 & Hk1) & _).
  destruct (Hp k e2 H2) as (_ & _ & (s2 & Hk2) & _).
  rewrite Hk1 in Hk2. apply reqKey_inj in Hk2 as [_ Heq].
  assert (Hpair : (k, e1) = (k, e2)).
  { apply (NoDup_map_inj_In (fun e => promise (snd e)) (pendingRequests st));
      [exact Hnd|exact H1|exact H2|exact Heq]. }
  congruence.
Qed.

(** Settling the pending calls that [P] selects, clearing their timers. *)
Lemma accounted_settle (P : jsstring * PendingCall -> bool) (f : Timer -> bool)
    (news : list N) (st st' : AcpService) :
  accounted st ->
  requestIdCounter st' = requestIdCounter st ->
  pendingRequests st' = List.filter (fun e => negb (P e)) (pendingRequests st) ->
  timers st' = List.filter f (timers st) ->
  (forall t, In t (timers st) ->
     (f t = false <-> exists e, In e (pendingRequests st) /\ P e = true
                                /\ timeout (snd e) = handle t)) ->
  settlements (trace st') = settlements (trace st) ++ news ->
  NoDup news ->
  (forall q, In q news <-> exists e, In e (pendingRequests st) /\ P e = true
                                     /\ promise (snd e) = q) ->
  accounted st'.
Proof.
  intros (Hs & Hpn & Htn & Hle & Hp & Ht) Hc Hp' Ht' Hf Hs' Hnn Hnews.
  assert (Hsame : forall e1 e2, In e1 (pendingRequests st) -> In e2 (pendingRequests st) ->
                                promise (snd e1) = promise (snd e2) -> e1 = e2).
  { intros e1 e2 H1 H2 Heq.
    exact (NoDup_map_inj_In (fun e => promise (snd e)) _ e1 e2 Hpn H1 H2 Heq). }
  unfold accounted. rewrite Hc, Hp', Ht', Hs'.
  split; [|split; [|split; [|split; [|split]]]].
  - apply NoDup_app. split; [exact Hs|]. split; [|exact Hnn].
    intros q Hq%list_elem_of_In Hn%list_elem_of_In.
    apply Hnews in Hn as ([k e] & Hin & _ & <-).
    by destruct (Hp k e Hin) as (_ & _ & _ & Hun & _).
  - by apply NoDup_map_filter.
  - by apply NoDup_map_filter.
  - intros q [Hq|Hq]%in_app_iff; [by apply Hle|].
    apply Hnews in Hq as ([k e] & Hin & _ & <-).
    by destruct (Hp k e Hin) as (Hb & _).
  - intros k e [Hin HP]%filter_In. apply negb_true_iff in HP.
    destruct (Hp k e Hin) as (Hb & Hto & Hk & Hun & t & Htin & Hh & Hkey).
    split; [exact Hb|]. split; [exact Hto|]. split; [exact Hk|]. split.
    + rewrite in_app_iff. intros [Hq|Hq]; [contradiction|].
      apply Hnews in Hq as (e2 & Hin2 & HP2 & Heq).
      rewrite (Hsame e2 (k, e) Hin2 Hin Heq) in HP2. congruence.
    + exists t. split; [|auto]. apply filter_In. split; [exact Htin|].
      destruct (f t) eqn:Hft; [reflexivity|].
      apply (Hf t Htin) in Hft as ([k2 e2] & Hin2 & HP2 & Heq). cbn [snd] in Heq.
      destruct (Hp k2 e2 Hin2) as (_ & Hto2 & _).
      assert (Hpe : (k2, e2) = (k, e)) by (apply Hsame; simpl; congruence).
      rewrite Hpe in HP2. congruence.
  - intros t [Htin Hft]%filter_In. destruct (Ht t Htin) as (Htp & Hin).
    split; [exact Htp|]. apply filter_In. split; [exact Hin|].
    apply negb_true_iff. destruct (P _) eqn:HP; [|reflexivity].
    assert (Hfalse : f t = false).
    { apply (Hf t Htin). eexists. split; [exact Hin|]. split; [exact HP|reflexivity]. }
    congruence.
Qed.

(** Settling one pending call. *)
Lemma accounted_settle_one (k : jsstring) (e : PendingCall) (st st' : AcpService) :
  accounted st ->
  In (k, e) (pendingRequests st) ->
  requestIdCounter st' = requestIdCounter st ->
  pendingRequests st' = PendingMap.delete k (pendingRequests st) ->
  timers st' = List.filter (fun t => negb (handle t =? promise e)) (timers st) ->
  settlements (trace st') = settlements (trace st) ++ [promise e] ->
  accounted st'.
Proof.
  intros Ha Hin Hc Hp Ht Hs.
  assert (Hto : timeout e = promise e).
  { destruct Ha as (_ & _ & _ & _ & Hpend & _). by destruct (Hpend k e Hin) as (_ & ? & _). }
  apply (accounted_settle (fun x => bool_decide (fst x = k))
           (fun t => negb (handle t =? promise e)) [promise e] st st' Ha Hc Hp Ht).
  - intros t Htin. rewrite negb_false_iff, N.eqb_eq. split.
    + intros Hh. exists (k, e). split; [exact Hin|].
      split; [by apply bool_decide_eq_true|]. simpl. congruence.
    + intros ([k2 e2] & Hin2 & Hk2%bool_decide_eq_true & Heq). simpl in Hk2, Heq. subst k2.
      pose proof (accounted_key st k e e2 Ha Hin Hin2) as <-. congruence.
  - exact Hs.
  - apply NoDup_singleton.
  - intros q. simpl. split.
    + intros [<-|[]]. exists (k, e). split; [exact Hin|].
      split; [by apply bool_decide_eq_true|reflexivity].
    + intros ([k2 e2] & Hin2 & Hk2%bool_decide_eq_true & Heq). simpl in Hk2, Heq. subst k2.
      left. pose proof (accounted_key st k e e2 Ha Hin Hin2) as <-. exact Heq.
Qed.

Lemma accounted_handleMessage (sid : jsstring) (msg : json) (st : AcpService) :
  accounted st -> accounted (state_of (handleMessage sid msg st)).
Proof.
  intros Ha. unfold handleMessage.
  destruct (responseTest msg) as [[|]|]; [| |exact Ha].
  - destruct (PendingMap.get _ _) as [e|] eqn:Hg; [|exact Ha].
    apply get_Some_In in Hg.
    assert (Hto : timeout e = promise e).
    { destruct Ha as (_ & _ & _ & _ & Hpend & _). by destruct (Hpend _ e Hg) as (_ & ? & _). }
    destruct (truthy _); cbn [state_of];
      (eapply (accounted_settle_one _ e st);
       [exact Ha|exact Hg|reflexivity|reflexivity|simpl; rewrite Hto; reflexivity|]);
      simpl; rewrite !settlements_app; simpl; rewrite app_nil_r; reflexivity.
  - destruct (notificationTest msg) as [[|]|]; try exact Ha.
    cbn [state_of]. by apply accounted_does, accounted_writeLog.
Qed.

Lemma accounted_onStdoutData (sid : jsstring) (chunk : Utf8.buffer) (st : AcpService) :
  accounted st -> accounted (state_of (onStdoutData sid chunk st)).
Proof.
  intros Ha. unfold onStdoutData. destruct (frame _ chunk) as [lines b].
  apply (processLines_preserves accounted sid).
  - intros c st0. apply accounted_does.
  - intros msg st0. apply accounted_handleMessage.
  - exact Ha.
Qed.

Lemma accounted_onTimeout (h : N) (st : AcpService) :
  accounted st -> accounted (onTimeout h st).
Proof.
  intros Ha. unfold onTimeout.
  destruct (List.find _ (timers st)) as [t|] eqn:Hf; [|exact Ha].
  apply find_some in Hf as [Htin Hh]. apply N.eqb_eq in Hh.
  pose proof Ha as (_ & _ & _ & _ & _ & Ht). destruct (Ht t Htin) as (Htp & Hin).
  eapply (accounted_settle_one (timerKey t) (mkPending (handle t) (handle t)) st);
    [exact Ha|exact Hin|reflexivity|reflexivity| |].
  - simpl. rewrite Hh. reflexivity.
  - rewrite settlements_does. simpl. by rewrite Htp.
Qed.

(** The timers [dispose] leaves armed. *)
Lemma disposeLoop_timers (sid : jsstring) (es : list (jsstring * PendingCall))
    (st : AcpService) :
  timers (fold_left (fun st e => disposePending sid e st) es st)
  = List.filter
      (fun t => negb (existsb (fun e => startsWith (fst e) sid
                                        && (handle t =? timeout (snd e))) es))
      (timers st).
Proof.
  revert st. induction es as [|e es IH]; intros st; cbn [fold_left existsb].
  - induction (timers st) as [|t ts IHt]; [reflexivity|]. simpl. by f_equal.
  - rewrite IH.
    destruct (disposePending_fields sid e st) as (_ & _ & _ & _ & _ & _ & _ & ->).
    destruct (startsWith (fst e) sid); cbn [andb orb]; [|reflexivity].
    induction (timers st) as [|t ts IHt]; [reflexivity|]. simpl.
    destruct (handle t =? timeout (snd e)); simpl; [exact IHt|].
    destruct (existsb _ es); simpl; [exact IHt|by rewrite IHt].
Qed.

Lemma dispose_timers_eq (sid : jsstring) (session : AcpSession) (st : AcpService) :
  sessions st !! sid = Some session ->
  timers (dispose sid st)
  = List.filter
      (fun t => negb (existsb (fun e => startsWith (fst e) sid
                                        && (handle t =? timeout (snd e)))
                        (pendingRequests st)))
      (timers st).
Proof.
  intros Hs. unfold dispose. rewrite Hs. cbv zeta.
  set (st1 := if negb (killed (process session)) then kill sid session st else st).
  assert (H1 : pendingRequests st1 = pendingRequests st /\ timers st1 = timers st).
  { subst st1. unfold kill.
    destruct (negb (killed (process session))), (running (process session)); by split. }
  destruct H1 as [Hp1 Ht1].
  destruct (decide _); cbn [timers does set_sessions set_writers];
    rewrite disposeLoop_timers, Hp1, Ht1; reflexivity.
Qed.

Lemma settlements_disposeCalls (sid : jsstring) (es : list (jsstring * PendingCall)) :
  settlements (flat_map (disposeCalls sid) es)
  = List.map (fun e => promise (snd e)) (List.filter (fun e => startsWith (fst e) sid) es).
Proof.
  induction es as [|e es IH]; [reflexivity|].
  cbn [flat_map List.filter]. rewrite settlements_app, IH.
  unfold disposeCalls. destruct (startsWith (fst e) sid); reflexivity.
Qed.

Lemma accounted_dispose (sid : jsstring) (st : AcpService) :
  accounted st -> accounted (dispose sid st).
Proof.
  intros Ha.
  destruct (sessions st !! sid) as [session|] eqn:Hs;
    [|by rewrite dispose_unregistered].
  destruct (dispose_registered sid session st Hs) as (Htr & _ & _ & Hp & Hc & _).
  pose proof Ha as (_ & Hnd & _).
  apply (accounted_settle (fun e => startsWith (fst e) sid) _
           (List.map (fun e => promise (snd e))
              (List.filter (fun e => startsWith (fst e) sid) (pendingRequests st)))
           st _ Ha Hc Hp (dispose_timers_eq sid session st Hs)).
  - intros t Htin. rewrite negb_false_iff, existsb_exists. split.
    + intros (e & Hin & [HP Hh%N.eqb_eq]%andb_prop). eauto.
    + intros (e & Hin & HP & Hh). exists e. split; [exact Hin|].
      rewrite HP. simpl. apply N.eqb_eq. congruence.
  - rewrite Htr, !settlements_app, settlements_disposeCalls.
    replace (settlements (killCalls sid session)) with ([] : list N)
      by (unfold killCalls; destruct (_ && _); reflexivity).
    replace (settlements (if decide (sid ∈ logWriters st) then [WriterEnd sid] else []))
      with ([] : list N) by (destruct (decide _); reflexivity).
    simpl. by rewrite app_nil_r.
  - by apply NoDup_map_filter.
  - intros q. rewrite in_map_iff. split.
    + intros (e & <- & [Hin HP]%filter_In). eauto.
    + intros (e & Hin & HP & <-). exists e. split; [reflexivity|]. by apply filter_In.
Qed.

Lemma set_absent (k : jsstring) (v : PendingCall) (m : list (jsstring * PendingCall)) :
  PendingMap.get k m = None -> PendingMap.set k v m = m ++ [(k, v)].
Proof.
  induction m as [|[k0 w] m IH]; simpl; [reflexivity|].
  destruct (decide (k0 = k)); [discriminate|]. intros H. by rewrite IH.
Qed.

Lemma rpcCall_settlements (sid method : jsstring) (params : json) (ms : N)
    (st : AcpService) :
  settlements (trace (fst (rpcCall sid method params ms st))) = settlements (trace st).
Proof.
  unfold rpcCall. destruct (sessions st !! sid) as [session|]; [|reflexivity].
  destruct (negb (stdin (process session))); [reflexivity|].
  cbn [fst]. unfold writeLog. destruct (decide _); simpl;
    rewrite !settlements_app; simpl; by rewrite !app_nil_r.
Qed.

Lemma accounted_rpcCall (sid method : jsstring) (params : json) (ms : N)
    (st : AcpService) :
  accounted st -> accounted (fst (rpcCall sid method params ms st)).
Proof.
  intros Ha.
  pose proof (rpcCall_settlements sid method params ms st) as Hs.
  destruct (rpcCall sid method params ms st) as [st1 [p|m]] eqn:Hcall; cbn [fst] in *.
  - destruct (rpcCall_registers _ _ _ _ _ _ _ Hcall) as (Hp & Hc & Hpend & Ht & _).
    destruct Ha as (Hsn & Hpn & Htn & Hle & Hpe & Hti).
    assert (Habs : PendingMap.get (sid ++ lit ":" ++ dec p) (pendingRequests st) = None).
    { destruct (PendingMap.get _ _) as [e|] eqn:Hg; [|reflexivity].
      apply get_Some_In in Hg. destruct (Hpe _ e Hg) as (Hb & _ & (s & Hk) & _).
      apply reqKey_inj in Hk as [_ Hk]. lia. }
    rewrite set_absent in Hpend by exact Habs.
    unfold accounted. rewrite Hs, Hpend, Ht, Hc, !List.map_app. cbn [List.map snd promise handle].
    split; [exact Hsn|]. split; [|split; [|split; [|split]]].
    + apply NoDup_app. split; [exact Hpn|]. split; [|apply NoDup_singleton].
      intros q Hq%list_elem_of_In Hn%list_elem_of_In. destruct Hn as [<-|[]].
      apply in_map_iff in Hq as ([k e] & Heq & Hin). simpl in Heq.
      destruct (Hpe k e Hin) as (Hb & _). lia.
    + apply NoDup_app. split; [exact Htn|]. split; [|apply NoDup_singleton].
      intros q Hq%list_elem_of_In Hn%list_elem_of_In. destruct Hn as [<-|[]].
      apply in_map_iff in Hq as (t & Heq & Hin).
      destruct (Hti t Hin) as (_ & Hin2). destruct (Hpe _ _ Hin2) as (Hb & _).
      simpl in Hb. lia.
    + intros q Hq. apply Hle in Hq. lia.
    + intros k e [Hin|[[= <- <-]|[]]]%in_app_iff.
      * destruct (Hpe k e Hin) as (Hb & Hto & Hk & Hun & t & Htin & Hh & Hkey).
        split; [lia|]. split; [exact Hto|]. split; [exact Hk|]. split; [exact Hun|].
        exists t. rewrite in_app_iff. auto.
      * simpl. split; [lia|]. split; [reflexivity|]. split; [eauto|]. split.
        -- intros Hq%Hle. lia.
        -- eexists. rewrite in_app_iff. split; [right; left; reflexivity|]. split; reflexivity.
    + intros t [Hin|[<-|[]]]%in_app_iff.
      * destruct (Hti t Hin) as (Htp & Hin2). split; [exact Htp|].
        rewrite in_app_iff. auto.
      * simpl. split; [reflexivity|]. rewrite in_app_iff. right. by left.
  - unfold rpcCall in Hcall. destruct (sessions st !! sid) as [session|].
    + destruct (negb (stdin (process session))); [|discriminate].
      by injection Hcall as <- _.
    + by injection Hcall as <- _.
Qed.

Lemma accounted_newSessionFinish (sid : jsstring) (r : settled) (st : AcpService) :
  accounted st -> accounted (fst (newSessionFinish sid r st)).
Proof.
  intros Ha.
  destruct (newSessionFinish_refused sid r st) as [[e Hr]|(result & -> & Hn & Hc)].
  - rewrite Hr. by apply accounted_dispose.
  - rewrite newSessionFinish_value, Hc by exact Hn. cbn [fst].
    by apply accounted_does.
Qed.

Lemma accounted_step (e : event) (st : AcpService) :
  match e with WriteFailed _ _ _ => False | _ => True end ->
  accounted st -> accounted (step e st).
Proof.
  intros He Ha.
  destruct e as [|a env|sid r|sid text env|sid werr|sid|sid chunk|sid chunk
                 |sid code signal|sid msg|h|key p msg]; cbn [step]; [| | | | | | | | | | |tauto].
  - exact Ha.
  - unfold newSessionStart. cbv zeta.
    destruct (match spawnOverride a with
              | Some spec => Some spec
              | None => getProviderSpawnSpec env (argProviderId a)
              end); [|exact Ha].
    destruct (spawnError env); [exact Ha|].
    set (st0 := wireStdio _ _).
    set (params := match init a with Some _ => _ | None => _ end).
    assert (Hpre : accounted st0).
    { subst st0. unfold wireStdio, setupLogWriter.
      destruct (logStreamError env);
        match goal with
        | |- accounted (match ?x with Some _ => _ | None => _ end) => destruct x
        end;
        (revert Ha; apply accounted_ext; try reflexivity;
         simpl; rewrite ?settlements_app; simpl; by rewrite ?app_nil_r). }
    pose proof (accounted_rpcCall (sessionIdOf a env) (lit "initialize") params
                  (initializeMs env) st0 Hpre) as Hcall.
    destruct (rpcCall _ _ params _ st0) as [st1 [q|msg]]; cbn [fst] in Hcall |- *;
      [exact Hcall|].
    pose proof (accounted_newSessionFinish (sessionIdOf a env) (Rejected msg) st1 Hcall) as Hf.
    destruct (newSessionFinish _ _ st1) as [st2 r]. exact Hf.
  - by apply accounted_newSessionFinish.
  - unfold promptStart. destruct (sessions st !! sid) as [session|]; [|exact Ha].
    destruct (status session); try exact Ha. by apply accounted_rpcCall.
  - unfold cancel, rpcNotify. destruct (sessions st !! sid) as [session|]; [|exact Ha].
    destruct (negb (stdin (process session))); [exact Ha|].
    destruct werr; cbn [fst]; by apply accounted_writeLog, accounted_does.
  - by apply accounted_dispose.
  - by apply accounted_onStdoutData.
  - unfold onStderrData, emitNotification. by apply accounted_does, accounted_writeLog.
  - unfold onExit, emitNotification. apply accounted_dispose.
    revert Ha. apply accounted_ext; try reflexivity.
    simpl. rewrite !settlements_app. simpl. by rewrite !app_nil_r.
  - unfold onProcessError, emitError.
    destruct (errorListeners _); cbn [state_of];
      (revert Ha; apply accounted_ext; try reflexivity;
       simpl; rewrite ?settlements_app; simpl; by rewrite ?app_nil_r).
  - by apply accounted_onTimeout.
Qed.

Lemma accounted_run (events : list event) (st : AcpService) :
  writesSucceed events -> accounted st -> accounted (run events st).
Proof.
  revert st. induction events as [|e events IH]; intros st Hw Ha; [exact Ha|].
  apply Forall_cons in Hw as [He Hw]. apply IH; [exact Hw|]. by apply accounted_step.
Qed.

Lemma newService_accounted : accounted newService.
Proof.
  unfold accounted, newService. simpl.
  repeat split; try constructor; intros; contradiction.
Qed.

End Accounted.

(** ** The registry of a running service *)

Section Registry.

Context `{rt : Runtime}.

#[local] Opaque lit dec.

Lemma run_tidy (events : list event) : tidy (run events newService).
Proof. apply tidy_run, newService_tidy. Qed.

(** X4. No log writer outlives its session. In every state a service
    can reach, a log writer is open only for a registered session; for an
    id that is not registered [writeLog] writes nothing, and a notification
    (with a string for its [method]) that still arrives on the stdout of
    such a session is emitted to the subscribers without any log line. *)
Theorem log_writers_belong_to_registered_sessions (history : list event) (sid : jsstring) :
  let st := run history newService in
  (sid ∈ logWriters st -> is_Some (getSession sid st))
  /\ (getSession sid st = None ->
      (forall m, writeLog sid m st = st)
      /\ forall msg,
           responseTest msg = Some false ->
           notificationTest msg = Some true ->
           (exists method, prop (lit "method") msg = Some (JStr method)) ->
           handleMessage sid msg st = Normal (does (EmitNotification sid (Notification msg)) st)).
Proof.
  intros st. destruct (run_tidy history) as (Tw & _). fold st in Tw.
  split; [apply Tw|]. intros Hn.
  assert (Hw : forall m, writeLog sid m st = st).
  { intros m. unfold writeLog. destruct (decide (sid ∈ logWriters st)) as [Hin|]; [|reflexivity].
    apply Tw in Hin as [s Hs]. unfold getSession in Hn. congruence. }
  split; [exact Hw|]. intros msg Hr Hnt _.
  unfold handleMessage. rewrite Hr, Hnt, Hw. reflexivity.
Qed.

Lemma disposeCalls_no_kill (sid x : jsstring) (es : list (jsstring * PendingCall)) :
  ~ In (Kill x) (flat_map (disposeCalls sid) es).
Proof.
  intros (e & _ & Hin)%in_flat_map. unfold disposeCalls in Hin.
  destruct (startsWith _ _); simpl in Hin; intuition discriminate.
Qed.

(** X5. A registered session was never signalled. In every state a
    service can reach, the session [getSession] returns for an id is filed
    under that very id, its status is never ['exited'], its process has
    its stdin pipe and its [killed] flag is unset; so [dispose] on it calls
    [kill], which delivers the signal exactly when the process is running
    (after a spawn that failed there is no process to signal), and in
    either case leaves the id unregistered. *)
Theorem registered_sessions_were_not_signalled (history : list event) (sid : jsstring)
    (s : AcpSession) :
  let st := run history newService in
  getSession sid st = Some s ->
  id s = sid
  /\ status s <> exited
  /\ stdin (process s) = true
  /\ killed (process s) = false
  /\ (exists new,
        trace (dispose sid st) = trace st ++ new
        /\ (In (Kill sid) new <-> running (process s) = true))
  /\ getSession sid (dispose sid st) = None.
Proof.
  intros st Hs. destruct (run_tidy history) as (_ & Ts & _). fold st in Ts.
  destruct (Ts sid s Hs) as (Hi & Hst & Hk).
  split; [exact Hi|]. split; [exact Hst|]. split.
  { assert (Hp : piped st) by apply run_piped, newService_piped. eapply Hp, Hs. }
  split; [exact Hk|]. split; [|apply dispose_unregisters].
  destruct (dispose_registered sid s st Hs) as (-> & _).
  eexists. split; [reflexivity|].
  unfold killCalls. rewrite Hk. cbn [negb andb].
  rewrite !in_app_iff. split.
  - intros [H|[H|[H|H]]].
    + destruct (running (process s)); [reflexivity|destruct H].
    + by apply disposeCalls_no_kill in H.
    + destruct (decide _); simpl in H; intuition discriminate.
    + simpl in H. intuition discriminate.
  - intros ->. left. by left.
Qed.

(** X6. No call outlives its session. In every state a service can
    reach, each entry of [pendingRequests] is keyed by the id of a
    registered session and the id of its call, and its timeout handle is
    that of the call; so no call is pending for an id that is not
    registered, in particular after [dispose] or after the process has
    exited. *)
Theorem pending_calls_belong_to_registered_sessions (history : list event) :
  let st := run history newService in
  (forall k e,
     In (k, e) (pendingRequests st) ->
     exists sid,
       k = sid ++ lit ":" ++ dec (promise e)
       /\ is_Some (getSession sid st)
       /\ timeout e = promise e
       /\ promise e <= requestIdCounter st)
  /\ (forall sid n,
        getSession sid st = None ->
        PendingMap.get (sid ++ lit ":" ++ dec n) (pendingRequests st) = None)
  /\ (forall sid n code signal,
        PendingMap.get (sid ++ lit ":" ++ dec n)
          (pendingRequests (onExit sid code signal st)) = None
        /\ PendingMap.get (sid ++ lit ":" ++ dec n) (pendingRequests (dispose sid st)) = None).
Proof.
  intros st.
  assert (Hgone : forall st0 sid n, tidy st0 -> getSession sid st0 = None ->
            PendingMap.get (sid ++ lit ":" ++ dec n) (pendingRequests st0) = None).
  { intros st0 sid n (_ & _ & Tp) Hn.
    destruct (PendingMap.get _ _) as [e|] eqn:Hg; [|reflexivity].
    apply get_Some_In in Hg. destruct (Tp _ e Hg) as ((x & Hk & [s Hx]) & _).
    apply reqKey_inj in Hk as [-> _]. unfold getSession in Hn. congruence. }
  pose proof (run_tidy history) as Ht. fold st in Ht.
  split; [|split].
  - intros k e Hin. destruct Ht as (_ & _ & Tp).
    destruct (Tp k e Hin) as ((x & Hk & Hx) & Hto & Hle). eauto.
  - intros sid n. by apply Hgone.
  - intros sid n code signal. split.
    + apply Hgone; [by apply tidy_onExit|]. apply dispose_unregisters.
    + apply Hgone; [by apply tidy_dispose|]. apply dispose_unregisters.
Qed.

End Registry.

Lemma registered_sessions_were_not_signalled_witness :
  let st := run (rt := Reference.runtime)
              [ErrorListenerAdded; NewSessionCalled Demo.args Demo.env;
               ProcessFailed Demo.sid (lit "spawn gemini ENOENT") false] newService in
  status <$> getSession Demo.sid st = Some error
  /\ (exists new,
        trace (dispose Demo.sid st) = trace st ++ new /\ ~ In (Kill Demo.sid) new)
  /\ getSession Demo.sid (dispose Demo.sid st) = None.
Proof.
  destruct (registered_sessions_were_not_signalled (rt := Reference.runtime)
              [ErrorListenerAdded; NewSessionCalled Demo.args Demo.env;
               ProcessFailed Demo.sid (lit "spawn gemini ENOENT") false] Demo.sid
              (mkSession Demo.sid (lit "gemini") (lit "app") (lit "/tmp")
                 (mkProcess true false false) error None None))
    as (_ & _ & _ & _ & (new & Hnew & Hkill) & Hgone).
  - vm_compute. reflexivity.
  - split; [vm_compute; reflexivity|]. split; [|exact Hgone].
    exists new. split; [exact Hnew|]. intros Hin. apply Hkill in Hin. discriminate Hin.
Defined.

Lemma log_writers_belong_to_registered_sessions_witness :
  let st := run (rt := Reference.runtime) (Demo.history ++ [DisposeCalled Demo.sid])
              newService in
  (forall m, writeLog Demo.sid m st = st)
  /\ handleMessage (rt := Reference.runtime) Demo.sid Demo.progress st
     = Normal (does (EmitNotification Demo.sid (Notification Demo.progress)) st).
Proof.
  destruct (proj2 (log_writers_belong_to_registered_sessions (rt := Reference.runtime)
                     (Demo.history ++ [DisposeCalled Demo.sid]) Demo.sid))
    as [Ha Hb].
  - vm_compute. reflexivity.
  - split; [exact Ha|]. apply Hb; [vm_compute; reflexivity..|].
    exists (lit "progress"). vm_compute. reflexivity.
Defined.

Lemma pending_calls_belong_to_registered_sessions_witness :
  let st := run (rt := Reference.runtime)
              (Demo.history ++ [PromptCalled Demo.sid (lit "hello") Demo.env]) newService in
  exists sid,
    Demo.sid ++ lit ":" ++ dec 2 = sid ++ lit ":" ++ dec (promise (mkPending 2 2))
    /\ is_Some (getSession sid st)
    /\ timeout (mkPending 2 2) = promise (mkPending 2 2)
    /\ promise (mkPending 2 2) <= requestIdCounter st.
Proof.
  apply (proj1 (pending_calls_belong_to_registered_sessions (rt := Reference.runtime)
                  (Demo.history ++ [PromptCalled Demo.sid (lit "hello") Demo.env]))).
  vm_compute. left. reflexivity.
Defined.

(** ** Calls, timers and settlements *)

Section Calls.

Context `{rt : Runtime}.

#[local] Opaque lit dec.

Lemma run_accounted (events : list event) :
  writesSucceed events -> accounted (run events newService).
Proof. intros Hw. apply accounted_run; [exact Hw|apply newService_accounted]. Qed.

Lemma In_get (k : jsstring) (e : PendingCall) (m : list (jsstring * PendingCall)) :
  In (k, e) m -> exists e', PendingMap.get k m = Some e'.
Proof.
  induction m as [|[k0 w] m IH]; simpl; [tauto|].
  destruct (decide (k0 = k)); [eauto|]. intros [[= -> ->]|Hin]; [contradiction|auto].
Qed.

Lemma accounted_get (st : AcpService) (k : jsstring) (e : PendingCall) :
  accounted st -> In (k, e) (pendingRequests st) ->
  PendingMap.get k (pendingRequests st) = Some e.
Proof.
  intros Ha Hin. destruct (In_get k e _ Hin) as [e' Hg]. rewrite Hg. f_equal.
  apply get_Some_In in Hg. exact (accounted_key st k e' e Ha Hg Hin).
Qed.

Lemma find_handle (t : Timer) (ts : list Timer) :
  NoDup (List.map handle ts) -> In t ts ->
  List.find (fun t' => handle t' =? handle t) ts = Some t.
Proof.
  induction ts as [|t0 ts IH]; simpl; [tauto|].
  intros [Hn Hnd]%NoDup_cons. rewrite list_elem_of_In in Hn.
  intros [->|Hin]; [by rewrite N.eqb_refl|].
  destruct (N.eqb_spec (handle t0) (handle t)) as [Heq|_]; [|by apply IH].
  exfalso. apply Hn. rewrite Heq. by apply in_map.
Qed.

(** X7. Calls and timers correspond. As long as no write to a stdin pipe
    fails, in every state a service can reach each pending call has its
    own timer armed and each armed timer belongs to a call that is still
    pending: a call that nothing else settles ends at its timeout, and a
    timer that fires finds its call, rejects it with the timeout error and
    removes it. *)
Theorem pending_calls_and_armed_timers_correspond (history : list event) :
  writesSucceed history ->
  let st := run history newService in
  (forall k e,
     In (k, e) (pendingRequests st) ->
     exists t, In t (timers st) /\ handle t = timeout e /\ timerKey t = k
               /\ timerPromise t = promise e)
  /\ (forall t,
        In t (timers st) ->
        PendingMap.get (timerKey t) (pendingRequests st)
        = Some (mkPending (timerPromise t) (handle t))
        /\ let st' := onTimeout (handle t) st in
           trace st' = trace st
                       ++ [Reject (timerPromise t)
                             (lit "Request " ++ timerMethod t ++ lit " timed out after "
                              ++ dec (timerMs t) ++ lit "ms")]
           /\ PendingMap.get (timerKey t) (pendingRequests st') = None
           /\ ~ In t (timers st'))
  /\ NoDup (List.map handle (timers st))
  /\ NoDup (List.map fst (pendingRequests st)).
Proof.
  intros Hw st. pose proof (run_accounted history Hw) as Ha. fold st in Ha.
  pose proof Ha as (_ & Hpn & Htn & _ & Hp & Ht).
  split; [|split; [|split]].
  - intros k e Hin. destruct (Hp k e Hin) as (_ & Hto & _ & _ & t & Htin & Hh & Hk).
    destruct (Ht t Htin) as (Htp & _). exists t. repeat split; congruence.
  - intros t Htin. destruct (Ht t Htin) as (Htp & Hin). split.
    + rewrite Htp. by apply accounted_get.
    + intros st'. subst st'.
      rewrite (onTimeout_fires (handle t) t st) by (by apply find_handle).
      split; [reflexivity|]. split; [simpl; apply get_delete_eq|].
      simpl. rewrite filter_In, N.eqb_refl. simpl. intros [_ H]. discriminate.
  - exact Htn.
  - clear -Hpn Hp. induction (pendingRequests st) as [|[k e] m IH]; [constructor|].
    cbn [List.map fst snd] in *. apply NoDup_cons in Hpn as [Hn Hnd].
    apply NoDup_cons. split.
    + rewrite list_elem_of_In in Hn. rewrite list_elem_of_In.
      intros ([k2 e2] & Hk & Hin)%in_map_iff. simpl in Hk.
      subst k2. apply Hn. apply in_map_iff. exists (k, e2). split; [|exact Hin]. simpl.
      destruct (Hp k e (or_introl eq_refl)) as (_ & _ & (s1 & H1) & _).
      destruct (Hp k e2 (or_intror Hin)) as (_ & _ & (s2 & H2) & _).
      rewrite H1 in H2. apply reqKey_inj in H2 as [_ H2]. congruence.
    + apply IH; [exact Hnd|]. intros k0 e0 Hin. apply Hp. by right.
Qed.

(** X8. No promise is settled twice. As long as no write to a stdin
    pipe fails, whatever the order in which responses, timeouts, disposals
    and exits arrive, the service calls [resolve] or [reject] at most once
    for each call; a call that is still pending has not been settled, and
    every settled promise belongs to a call that was made. *)
Theorem no_promise_is_settled_twice (history : list event) :
  writesSucceed history ->
  let st := run history newService in
  NoDup (settlements (trace st))
  /\ (forall k e, In (k, e) (pendingRequests st) ->
                  ~ In (promise e) (settlements (trace st)))
  /\ (forall p, In p (settlements (trace st)) -> p <= requestIdCounter st).
Proof.
  intros Hw st. pose proof (run_accounted history Hw) as Ha. fold st in Ha.
  destruct Ha as (Hs & _ & _ & Hle & Hp & _).
  split; [exact Hs|]. split; [|exact Hle].
  intros k e Hin. by destruct (Hp k e Hin) as (_ & _ & _ & Hun & _).
Qed.

End Calls.

Lemma pending_calls_and_armed_timers_correspond_witness :
  let st := run (rt := Reference.runtime)
              (Demo.history ++ [PromptCalled Demo.sid (lit "hello") Demo.env]) newService in
  (forall k e,
     In (k, e) (pendingRequests st) ->
     exists t, In t (timers st) /\ handle t = timeout e /\ timerKey t = k
               /\ timerPromise t = promise e)
  /\ (forall t,
        In t (timers st) ->
        PendingMap.get (timerKey t) (pendingRequests st)
        = Some (mkPending (timerPromise t) (handle t))
        /\ let st' := onTimeout (handle t) st in
           trace st' = trace st
                       ++ [Reject (timerPromise t)
                             (lit "Request " ++ timerMethod t ++ lit " timed out after "
                              ++ dec (timerMs t) ++ lit "ms")]
           /\ PendingMap.get (timerKey t) (pendingRequests st') = None
           /\ ~ In t (timers st'))
  /\ NoDup (List.map handle (timers st))
  /\ NoDup (List.map fst (pendingRequests st)).
Proof.
  apply (pending_calls_and_armed_timers_correspond (rt := Reference.runtime)
           (Demo.history ++ [PromptCalled Demo.sid (lit "hello") Demo.env])).
  repeat constructor.
Defined.

Lemma no_promise_is_settled_twice_witness :
  let st := run (rt := Reference.runtime)
              (Demo.history
               ++ [PromptCalled Demo.sid (lit "hello") Demo.env; TimerFired 2]
               ++ Demo.later ++ [DisposeCalled Demo.sid]) newService in
  NoDup (settlements (trace st))
  /\ (forall k e, In (k, e) (pendingRequests st) ->
                  ~ In (promise e) (settlements (trace st)))
  /\ (forall p, In p (settlements (trace st)) -> p <= requestIdCounter st).
Proof.
  apply (no_promise_is_settled_twice (rt := Reference.runtime)
           (Demo.history
            ++ [PromptCalled Demo.sid (lit "hello") Demo.env; TimerFired 2]
            ++ Demo.later ++ [DisposeCalled Demo.sid])).
  repeat constructor.
Defined.

(** ** A call and its response *)

Section Responses.

Context `{rt : Runtime}.

#[local] Opaque lit dec.

Lemma delete_absent (k : jsstring) (m : list (jsstring * PendingCall)) :
  PendingMap.get k m = None -> PendingMap.delete k m = m.
Proof.
  unfold PendingMap.delete. induction m as [|[k0 w] m IH]; simpl; [reflexivity|].
  destruct (decide (k0 = k)) as [|Hne]; [discriminate|]. intros Hg.
  rewrite bool_decide_eq_false_2 by exact Hne. simpl. by rewrite IH.
Qed.

Lemma delete_set_absent (k : jsstring) (v : PendingCall)
    (m : list (jsstring * PendingCall)) :
  PendingMap.get k m = None -> PendingMap.delete k (PendingMap.set k v m) = m.
Proof.
  intros Hg. rewrite set_absent by exact Hg. unfold PendingMap.delete.
  rewrite List.filter_app. simpl. rewrite bool_decide_eq_true_2 by reflexivity. simpl.
  rewrite app_nil_r. by apply delete_absent.
Qed.

(** In a state a service can reach, the key of the next call is free. *)
Lemma next_key_is_free (history : list event) (sid : jsstring) :
  let st := run history newService in
  PendingMap.get (sid ++ lit ":" ++ dec (requestIdCounter st + 1)) (pendingRequests st)
  = None.
Proof.
  intros st. apply get_None_keys.
  destruct (run_evolves history newService) as (_ & Hk & _). fold st in Hk.
  intros [[]|(s & n & Heq & Hn)]%Hk. apply reqKey_inj in Heq as [_ <-]. lia.
Qed.

(** What a successful [rpcCall] made in such a state leaves for the
    events that follow. *)
Lemma call_made (history : list event) (sid method : jsstring) (params : json)
    (ms p : N) (st1 : AcpService) :
  let st := run history newService in
  rpcCall sid method params ms st = (st1, inl p) ->
  p = requestIdCounter st + 1
  /\ requestIdCounter st1 = p
  /\ PendingMap.get (sid ++ lit ":" ++ dec p) (pendingRequests st1) = Some (mkPending p p)
  /\ PendingMap.delete (sid ++ lit ":" ++ dec p) (pendingRequests st1) = pendingRequests st
  /\ timers st1 = timers st ++ [mkTimer p (sid ++ lit ":" ++ dec p) p method ms]
  /\ List.filter (fun t => negb (handle t =? p)) (timers st1) = timers st
  /\ Forall (fun t => handle t <> p) (timers st)
  /\ is_Some (sessions st1 !! sid).
Proof.
  intros st Hcall.
  destruct (rpcCall_registers _ _ _ _ _ _ _ Hcall) as (Hp & Hc & Hpend & Ht & Hs & _).
  pose proof (next_key_is_free history sid) as Hfree. cbv zeta in Hfree.
  fold st in Hfree. rewrite <- Hp in Hfree.
  assert (Hother : Forall (fun t => handle t <> p) (timers st)).
  { eapply Forall_impl; [apply (run_allocated history)|]. fold st. intros t Hle.
    simpl in *. lia. }
  destruct (find_fresh_timer (mkTimer p (sid ++ lit ":" ++ dec p) p method ms)
              (timers st) Hother) as [_ Hfilter]. cbn [handle] in Hfilter.
  split; [exact Hp|]. split; [exact Hc|].
  split; [rewrite Hpend; apply get_set_eq|].
  split; [rewrite Hpend; by apply delete_set_absent|].
  split; [exact Ht|]. split; [rewrite Ht; exact Hfilter|]. split; [exact Hother|].
  rewrite Hs. unfold rpcCall in Hcall. destruct (sessions st !! sid); [eauto|discriminate].
Qed.









End Responses.




(** ** The timeout of a call, whenever it fires *)

Section TimeoutRace.

Context `{rt : Runtime}.

#[local] Opaque lit dec.




End TimeoutRace.


(** ** [newSession] and [prompt], from call to answer *)

Section Lifecycle.

Context `{rt : Runtime}.

#[local] Opaque lit dec.

Lemma writeLog_trace (sid m : jsstring) (st : AcpService) (c : call) :
  In c (trace st) -> In c (trace (writeLog sid m st)).
Proof.
  unfold writeLog. destruct (decide _); [|auto]. rewrite trace_does, in_app_iff. auto.
Qed.

(** What a successful [rpcCall] does, in any state. *)
Lemma rpcCall_sends (sid method : jsstring) (params : json) (ms : N) (session : AcpSession)
    (st : AcpService) :
  sessions st !! sid = Some session ->
  stdin (process session) = true ->
  let p := requestIdCounter st + 1 in
  exists st1,
    rpcCall sid method params ms st = (st1, inl p)
    /\ In (SetTimeout p ms) (trace st1)
    /\ In (StdinWrite sid (JSON_stringify (request p method params) ++ [10])) (trace st1)
    /\ PendingMap.get (sid ++ lit ":" ++ dec p) (pendingRequests st1)
       = Some (mkPending p p)
    /\ sessions st1 = sessions st.
Proof.
  intros Hs Hin p. unfold rpcCall. rewrite Hs, Hin. cbn [negb]. eexists.
  split; [reflexivity|].
  split; [apply writeLog_trace; simpl; rewrite !in_app_iff; simpl; auto|].
  split; [apply writeLog_trace; simpl; rewrite !in_app_iff; simpl; auto|].
  match goal with
  | |- context [writeLog ?s ?m ?x] => destruct (writeLog_fields s m x) as (Hs' & Hp' & _)
  end.
  rewrite Hs', Hp'.
  split; [apply get_set_eq|reflexivity].
Qed.

(** A response that carries a [result] and no truthy [error] resolves the
    call filed under its key. *)
Lemma handleMessage_result (sid : jsstring) (fields : list (jsstring * json)) (p : N)
    (st : AcpService) :
  assoc (lit "id") fields = Some (JNum (Z.of_N p)) ->
  is_Some (assoc (lit "result") fields) ->
  truthy (assoc (lit "error") fields) = false ->
  PendingMap.get (sid ++ lit ":" ++ dec p) (pendingRequests st) = Some (mkPending p p) ->
  handleMessage sid (JObj fields) st
  = Normal (does (Resolve p (assoc (lit "result") fields))
              (set_pending (PendingMap.delete (sid ++ lit ":" ++ dec p))
                 (clearTimeout p st))).
Proof.
  intros Hid Hres Herr Hget. unfold handleMessage.
  rewrite responseTest_object. unfold has.
  rewrite Hid, (bool_decide_eq_true_2 _ Hres), (bool_decide_eq_true_2 (is_Some (Some _)))
    by eauto.
  cbn [andb orb prop]. rewrite Hid.
  assert (Hkey : reqKeyOf sid (Some (JNum (Z.of_N p))) = sid ++ lit ":" ++ dec p).
  { unfold reqKeyOf. cbn [toString toString_json]. unfold dec_Z.
    destruct p as [|q]; reflexivity. }
  rewrite Hkey, Hget, Herr. reflexivity.
Qed.

(** [newSession] up to the [initialize] call, when a spawn command is
    found and [spawn] raises nothing. *)
Lemma newSessionStart_spawned (a : AcpNewSessionArgs) (env : Environment)
    (st : AcpService) :
  is_Some (spawnOverride a) \/ argProviderId a = lit "gemini" ->
  spawnError env = None ->
  let sid := sessionIdOf a env in
  let session := mkSession sid (argProviderId a) (argWorkspaceId a) (argCwd a)
                   (mkProcess true false true) initializing None None in
  let params := match init a with
                | Some i => if truthy (Some i) then i else defaultInit env
                | None => defaultInit env
                end in
  exists st0,
    sessions st0 = <[sid := session]> (sessions st)
    /\ logWriters st0 = match logStreamError env with
                         | Some _ => logWriters st
                         | None => logWriters st ∪ {[sid]}
                         end
    /\ requestIdCounter st0 = requestIdCounter st
    /\ pendingRequests st0 = pendingRequests st
    /\ timers st0 = timers st
    /\ newSessionStart a env st
       = (let '(st1, r) := rpcCall sid (lit "initialize") params (initializeMs env) st0 in
          match r with
          | inl p => (st1, inl (sid, p))
          | inr m => let '(st2, r) := newSessionFinish sid (Rejected m) st1 in (st2, inr r)
          end).
Proof.
  intros Hprov Hspawn sid session params.
  exists (wireStdio sid (setupLogWriter env sid (set_sessions (insert sid session) st))).
  assert (Hspec : exists spec,
            match spawnOverride a with
            | Some spec => Some spec
            | None => getProviderSpawnSpec env (argProviderId a)
            end = Some spec).
  { destruct (spawnOverride a) as [spec|]; [eauto|].
    destruct Hprov as [[? [=]]|Hg]. unfold getProviderSpawnSpec.
    rewrite decide_True by exact Hg. eauto. }
  destruct Hspec as [spec Hspec].
  unfold wireStdio, setupLogWriter.
  repeat split;
    try (destruct (logStreamError env); simpl; rewrite lookup_insert_eq; reflexivity).
  unfold newSessionStart. cbv zeta. rewrite Hspec, Hspawn. fold sid. fold session.
  fold params. unfold wireStdio, setupLogWriter.
  destruct (rpcCall sid (lit "initialize") params (initializeMs env) _) as [st1 [p|m]];
    reflexivity.
Qed.

(** X12. [newSession], from the call to a Ready session. In any state,
    for the provider ["gemini"] or with a spawn override, and when [spawn]
    raises nothing: the session is registered as ['initializing'] under
    the id built from the provider, the workspace and the clock, a log
    writer is opened for it unless the log file cannot be created (which
    stops nothing), and the [initialize] request is written to its stdin
    with the next call id and the timeout of the settings. When the agent
    answers that call with a result whose [protocolVersion] (a string, a
    number, a boolean or [null], if there is one) passes the version
    check, the promise is resolved with that result and [newSession]
    returns the session id: the session is then Ready and records the
    version and the capabilities of the answer. *)
Theorem new_session_becomes_ready (a : AcpNewSessionArgs) (env : Environment)
    (st : AcpService) :
  let sid := sessionIdOf a env in
  let p := requestIdCounter st + 1 in
  let advertised :=
    JObj [(lit "clientInfo",
            JObj [(lit "name", JStr (lit "emdash")); (lit "version", JStr (appVersion env))]);
          (lit "capabilities",
            JObj [(lit "fs", JObj [(lit "read_text_file", JBool true);
                                   (lit "write_text_file", JBool true)]);
                  (lit "terminal", JBool true);
                  (lit "meta", JObj [(lit "terminal_output", JBool true)])])] in
  let params := match init a with
                | Some i => if truthy (Some i) then i else advertised
                | None => advertised
                end in
  is_Some (spawnOverride a) \/ argProviderId a = lit "gemini" ->
  spawnError env = None ->
  exists st1,
    newSessionStart a env st = (st1, inl (sid, p))
    /\ getSession sid st1
       = Some (mkSession sid (argProviderId a) (argWorkspaceId a) (argCwd a)
                 (mkProcess true false true) initializing None None)
    /\ logWriters st1 = match logStreamError env with
                        | Some _ => logWriters st
                        | None => logWriters st ∪ {[sid]}
                        end
    /\ In (SetTimeout p (initializeMs env)) (trace st1)
    /\ In (StdinWrite sid
             (JSON_stringify
                (JObj [(lit "jsonrpc", JStr (lit "2.0")); (lit "id", JNum (Z.of_N p));
                       (lit "method", JStr (lit "initialize")); (lit "params", params)])
              ++ [10]))
         (trace st1)
    /\ forall fields result,
         assoc (lit "id") fields = Some (JNum (Z.of_N p)) ->
         assoc (lit "result") fields = Some result ->
         truthy (assoc (lit "error") fields) = false ->
         result <> JNull ->
         match prop (lit "protocolVersion") result with
         | Some (JArr _) | Some (JObj _) => False
         | _ => True
         end ->
         truthy (prop (lit "protocolVersion") result)
         && below_one (parseInt (prop (lit "protocolVersion") result)) = false ->
         exists st2 st3,
           handleMessage sid (JObj fields) st1 = Normal st2
           /\ trace st2 = trace st1 ++ [ClearTimeout p; Resolve p (Some result)]
           /\ newSessionFinish sid (Fulfilled (Some result)) st2 = (st3, Created sid)
           /\ getSession sid st3
              = Some (mkSession sid (argProviderId a) (argWorkspaceId a) (argCwd a)
                        (mkProcess true false true) ready
                        (prop (lit "protocolVersion") result)
                        (prop (lit "capabilities") result)).
Proof.
  intros sid p advertised params Hprov Hspawn.
  change advertised with (defaultInit env) in params.
  destruct (newSessionStart_spawned a env st Hprov Hspawn)
    as (st0 & Hs0 & Hw0 & Hc0 & _ & _ & Hstart).
  fold sid in Hs0, Hw0, Hstart. fold params in Hstart.
  set (session := mkSession sid (argProviderId a) (argWorkspaceId a) (argCwd a)
                    (mkProcess true false true) initializing None None) in *.
  assert (Hreg0 : sessions st0 !! sid = Some session).
  { rewrite Hs0. apply lookup_insert_eq. }
  destruct (rpcCall_sends sid (lit "initialize") params (initializeMs env) session st0 Hreg0
              eq_refl) as (st1 & Hcall & Htimer & Hwrite & Hget & Hs1).
  rewrite Hc0 in Hcall, Htimer, Hwrite, Hget. fold p in Hcall, Htimer, Hwrite, Hget.
  rewrite Hcall in Hstart.
  pose proof (rpcCall_writers sid (lit "initialize") params (initializeMs env) st0) as Hw1.
  rewrite Hcall in Hw1. cbn [fst] in Hw1.
  exists st1. split; [exact Hstart|].
  split; [unfold getSession; by rewrite Hs1|].
  split; [by rewrite Hw1|].
  split; [exact Htimer|]. split; [exact Hwrite|].
  intros fields result Hid Hres Herr Hnn _ Hver.
  assert (Hh := handleMessage_result sid fields p st1 Hid (ex_intro _ result Hres) Herr Hget).
  rewrite Hres in Hh.
  eexists. eexists. split; [exact Hh|].
  split; [simpl; rewrite <- app_assoc; reflexivity|].
  rewrite newSessionFinish_value, Hver by exact Hnn.
  split; [reflexivity|].
  unfold getSession. simpl. rewrite lookup_alter_eq, Hs1, Hreg0. reflexivity.
Qed.

(** X13. [prompt] asks for a Ready session, and costs the session
    nothing when it fails. In every state a service can reach: for an id
    that is not registered, or a session that is not ['ready'], [prompt]
    returns its error at once and does nothing; on a Ready session it
    writes the [prompt] request with the next call id and arms a timer
    with the prompt timeout of the settings. If that timer fires, the call
    is rejected with the timeout message, which [prompt] returns as its
    error, and the session is still registered and Ready. *)
Theorem prompt_needs_a_ready_session (history : list event) (sid text : jsstring)
    (env : Environment) :
  let st := run history newService in
  let p := requestIdCounter st + 1 in
  (getSession sid st = None ->
   promptStart sid text env st = (st, inr (lit "Session not found")))
  /\ (forall s,
        getSession sid st = Some s ->
        status s <> ready ->
        promptStart sid text env st
        = (st, inr (lit "Session not ready (status: " ++ render_status (status s)
                    ++ lit ")")))
  /\ (forall s,
        getSession sid st = Some s ->
        status s = ready ->
        exists st1,
          promptStart sid text env st = (st1, inl p)
          /\ In (SetTimeout p (promptMs env)) (trace st1)
          /\ In (StdinWrite sid
                   (JSON_stringify
                      (JObj [(lit "jsonrpc", JStr (lit "2.0")); (lit "id", JNum (Z.of_N p));
                             (lit "method", JStr (lit "prompt"));
                             (lit "params", JObj [(lit "prompt", JStr text)])])
                    ++ [10])) (trace st1)
          /\ let st2 := onTimeout p st1 in
             let message := lit "Request " ++ lit "prompt" ++ lit " timed out after "
                            ++ dec (promptMs env) ++ lit "ms" in
             trace st2 = trace st1 ++ [Reject p message]
             /\ promptFinish (Rejected message) = NotAnswered message
             /\ getSession sid st2 = Some s
             /\ pendingRequests st2 = pendingRequests st
             /\ timers st2 = timers st).
Proof.
  intros st p. unfold getSession. split; [|split].
  - intros Hn. unfold promptStart. by rewrite Hn.
  - intros s Hs Hst. unfold promptStart. rewrite Hs.
    destruct (status s); [reflexivity|congruence|reflexivity|reflexivity].
  - intros s Hs Hst.
    assert (Hpipe : stdin (process s) = true).
    { assert (Hp : piped st) by apply run_piped, newService_piped. eapply Hp, Hs. }
    destruct (rpcCall_sends sid (lit "prompt") (JObj [(lit "prompt", JStr text)])
                (promptMs env) s st Hs Hpipe) as (st1 & Hcall & Htimer & Hwrite & _ & Hs1).
    fold p in Hcall, Htimer, Hwrite.
    exists st1. split; [unfold promptStart; by rewrite Hs, Hst|].
    split; [exact Htimer|]. split; [exact Hwrite|].
    destruct (call_made history _ _ _ _ _ _ Hcall)
      as (_ & _ & _ & Hdel & Ht & Hfil & Hoth & _).
    fold st in Hdel, Ht, Hfil, Hoth.
    destruct (find_fresh_timer
                (mkTimer p (sid ++ lit ":" ++ dec p) p (lit "prompt") (promptMs env))
                (timers st) Hoth) as [Hfind _].
    rewrite <- Ht in Hfind. cbn [handle] in Hfind.
    cbv zeta. rewrite (onTimeout_fires p _ st1 Hfind).
    cbn [timerPromise timerMethod timerMs timerKey].
    split; [reflexivity|]. split; [reflexivity|]. split; [simpl; by rewrite Hs1|].
    split; [exact Hdel|exact Hfil].
Qed.

End Lifecycle.

Lemma new_session_becomes_ready_witness :
  exists st1,
    newSessionStart (rt := Reference.runtime) Demo.args Demo.env (onError newService)
    = (st1, inl (Demo.sid, 1))
    /\ getSession Demo.sid st1
       = Some (mkSession Demo.sid (lit "gemini") (lit "app") (lit "/tmp")
                 (mkProcess true false true) initializing None None)
    /\ In (SetTimeout 1 15000) (trace st1)
    /\ In (StdinWrite Demo.sid
             (qlit "{'jsonrpc':'2.0','id':1,'method':'initialize','params':{"
              ++ qlit "'clientInfo':{'name':'emdash','version':'0.1.0'},"
              ++ qlit "'capabilities':{'fs':{'read_text_file':true,'write_text_file':true},"
              ++ qlit "'terminal':true,'meta':{'terminal_output':true}}}}"
              ++ [10])) (trace st1)
    /\ exists st2 st3,
         handleMessage (rt := Reference.runtime) Demo.sid
           (JObj [(lit "jsonrpc", JStr (lit "2.0")); (lit "id", JNum 1);
                  (lit "result", JObj [(lit "protocolVersion", JNum 1)])]) st1
         = Normal st2
         /\ newSessionFinish Demo.sid
              (Fulfilled (Some (JObj [(lit "protocolVersion", JNum 1)]))) st2
            = (st3, Created Demo.sid)
         /\ getSession Demo.sid st3
            = Some (mkSession Demo.sid (lit "gemini") (lit "app") (lit "/tmp")
                      (mkProcess true false true) ready (Some (JNum 1)) None).
Proof.
  destruct (new_session_becomes_ready (rt := Reference.runtime) Demo.args Demo.env
              (onError newService)) as (st1 & H1 & H2 & _ & H4 & H5 & H6).
  - right. reflexivity.
  - reflexivity.
  - exists st1. split; [exact H1|]. split; [exact H2|]. split; [exact H4|].
    split; [exact H5|].
    destruct (H6 [(lit "jsonrpc", JStr (lit "2.0")); (lit "id", JNum 1);
                  (lit "result", JObj [(lit "protocolVersion", JNum 1)])]
                 (JObj [(lit "protocolVersion", JNum 1)]))
      as (st2 & st3 & Ha & _ & Hb & Hc).
    + vm_compute. reflexivity.
    + vm_compute. reflexivity.
    + vm_compute. reflexivity.
    + discriminate.
    + vm_compute. exact I.
    + vm_compute. reflexivity.
    + exists st2, st3. split; [exact Ha|]. split; [exact Hb|exact Hc].
Defined.

Lemma prompt_needs_a_ready_session_witness :
  let st := run (rt := Reference.runtime) Demo.history newService in
  exists st1,
    promptStart (rt := Reference.runtime) Demo.sid (lit "hello") Demo.env st = (st1, inl 2)
    /\ In (SetTimeout 2 600000) (trace st1)
    /\ In (StdinWrite Demo.sid
             (qlit "{'jsonrpc':'2.0','id':2,'method':'prompt','params':{'prompt':'hello'}}"
              ++ [10])) (trace st1)
    /\ trace (onTimeout 2 st1)
       = trace st1 ++ [Reject 2 (lit "Request prompt timed out after 600000ms")]
    /\ status <$> getSession Demo.sid (onTimeout 2 st1) = Some ready.
Proof.
  destruct (proj2 (proj2 (prompt_needs_a_ready_session (rt := Reference.runtime)
                            Demo.history Demo.sid (lit "hello") Demo.env))
              (mkSession Demo.sid (lit "gemini") (lit "app") (lit "/tmp")
                 (mkProcess true false true) ready (Some (JStr (lit "1")))
                 (Some (JObj []))))
    as (st1 & H1 & H2 & H3 & H4 & _ & H6 & _).
  - vm_compute. reflexivity.
  - reflexivity.
  - exists st1. split; [exact H1|]. split; [exact H2|]. split; [exact H3|].
    split; [exact H4|]. exact (f_equal (fmap status) H6).
Defined.

(** ** The listener on ['error'] *)

Section Listeners.

Context `{rt : Runtime}.

#[local] Opaque lit dec.

Lemma dispose_listeners (sid : jsstring) (st : AcpService) :
  errorListeners (dispose sid st) = errorListeners st.
Proof.
  destruct (sessions st !! sid) as [session|] eqn:Hs;
    [|by rewrite dispose_unregistered].
  by destruct (dispose_registered sid session st Hs) as (_ & _ & _ & _ & _ & _ & ->).
Qed.

Lemma rpcCall_listeners (sid method : jsstring) (params : json) (ms : N) (st : AcpService) :
  errorListeners (fst (rpcCall sid method params ms st)) = errorListeners st.
Proof.
  unfold rpcCall. destruct (sessions st !! sid) as [session|]; [|reflexivity].
  destruct (negb (stdin (process session))); [reflexivity|].
  cbn [fst]. unfold writeLog. destruct (decide _); reflexivity.
Qed.

Lemma newSessionFinish_listeners (sid : jsstring) (r : settled) (st : AcpService) :
  errorListeners (fst (newSessionFinish sid r st)) = errorListeners st.
Proof.
  destruct (newSessionFinish_refused sid r st) as [[e Hr]|(result & -> & Hn & Hc)].
  - rewrite Hr. apply dispose_listeners.
  - rewrite newSessionFinish_value, Hc by exact Hn. reflexivity.
Qed.

(** The service never removes a listener. *)
Lemma step_listeners (e : event) (st : AcpService) :
  errorListeners (step e st)
  = match e with
    | ErrorListenerAdded => S (errorListeners st)
    | _ => errorListeners st
    end.
Proof.
  destruct e as [|a env|sid r|sid text env|sid werr|sid|sid chunk|sid chunk
                 |sid code signal|sid msg|h|key p msg]; cbn [step].
  - reflexivity.
  - unfold newSessionStart. cbv zeta.
    destruct (match spawnOverride a with
              | Some spec => Some spec
              | None => getProviderSpawnSpec env (argProviderId a)
              end); [|reflexivity].
    destruct (spawnError env); [reflexivity|].
    set (st0 := wireStdio _ _).
    set (params := match init a with Some _ => _ | None => _ end).
    assert (Hpre : errorListeners st0 = errorListeners st).
    { subst st0. unfold wireStdio, setupLogWriter.
      destruct (logStreamError env);
        match goal with
        | |- errorListeners (match ?x with Some _ => _ | None => _ end) = _ => destruct x
        end; reflexivity. }
    pose proof (rpcCall_listeners (sessionIdOf a env) (lit "initialize") params
                  (initializeMs env) st0) as Hcall.
    destruct (rpcCall _ _ params _ st0) as [st1 [q|msg]]; cbn [fst] in Hcall |- *;
      [congruence|].
    pose proof (newSessionFinish_listeners (sessionIdOf a env) (Rejected msg) st1) as Hf.
    destruct (newSessionFinish _ _ st1) as [st2 r]. cbn [fst] in Hf |- *. congruence.
  - apply newSessionFinish_listeners.
  - unfold promptStart. destruct (sessions st !! sid) as [session|]; [|reflexivity].
    destruct (status session); try reflexivity. apply rpcCall_listeners.
  - by destruct (cancel_shrinks sid werr st) as (_ & _ & _ & -> & _).
  - apply dispose_listeners.
  - by destruct (onStdoutData_shrinks sid chunk st) as (_ & _ & _ & -> & _).
  - unfold onStderrData, emitNotification, writeLog. destruct (decide _); reflexivity.
  - unfold onExit. rewrite dispose_listeners. reflexivity.
  - unfold onProcessError, emitError. simpl.
    destruct (errorListeners st) eqn:Hl; simpl; rewrite ?Hl; reflexivity.
  - by destruct (onTimeout_shrinks h st) as (_ & _ & _ & -> & _).
  - reflexivity.
Qed.

Lemma run_listeners (events : list event) (st : AcpService) :
  (errorListeners st <= errorListeners (run events st))%nat
  /\ (In ErrorListenerAdded events -> 0 < errorListeners (run events st))%nat.
Proof.
  revert st. induction events as [|e events IH]; intros st; [simpl; split; [lia|tauto]|].
  change (run (e :: events) st) with (run events (step e st)).
  destruct (IH (step e st)) as [Hle Hin]. pose proof (step_listeners e st) as Hs.
  split.
  - destruct e; lia.
  - intros [->|H]; [lia|auto].
Qed.

(** X14. Once a listener is subscribed to ['error'], as [registerAcpIpc]
    subscribes one at startup, the service never loses it: in every later
    state no chunk can make the stdout handler raise, whatever the agent
    prints, and a process error is logged and delivered as an error event,
    whether or not a process is left running, leaving every session
    registered and the pending calls to their timeouts. *)
Theorem handlers_do_not_raise_once_errors_are_observed (history : list event)
    (sid : jsstring) :
  In ErrorListenerAdded history ->
  let st := run history newService in
  (forall chunk, exists st', onStdoutData sid chunk st = Normal st')
  /\ (forall message alive,
        exists st',
          onProcessError sid message alive st = Normal st'
          /\ trace st' = trace st
                         ++ [LogError (lit "Session " ++ sid ++ lit " process error: "
                                       ++ message);
                             EmitError sid message]
          /\ (forall other, is_Some (getSession other st') <-> is_Some (getSession other st))
          /\ pendingRequests st' = pendingRequests st
          /\ timers st' = timers st).
Proof.
  intros Hin st.
  assert (Hl : (0 < errorListeners st)%nat) by (by apply run_listeners).
  split.
  - intros chunk. unfold onStdoutData. destruct (frame _ chunk) as [lines b].
    rewrite processLines_listening by exact Hl. eauto.
  - intros message alive. unfold onProcessError.
    rewrite emitError_listening by exact Hl. eexists. split; [reflexivity|].
    split; [simpl; rewrite <- app_assoc; reflexivity|].
    split; [|split; reflexivity].
    intros other. unfold getSession. simpl.
    destruct (decide (other = sid)) as [->|Hne].
    + rewrite !lookup_alter_eq. destruct (sessions st !! sid); simpl; [|reflexivity].
      split; eauto.
    + by rewrite !lookup_alter_ne.
Qed.

End Listeners.

Lemma handlers_do_not_raise_once_errors_are_observed_witness :
  (forall chunk,
     exists st', onStdoutData (rt := Reference.runtime) Demo.sid chunk Demo.initialized
                 = Normal st')
  /\ exists st',
       onProcessError Demo.sid (lit "spawn gemini ENOENT") false Demo.initialized
       = Normal st'
       /\ is_Some (getSession Demo.sid st').
Proof.
  destruct (handlers_do_not_raise_once_errors_are_observed (rt := Reference.runtime)
              Demo.history Demo.sid) as [Ha Hb].
  - left. reflexivity.
  - split; [exact Ha|].
    destruct (Hb (lit "spawn gemini ENOENT") false) as (st' & H1 & _ & H3 & _).
    exists st'. split; [exact H1|]. apply H3. vm_compute. eauto.
Defined.

(** ** Session ids *)

Section SessionIds.

#[local] Opaque lit.

Lemma split_at_last (c : N) (a b x y : jsstring) :
  ~ In c x -> ~ In c y -> a ++ c :: x = b ++ c :: y -> a = b /\ x = y.
Proof.
  intros Hx Hy Heq.
  assert (Hrev : rev x ++ c :: rev a = rev y ++ c :: rev b).
  { apply (f_equal (@rev N)) in Heq. rewrite !rev_app_distr in Heq. simpl in Heq.
    rewrite <- !app_assoc in Heq. exact Heq. }
  assert (Hgen : forall u v p q : jsstring,
            ~ In c u -> ~ In c v -> u ++ c :: p = v ++ c :: q -> u = v /\ p = q).
  { clear. induction u as [|d u IH]; intros [|d' v] p q Hu Hv Heq; simpl in *.
    - injection Heq as ->. auto.
    - injection Heq as <- _. tauto.
    - injection Heq as -> _. tauto.
    - injection Heq as -> Heq. destruct (IH v p q) as [-> ->]; auto. }
  destruct (Hgen (rev x) (rev y) (rev a) (rev b)) as [Hxy Hab]; try exact Hrev.
  - rewrite <- in_rev. exact Hx.
  - rewrite <- in_rev. exact Hy.
  - split; apply rev_inj; assumption.
Qed.

Lemma dec_no_dash (n : N) : ~ In 45 (dec n).
Proof.
  intros Hin. pose proof (dec_digits n) as H.
  rewrite List.Forall_forall in H. apply H in Hin. cbv beta in Hin. lia.
Qed.

(** X15. The id [newSession] builds tells the sessions of a provider
    apart: for one provider, two calls build the same session id only if
    they name the same workspace and read the same time on the clock,
    whatever characters the workspace ids contain. *)
Theorem session_ids_of_a_provider_are_distinct (a1 a2 : AcpNewSessionArgs)
    (env1 env2 : Environment) :
  argProviderId a1 = argProviderId a2 ->
  sessionIdOf a1 env1 = sessionIdOf a2 env2 ->
  argWorkspaceId a1 = argWorkspaceId a2 /\ now env1 = now env2.
Proof.
  unfold sessionIdOf. intros -> Heq.
  apply app_inv_head in Heq. apply app_inv_head in Heq.
  change (lit "-") with [45] in Heq. simpl in Heq.
  apply split_at_last in Heq as [Hw Hd]; [|apply dec_no_dash|apply dec_no_dash].
  split; [exact Hw|]. by apply dec_inj.
Qed.

End SessionIds.

Lemma session_ids_of_a_provider_are_distinct_witness :
  argWorkspaceId Demo.args = lit "app" /\ now Demo.env = 1700000000000.
Proof.
  apply (session_ids_of_a_provider_are_distinct Demo.args
           (mkArgs (lit "gemini") (lit "app") (lit "/home") None None) Demo.env
           (mkEnv 1700000000000 None true 1000 10000 (lit "0.2.0") None None)).
  - reflexivity.
  - reflexivity.
Defined.

(** ** A write that fails, a handshake that never ends *)

Section Failures.

Context `{rt : Runtime}.

#[local] Opaque lit dec.


(** X17. A [newSession] that fails leaves nothing behind. In every state
    a service can reach: for an unknown provider without spawn override,
    or when [spawn] raises, [newSession] returns its error and the service
    is untouched; and when the agent is spawned but never answers
    [initialize], the timer of that call rejects it, [newSession] returns
    "Initialize timeout or error: " followed by the timeout message, the
    process is signalled, the log writer is closed, the session is no
    longer registered and neither its call nor its timer is left. *)
Theorem failed_new_session_leaves_nothing_behind (history : list event)
    (a : AcpNewSessionArgs) (env : Environment) :
  let st := run history newService in
  let sid := sessionIdOf a env in
  (spawnOverride a = None ->
   argProviderId a <> lit "gemini" ->
   newSessionStart a env st
   = (st, inr (NotCreated (lit "Provider " ++ argProviderId a
                           ++ lit " not found in registry"))))
  /\ (forall e,
        is_Some (spawnOverride a) \/ argProviderId a = lit "gemini" ->
        spawnError env = Some e ->
        newSessionStart a env st
        = (st, inr (NotCreated (lit "Failed to spawn provider: " ++ e))))
  /\ (is_Some (spawnOverride a) \/ argProviderId a = lit "gemini" ->
      spawnError env = None ->
      let p := requestIdCounter st + 1 in
      let message := lit "Request " ++ lit "initialize" ++ lit " timed out after "
                     ++ dec (initializeMs env) ++ lit "ms" in
      exists st1 st3,
        newSessionStart a env st = (st1, inl (sid, p))
        /\ trace (onTimeout p st1) = trace st1 ++ [Reject p message]
        /\ newSessionFinish sid (Rejected message) (onTimeout p st1)
           = (st3, NotCreated (lit "Initialize timeout or error: " ++ message))
        /\ In (Kill sid) (trace st3)
        /\ getSession sid st3 = None
        /\ (sid ∉ logWriters st3)
        /\ PendingMap.get (sid ++ lit ":" ++ dec p) (pendingRequests st3) = None
        /\ Forall (fun t => handle t <> p) (timers st3)).
Proof.
  intros st sid. split; [|split].
  - intros Ho Hp. unfold newSessionStart, getProviderSpawnSpec. cbv zeta.
    rewrite Ho, decide_False by exact Hp. reflexivity.
  - intros e Hprov He. unfold newSessionStart. cbv zeta.
    destruct (spawnOverride a) as [spec|]; [by rewrite He|].
    destruct Hprov as [[? [=]]|Hg]. unfold getProviderSpawnSpec.
    rewrite decide_True by exact Hg. by rewrite He.
  - intros Hprov Hspawn p message.
    destruct (newSessionStart_spawned a env st Hprov Hspawn)
      as (st0 & Hs0 & Hw0 & Hc0 & Hp0 & Ht0 & Hstart).
    fold sid in Hs0, Hw0, Hstart.
    set (session := mkSession sid (argProviderId a) (argWorkspaceId a) (argCwd a)
                      (mkProcess true false true) initializing None None) in *.
    set (params := match init a with Some _ => _ | None => _ end) in *.
    assert (Hreg0 : sessions st0 !! sid = Some session).
    { rewrite Hs0. apply lookup_insert_eq. }
    destruct (rpcCall_sends sid (lit "initialize") params (initializeMs env) session st0
                Hreg0 eq_refl) as (st1 & Hcall & _ & _ & _ & Hs1).
    rewrite Hc0 in Hcall. fold p in Hcall. rewrite Hcall in Hstart.
    destruct (rpcCall_registers _ _ _ _ _ _ _ Hcall) as (_ & Hc1 & Hpend1 & Ht1 & _).
    assert (Hoth : Forall (fun t => handle t <> p) (timers st0)).
    { rewrite Ht0. eapply Forall_impl; [apply (run_allocated history)|].
      fold st. intros t Hle. simpl in *. subst p. lia. }
    destruct (find_fresh_timer
                (mkTimer p (sid ++ lit ":" ++ dec p) p (lit "initialize") (initializeMs env))
                (timers st0) Hoth) as [Hfind Hfil].
    rewrite <- Ht1 in Hfind, Hfil. cbn [handle] in Hfind, Hfil.
    pose proof (onTimeout_fires p _ st1 Hfind) as Hfire.
    cbn [timerPromise timerMethod timerMs timerKey] in Hfire.
    set (st2 := onTimeout p st1) in *.
    assert (Hreg2 : sessions st2 !! sid = Some session).
    { rewrite Hfire. simpl. by rewrite Hs1. }
    destruct (dispose_registered sid session st2 Hreg2)
      as (Htr3 & Hs3 & Hw3 & Hp3 & _).
    exists st1, (dispose sid st2). fold st2.
    split; [exact Hstart|]. split; [rewrite Hfire; reflexivity|].
    split; [reflexivity|]. split; [|split; [|split; [|split]]].
    + rewrite Htr3, !in_app_iff. right. left. by left.
    + apply dispose_unregisters.
    + rewrite Hw3, elem_of_difference, elem_of_singleton. tauto.
    + rewrite Hp3. apply get_filter_none. intros e ->. by rewrite startsWith_app.
    + apply List.Forall_forall. intros t Hin.
      assert (Hin2 : In t (timers st2)).
      { destruct (dispose_evolves sid st2) as (Hcnt & _ & Htim).
        apply Htim in Hin as [Hin|Hlt]; [exact Hin|].
        destruct (dispose_registered sid session st2 Hreg2) as (_ & _ & _ & _ & Hc & _).
        rewrite Hc in Hlt. lia. }
      rewrite Hfire in Hin2. simpl in Hin2. rewrite Hfil in Hin2.
      rewrite List.Forall_forall in Hoth. auto.
Qed.

End Failures.

(** ** Notifications, in order *)

Section Notifications.

Context `{rt : Runtime}.

#[local] Opaque lit dec.

Lemma notifications_app (a b : list call) :
  notifications (a ++ b) = notifications a ++ notifications b.
Proof. apply flat_map_app. Qed.

Lemma handleMessage_notification (sid : jsstring) (fields : list (jsstring * json))
    (st : AcpService) :
  has "method" fields = true ->
  has "id" fields = false ->
  has "error" fields = false ->
  handleMessage sid (JObj fields) st
  = Normal (does (EmitNotification sid (Notification (JObj fields)))
              (writeLog sid
                 (lit "[notification] " ++ toString (assoc (lit "method") fields)
                  ++ lit ": " ++ stringify (assoc (lit "params") fields)) st)).
Proof.
  intros Hm Hi He. unfold handleMessage.
  rewrite responseTest_object, notificationTest_object, Hm, Hi, He. reflexivity.
Qed.

(** X18. Notifications reach the subscribers in the order of their
    lines. When the lines handed to the stdout loop carry notifications
    (objects with a string [method] and neither [id] nor [error]), the
    loop ends normally, with or without a listener on ['error']; it emits exactly
    those notifications for its session, each once and in the order of the
    lines, after what was emitted before; and it leaves the registry, the
    pending calls and the timers as they were. *)
Theorem notifications_are_delivered_in_order (sid : jsstring) (lines : list jsstring)
    (msgs : list json) (st : AcpService) :
  Forall2 notificationLine lines msgs ->
  exists st',
    processLines sid lines st = Normal st'
    /\ notifications (trace st')
       = notifications (trace st) ++ List.map (fun msg => (sid, Notification msg)) msgs
    /\ sessions st' = sessions st
    /\ pendingRequests st' = pendingRequests st
    /\ timers st' = timers st.
Proof.
  intros Hall. revert st.
  induction Hall as [|line msg lines msgs Hline _ IH]; intros st.
  - exists st. simpl. rewrite app_nil_r. auto.
  - destruct Hline as (Hne & Hle & Hparse & fields & -> & [method Hm] & Hi & He).
    assert (Hhas : has "method" fields = true).
    { unfold has. rewrite Hm. apply bool_decide_eq_true_2. eauto. }
    rewrite processLines_cons.
    rewrite (processLines_object sid line fields st Hne Hle Hparse).
    rewrite (handleMessage_notification sid fields _ Hhas Hi He).
    match goal with
    | |- context [processLines sid lines ?s] => destruct (IH s) as (st' & Hrun & Hn & Hs & Hp & Ht)
    end.
    exists st'. split; [exact Hrun|]. rewrite Hn, Hs, Hp, Ht.
    unfold writeLog. destruct (decide _); simpl;
      rewrite !notifications_app; simpl; rewrite ?app_nil_r, <- ?app_assoc; auto.
Qed.

End Notifications.


Lemma notifications_are_delivered_in_order_witness :
  exists st',
    processLines (rt := Reference.runtime) Demo.sid
      [Demo.progressLine; qlit " {'jsonrpc':'2.0','method':'done','params':[1]} "]
      Demo.startedUnobserved = Normal st'
    /\ notifications (trace st')
       = notifications (trace Demo.startedUnobserved)
         ++ List.map (fun msg => (Demo.sid, Notification msg))
              [Demo.progress;
               JObj [(lit "jsonrpc", JStr (lit "2.0")); (lit "method", JStr (lit "done"));
                     (lit "params", JArr [JNum 1])]]
    /\ sessions st' = sessions Demo.startedUnobserved
    /\ pendingRequests st' = pendingRequests Demo.startedUnobserved
    /\ timers st' = timers Demo.startedUnobserved.
Proof.
  apply (notifications_are_delivered_in_order (rt := Reference.runtime)).
  repeat constructor; try (vm_compute; (reflexivity || discriminate)).
  - eexists. split; [vm_compute; reflexivity|].
    split; [eexists; vm_compute; reflexivity|]. split; vm_compute; reflexivity.
  - eexists. split; [vm_compute; reflexivity|].
    split; [eexists; vm_compute; reflexivity|]. split; vm_compute; reflexivity.
Defined.

Lemma failed_new_session_leaves_nothing_behind_witness :
  exists st1 st3,
    newSessionStart (rt := Reference.runtime) Demo.args Demo.env
      (run (rt := Reference.runtime) [ErrorListenerAdded] newService)
    = (st1, inl (Demo.sid, 1))
    /\ newSessionFinish Demo.sid
         (Rejected (lit "Request initialize timed out after 15000ms")) (onTimeout 1 st1)
       = (st3, NotCreated (lit "Initialize timeout or error: "
                           ++ lit "Request initialize timed out after 15000ms"))
    /\ In (Kill Demo.sid) (trace st3)
    /\ getSession Demo.sid st3 = None.
Proof.
  destruct (proj2 (proj2 (failed_new_session_leaves_nothing_behind (rt := Reference.runtime)
                            [ErrorListenerAdded] Demo.args Demo.env)))
    as (st1 & st3 & H1 & _ & H3 & H4 & H5 & _).
  - right. reflexivity.
  - reflexivity.
  - exists st1, st3. split; [exact H1|]. split; [exact H3|]. split; [exact H4|exact H5].
Defined.

(** ** The buffer between two chunks *)

Section Buffers.

Context `{rt : Runtime}.

#[local] Opaque lit dec.

(** A step that leaves the buffers alone and registers no session. *)
Lemma framed_keep (st st' : AcpService) :
  buffers st' = buffers st ->
  (forall sid, is_Some (sessions st' !! sid) -> is_Some (sessions st !! sid)) ->
  framed st -> framed st'.
Proof.
  intros Hb Hs (Hw & Hn). split.
  - intros sid Hx. rewrite Hb. apply Hw, Hs, Hx.
  - intros sid b. rewrite Hb. apply Hn.
Qed.

Lemma handleMessage_buffers (sid : jsstring) (msg : json) (st : AcpService) :
  buffers (state_of (handleMessage sid msg st)) = buffers st.
Proof.
  unfold handleMessage.
  destruct (responseTest msg) as [[|]|]; [| |reflexivity].
  - destruct (PendingMap.get _ _); [|reflexivity]. destruct (truthy _); reflexivity.
  - destruct (notificationTest msg) as [[|]|]; [|reflexivity|reflexivity].
    unfold writeLog. destruct (decide _); reflexivity.
Qed.

Lemma processLines_buffers (sid : jsstring) (lines : list jsstring) (st : AcpService) :
  buffers (state_of (processLines sid lines st)) = buffers st.
Proof.
  apply (processLines_preserves (fun s => buffers s = buffers st) sid).
  - intros c st0 _ H. exact H.
  - intros msg st0 H. by rewrite handleMessage_buffers.
  - reflexivity.
Qed.

Lemma dispose_buffers (sid : jsstring) (st : AcpService) :
  buffers (dispose sid st) = buffers st.
Proof.
  destruct (sessions st !! sid) as [session|] eqn:Hs;
    [|by rewrite dispose_unregistered].
  by destruct (dispose_registered sid session st Hs) as (_ & _ & _ & _ & _ & -> & _).
Qed.

Lemma dispose_domain (sid x : jsstring) (st : AcpService) :
  is_Some (sessions (dispose sid st) !! x) -> is_Some (sessions st !! x).
Proof.
  destruct (sessions st !! sid) as [session|] eqn:Hs;
    [|by rewrite dispose_unregistered].
  destruct (dispose_registered sid session st Hs) as (_ & -> & _).
  rewrite lookup_delete. destruct (decide (sid = x)); [by intros [? [=]]|auto].
Qed.

Lemma rpcCall_buffers (sid method : jsstring) (params : json) (ms : N) (st : AcpService) :
  buffers (fst (rpcCall sid method params ms st)) = buffers st.
Proof.
  unfold rpcCall. destruct (sessions st !! sid) as [session|]; [|reflexivity].
  destruct (negb (stdin (process session))); [reflexivity|].
  cbn [fst]. unfold writeLog. destruct (decide _); reflexivity.
Qed.

Lemma alter_domain (f : AcpSession -> AcpSession) (k x : jsstring)
    (m : gmap jsstring AcpSession) :
  is_Some (alter f k m !! x) -> is_Some (m !! x).
Proof.
  rewrite lookup_alter. destruct (decide (k = x)) as [->|]; [|auto].
  destruct (m !! x); simpl; [eauto|by intros [? [=]]].
Qed.

Lemma framed_rpcCall (sid method : jsstring) (params : json) (ms : N) (st : AcpService) :
  framed st -> framed (fst (rpcCall sid method params ms st)).
Proof.
  apply framed_keep; [apply rpcCall_buffers|]. intros x. by rewrite rpcCall_sessions.
Qed.

Lemma framed_dispose (sid : jsstring) (st : AcpService) :
  framed st -> framed (dispose sid st).
Proof. apply framed_keep; [apply dispose_buffers|]. intros x. apply dispose_domain. Qed.

Lemma framed_newSessionFinish (sid : jsstring) (r : settled) (st : AcpService) :
  framed st -> framed (fst (newSessionFinish sid r st)).
Proof.
  destruct (newSessionFinish_refused sid r st) as [[e Hr]|(result & -> & Hn & Hc)].
  - rewrite Hr. apply framed_dispose.
  - rewrite newSessionFinish_value, Hc by exact Hn. cbn [fst].
    apply framed_keep; [reflexivity|]. intros x. apply alter_domain.
Qed.

Lemma framed_step (e : event) (st : AcpService) : framed st -> framed (step e st).
Proof.
  intros Hf.
  destruct e as [|a env|sid r|sid text env|sid werr|sid|sid chunk|sid chunk
                 |sid code signal|sid msg|h|key p msg]; cbn [step].
  - exact Hf.
  - unfold newSessionStart. cbv zeta.
    destruct (match spawnOverride a with
              | Some spec => Some spec
              | None => getProviderSpawnSpec env (argProviderId a)
              end); [|exact Hf].
    destruct (spawnError env); [exact Hf|].
    set (st0 := wireStdio _ _).
    set (params := match init a with Some _ => _ | None => _ end).
    assert (Hpre : framed st0).
    { destruct Hf as (Hw & Hn). subst st0. unfold wireStdio, setupLogWriter.
      destruct (logStreamError env); simpl; rewrite lookup_insert_eq; split; simpl;
        try (intros x; rewrite !lookup_insert;
             destruct (decide (sessionIdOf a env = x)); [eauto|apply Hw]);
        intros x b; rewrite lookup_insert;
        (destruct (decide (sessionIdOf a env = x)); [intros [= <-]; simpl; tauto|apply Hn]). }
    pose proof (framed_rpcCall (sessionIdOf a env) (lit "initialize") params
                  (initializeMs env) st0 Hpre) as Hcall.
    destruct (rpcCall _ _ params _ st0) as [st1 [q|msg]]; cbn [fst] in Hcall |- *;
      [exact Hcall|].
    pose proof (framed_newSessionFinish (sessionIdOf a env) (Rejected msg) st1 Hcall) as Hfin.
    destruct (newSessionFinish _ _ st1) as [st2 r]. exact Hfin.
  - by apply framed_newSessionFinish.
  - unfold promptStart. destruct (sessions st !! sid) as [session|]; [|exact Hf].
    destruct (status session); try exact Hf. by apply framed_rpcCall.
  - revert Hf. apply framed_keep.
    + unfold cancel, rpcNotify. destruct (sessions st !! sid) as [session|]; [|reflexivity].
      destruct (negb (stdin (process session))); [reflexivity|].
      destruct werr; cbn [fst]; unfold writeLog; destruct (decide _); reflexivity.
    + intros x. by destruct (cancel_shrinks sid werr st) as (-> & _).
  - by apply framed_dispose.
  - destruct Hf as (Hw & Hn). unfold onStdoutData. rewrite frame_eq.
    set (text := default [] (buffers st !! sid) ++ Utf8.toString chunk).
    split.
    + intros x. rewrite processLines_sessions, processLines_buffers. simpl.
      intros Hx. rewrite lookup_insert. destruct (decide (sid = x)); [eauto|by apply Hw].
    + intros x b. rewrite processLines_buffers. simpl. rewrite lookup_insert.
      destruct (decide (sid = x)); [|apply Hn]. intros [= <-]. apply remainder_no_newline.
  - revert Hf. apply framed_keep.
    + unfold onStderrData, emitNotification, writeLog. destruct (decide _); reflexivity.
    + intros x. unfold onStderrData, emitNotification, writeLog.
      destruct (decide _); auto.
  - revert Hf. unfold onExit. apply framed_keep.
    + rewrite dispose_buffers. reflexivity.
    + intros x Hx%dispose_domain. simpl in Hx. by apply alter_domain, alter_domain in Hx.
  - revert Hf. apply framed_keep.
    + unfold onProcessError, emitError. simpl. destruct (errorListeners st); reflexivity.
    + intros x. unfold onProcessError, emitError. simpl.
      destruct (errorListeners st); simpl; intros Hx; by apply alter_domain, alter_domain in Hx.
  - revert Hf. apply framed_keep.
    + unfold onTimeout. destruct (List.find _ (timers st)); reflexivity.
    + intros x. by destruct (onTimeout_shrinks h st) as (-> & _).
  - revert Hf. apply framed_keep; [reflexivity|auto].
Qed.

Lemma run_framed (events : list event) : framed (run events newService).
Proof.
  assert (H : forall st, framed st -> framed (run events st)).
  { induction events as [|e events IH]; intros st Hf; [exact Hf|].
    apply IH, framed_step, Hf. }
  apply H. split.
  - intros sid. unfold newService. simpl. rewrite lookup_empty. by intros [? [=]].
  - intros sid b. unfold newService. simpl. by rewrite lookup_empty.
Qed.

(** X19. Nothing that ends with a newline waits in the buffer. In every
    state a service can reach, the stdout handler of each registered
    session has its buffer, and no buffer holds a newline: every complete
    line was handed to the loop by the chunk that brought its newline. So
    for a registered session, once a listener is subscribed to ['error'],
    however the output of the agent is cut into chunks, the service
    processes one after the other the complete lines of the buffered text
    followed by the decoded chunks, and keeps what follows the last
    newline. *)
Theorem buffered_text_holds_no_newline (history : list event) (sid : jsstring) :
  let st := run history newService in
  (forall b, buffers st !! sid = Some b -> ~ In 10 b)
  /\ (forall s,
        getSession sid st = Some s ->
        exists b,
          buffers st !! sid = Some b
          /\ forall chunks,
               In ErrorListenerAdded history ->
               let text := b ++ List.concat (List.map Utf8.toString chunks) in
               feedStdout sid chunks st
               = set_buffer sid (remainder text)
                   (fold_left (fun st l => state_of (processLines sid [l] st))
                      (completeLines text) st)).
Proof.
  intros st. destruct (run_framed history) as (Hw & Hn). fold st in Hw, Hn.
  split; [apply Hn|]. intros s Hs.
  destruct (Hw sid) as [b Hb]; [unfold getSession in Hs; eauto|].
  exists b. split; [exact Hb|]. intros chunks Hin text.
  apply (feedStdout_lines sid chunks st _ b Hb (Hn sid b Hb)).
  apply processLines_listening. by apply run_listeners.
Qed.

End Buffers.

Lemma buffered_text_holds_no_newline_witness :
  exists b,
    buffers Demo.initialized !! Demo.sid = Some b
    /\ forall chunks,
         In ErrorListenerAdded Demo.history ->
         let text := b ++ List.concat (List.map Utf8.toString chunks) in
         feedStdout (rt := Reference.runtime) Demo.sid chunks
           (run (rt := Reference.runtime) Demo.history newService)
         = set_buffer Demo.sid (remainder text)
             (fold_left
                (fun st l => state_of (processLines (rt := Reference.runtime) Demo.sid [l] st))
                (completeLines text) (run (rt := Reference.runtime) Demo.history newService)).
Proof.
  destruct (buffered_text_holds_no_newline (rt := Reference.runtime) Demo.history Demo.sid)
    as [_ H].
  destruct (H (mkSession Demo.sid (lit "gemini") (lit "app") (lit "/tmp")
                 (mkProcess true false true) ready (Some (JStr (lit "1")))
                 (Some (JObj [])))) as (b & Hb & Hfeed).
  - vm_compute. reflexivity.
  - exists b. split; [|exact Hfeed]. rewrite <- Hb. vm_compute. reflexivity.
Defined.

(** ** What the agent prints on stderr *)

Section Stderr.

Context `{rt : Runtime}.

(** X20. What the agent prints on stderr is forwarded and never read.
    However many chunks arrive and whatever they hold, be it a complete
    response: each chunk is emitted as one ['stderr'] notification carrying
    its decoded text, in order and without any framing into lines; nothing
    is handed to [JSON.parse], no promise is settled, and the registry, the
    pending calls, the timers and the stdout buffers are left as they
    were, also for a session that is not registered. *)
Theorem stderr_is_forwarded_and_never_read (sid : jsstring) (chunks : list Utf8.buffer)
    (st : AcpService) :
  let st' := feedStderr sid chunks st in
  notifications (trace st')
  = notifications (trace st)
    ++ List.map (fun chunk => (sid, Stderr (Utf8.toString chunk))) chunks
  /\ settlements (trace st') = settlements (trace st)
  /\ (forall l, In (JsonParse l) (trace st') -> In (JsonParse l) (trace st))
  /\ sessions st' = sessions st
  /\ pendingRequests st' = pendingRequests st
  /\ timers st' = timers st
  /\ buffers st' = buffers st.
Proof.
  revert st. induction chunks as [|c chunks IH]; intros st.
  - simpl. rewrite app_nil_r. repeat split; auto.
  - cbv zeta. change (feedStderr sid (c :: chunks) st)
      with (feedStderr sid chunks (onStderrData sid c st)).
    destruct (IH (onStderrData sid c st)) as (Hn & Hs & Hj & Hse & Hp & Ht & Hb).
    assert (Hone : notifications (trace (onStderrData sid c st))
                   = notifications (trace st) ++ [(sid, Stderr (Utf8.toString c))]
                   /\ settlements (trace (onStderrData sid c st)) = settlements (trace st)
                   /\ (forall l, In (JsonParse l) (trace (onStderrData sid c st)) ->
                                 In (JsonParse l) (trace st))
                   /\ sessions (onStderrData sid c st) = sessions st
                   /\ pendingRequests (onStderrData sid c st) = pendingRequests st
                   /\ timers (onStderrData sid c st) = timers st
                   /\ buffers (onStderrData sid c st) = buffers st).
    { unfold onStderrData, emitNotification, writeLog.
      destruct (decide _); simpl; rewrite !notifications_app, !settlements_app; simpl;
        rewrite ?app_nil_r; repeat split; auto;
        intros l Hl; rewrite !in_app_iff in Hl; simpl in Hl; intuition discriminate. }
    destruct Hone as (Hn1 & Hs1 & Hj1 & Hse1 & Hp1 & Ht1 & Hb1).
    rewrite Hn, Hs, Hse, Hp, Ht, Hb, Hn1, Hs1, Hse1, Hp1, Ht1, Hb1.
    cbn [List.map]. rewrite <- app_assoc. repeat split; auto.
Qed.

End Stderr.

(** ** Oversized lines, in bytes *)

Section OversizedBytes.

Context `{rt : Runtime}.

Lemma toString_singleByte (chunk : Utf8.buffer) :
  singleByte chunk = true -> Utf8.toString chunk = List.map Byte.to_N chunk.
Proof.
  unfold Utf8.toString, singleByte.
  induction chunk as [|b chunk IH]; [reflexivity|].
  cbn [forallb List.map]. intros [Hb Hrest]%andb_true_iff. apply N.ltb_lt in Hb.
  cbn [Utf8.decode Utf8.needed Utf8.idle]. unfold Utf8.lead.
  assert (Hle : (Byte.to_N b <=? 127) = true) by (apply N.leb_le; lia).
  rewrite Hle. cbn [app List.map List.concat]. rewrite (IH Hrest).
  unfold Utf8.utf16.
  assert (Hlt : (Byte.to_N b <? 65536) = true) by (apply N.ltb_lt; lia).
  rewrite Hlt. reflexivity.
Qed.

Lemma text_singleByte (chunks : list Utf8.buffer) :
  forallb singleByte chunks = true ->
  List.concat (List.map Utf8.toString chunks) = List.map Byte.to_N (List.concat chunks).
Proof.
  induction chunks as [|c chunks IH]; [reflexivity|].
  cbn [forallb List.map List.concat]. intros [Hc Hrest]%andb_true_iff.
  rewrite List.map_app, (toString_singleByte c Hc), (IH Hrest). reflexivity.
Qed.

(** Every line the loop hands to [JSON.parse] is one of its lines,
    trimmed, and is not longer than the ceiling. *)
Lemma processLines_parsed (sid : jsstring) (lines : list jsstring) (st : AcpService)
    (l : jsstring) :
  In (JsonParse l) (trace (state_of (processLines sid lines st))) ->
  In (JsonParse l) (trace st)
  \/ exists line, In line lines /\ l = trim line /\ len l <= MAX_LINE.
Proof.
  revert st. induction lines as [|line rest IH]; intros st; [by left|].
  assert (Hrest : forall st0,
            In (JsonParse l) (trace (state_of (processLines sid rest st0))) ->
            In (JsonParse l) (trace st0)
            \/ exists line0, In line0 (line :: rest) /\ l = trim line0 /\ len l <= MAX_LINE).
  { intros st0 [H|(line0 & Hin & Heq & Hle)]%IH; [by left|].
    right. exists line0. split; [by right|by split]. }
  cbn [processLines].
  destruct (trim line) as [|c t] eqn:Ht; [apply Hrest|].
  destruct (N.ltb_spec MAX_LINE (len (c :: t))) as [Hlt|Hle].
  - intros [H|H]%Hrest; [|by right]. left.
    rewrite trace_does, in_app_iff in H. simpl in H. intuition discriminate.
  - assert (Hp : forall st0,
              In (JsonParse l) (trace (does (JsonParse (c :: t)) st0)) ->
              In (JsonParse l) (trace st0)
              \/ exists line0, In line0 (line :: rest) /\ l = trim line0
                               /\ len l <= MAX_LINE).
    { intros st0. rewrite trace_does, in_app_iff. simpl.
      intros [H|[H|[]]]; [by left|]. injection H as <-. right.
      exists line. split; [by left|]. by split. }
    assert (Hcatch : forall st0,
      (In (JsonParse l) (trace st0) ->
       In (JsonParse l) (trace st)
       \/ exists line0, In line0 (line :: rest) /\ l = trim line0 /\ len l <= MAX_LINE) ->
      In (JsonParse l)
        (trace (state_of
           match emitError sid (lit "Invalid JSON from agent")
                   (does (LogError (invalidJsonError sid (c :: t))) st0) with
           | Normal st1 => processLines sid rest st1
           | Thrown st1 e => Thrown st1 e
           end)) ->
      In (JsonParse l) (trace st)
      \/ exists line0, In line0 (line :: rest) /\ l = trim line0 /\ len l <= MAX_LINE).
    { intros st0 H0. unfold emitError.
      destruct (errorListeners _); cbn [state_of].
      - rewrite trace_does, in_app_iff. simpl. intuition discriminate.
      - intros [H|H]%Hrest; [|by right].
        rewrite !trace_does, !in_app_iff in H. simpl in H. intuition discriminate. }
    unfold parseAndHandle.
    destruct (JSON_parse (c :: t)) as [msg|].
    + destruct (handleMessage sid msg _) as [st1|st1 e] eqn:Hh.
      * intros [H|H]%Hrest; [|by right]. apply Hp.
        apply (handleMessage_parse sid msg). by rewrite Hh.
      * apply Hcatch. intros H. apply Hp.
        apply (handleMessage_parse sid msg). by rewrite Hh.
    + apply Hcatch, Hp.
Qed.

Lemma feedStdout_parsed (sid : jsstring) (chunks : list Utf8.buffer) (st : AcpService)
    (b l : jsstring) :
  buffers st !! sid = Some b ->
  ~ In 10 b ->
  In (JsonParse l) (trace (feedStdout sid chunks st)) ->
  In (JsonParse l) (trace st)
  \/ exists line,
       In line (completeLines (b ++ List.concat (List.map Utf8.toString chunks)))
       /\ l = trim line /\ len l <= MAX_LINE.
Proof.
  revert st b. induction chunks as [|c chunks IH]; intros st b Hb Hnl; [by left|].
  rewrite feedStdout_cons, (onStdoutData_eq _ _ _ _ Hb).
  cbn [List.map List.concat]. rewrite app_assoc.
  rewrite (completeLines_app (b ++ Utf8.toString c)
             (List.concat (List.map Utf8.toString chunks))).
  set (text := b ++ Utf8.toString c).
  intros [H|(line & Hin & Heq & Hle)]%(IH _ (remainder text)).
  - apply processLines_parsed in H as [H|(line & Hin & Heq & Hle)]; [by left|].
    right. exists line. rewrite in_app_iff. auto.
  - right. exists line. rewrite in_app_iff. auto.
  - rewrite processLines_buffers. simpl. apply lookup_insert_eq.
  - apply remainder_no_newline.
Qed.

(** C8, amended. On a stream of single-byte characters, where the length
    the loop compares with the ceiling is the length of the line in bytes,
    and however the stream is cut into chunks: every line handed to
    [JSON.parse] is a complete line of the stream, trimmed, of at most
    65536 bytes, so that a line whose trimmed length exceeds the ceiling is
    never parsed; when the loop comes to such a line it logs the warning
    and does nothing else with it; with a listener subscribed to ['error']
    every such line is reached and gets its warning; and a stream that is
    one such line ends with exactly that warning and nothing else. *)
Theorem oversized_line_is_dropped (sid : jsstring) (chunks : list Utf8.buffer)
    (st : AcpService) :
  forallb singleByte chunks = true ->
  buffers st !! sid = Some [] ->
  let stream := List.map Byte.to_N (List.concat chunks) in
  (forall l,
     In (JsonParse l) (trace (feedStdout sid chunks st)) ->
     In (JsonParse l) (trace st)
     \/ exists line, line ∈ completeLines stream /\ l = trim line /\ len l <= MAX_LINE)
  /\ (forall line,
        line ∈ completeLines stream ->
        MAX_LINE < len (trim line) ->
        (~ In (JsonParse (trim line)) (trace st) ->
         ~ In (JsonParse (trim line)) (trace (feedStdout sid chunks st)))
        /\ (forall rest st0,
              processLines sid (line :: rest) st0
              = processLines sid rest (does (LogWarn (oversizedWarning sid (trim line))) st0))
        /\ ((0 < errorListeners st)%nat ->
            In (LogWarn (oversizedWarning sid (trim line)))
              (trace (feedStdout sid chunks st))))
  /\ (forall line,
        stream = line ++ [10] ->
        10 ∉ line ->
        MAX_LINE < len (trim line) ->
        feedStdout sid chunks st = does (LogWarn (oversizedWarning sid (trim line))) st).
Proof.
  intros Hascii Hb stream.
  pose proof (text_singleByte chunks Hascii) as Htext. fold stream in Htext.
  assert (Hparsed : forall l,
            In (JsonParse l) (trace (feedStdout sid chunks st)) ->
            In (JsonParse l) (trace st)
            \/ exists line, line ∈ completeLines stream /\ l = trim line
                            /\ len l <= MAX_LINE).
  { intros l [H|(line & Hin & Heq & Hle)]%(feedStdout_parsed sid chunks st [] l Hb);
      [by left| |simpl; tauto].
    right. exists line. cbn [app] in Hin. rewrite Htext in Hin.
    rewrite list_elem_of_In. auto. }
  destruct (oversized_lines_of_the_text sid) as (_ & _ & Hwarn & Hone).
  split; [exact Hparsed|]. split.
  - intros line Hin Hlt. split; [|split].
    + intros Hnew [H|(line0 & _ & _ & Hle)]%Hparsed; [contradiction|]. lia.
    + intros rest st0. by apply processLines_oversized.
    + intros Hl.
      apply (Hwarn chunks [] line st Hl Hb); [|by rewrite app_nil_l, Htext|exact Hlt].
      rewrite list_elem_of_In. simpl. tauto.
  - intros line Hs Hn Hlt. apply Hone; [by rewrite Htext|exact Hn|exact Hlt|exact Hb].
Qed.

End OversizedBytes.

Lemma oversized_line_is_dropped_witness :
  In (LogWarn (oversizedWarning Demo.sid Demo.bigLine))
    (trace (feedStdout (rt := Reference.runtime) Demo.sid Demo.bigChunks Demo.started))
  /\ ~ In (JsonParse Demo.bigLine)
        (trace (feedStdout (rt := Reference.runtime) Demo.sid Demo.bigChunks Demo.started))
  /\ feedStdout (rt := Reference.runtime) Demo.sid Demo.bigChunks Demo.started
     = does (LogWarn (oversizedWarning Demo.sid Demo.bigLine)) Demo.started.
Proof.
  assert (Htrim : trim Demo.bigLine = Demo.bigLine)
    by (refine (bool_decide_unpack _ _); vm_compute; reflexivity).
  destruct (oversized_line_is_dropped (rt := Reference.runtime) Demo.sid Demo.bigChunks
              Demo.started) as (_ & Hb & Hc).
  - vm_compute. reflexivity.
  - vm_compute. reflexivity.
  - destruct (Hb Demo.bigLine) as (Hnever & _ & Hwarn).
    + refine (bool_decide_unpack _ _). vm_compute. reflexivity.
    + rewrite Htrim. vm_compute. reflexivity.
    + pose proof (Hc Demo.bigLine) as Hone.
      rewrite Htrim in Hnever, Hwarn, Hone.
      split; [apply Hwarn; vm_compute; lia|].
      split.
      { apply Hnever. intros H.
        assert (Hno : Forall (fun c => match c with JsonParse _ => False | _ => True end)
                        (trace Demo.started)) by (vm_compute; repeat constructor).
        rewrite List.Forall_forall in Hno. exact (Hno _ H). }
      apply Hone.
      * refine (bool_decide_unpack _ _). vm_compute. reflexivity.
      * refine (bool_decide_unpack _ _). vm_compute. reflexivity.
      * vm_compute. reflexivity.
Defined.
